(** * Dev-server orchestrator: the session engine of backend/index.js

    A shallow embedding of the Express backend that provisions editor
    containers.  Two revisions of the backend are covered:

    - [HostClone]: backend/index.js as first written, which clones the
      repository on the host into [REPOS_DIR/sessionId] and bind-mounts it;
    - [InContainerClone]: its later revision, which lets the container clone
      the repository and adds a detached readiness probe.

    JavaScript runs every handler to its next [await] without interruption
    and other handlers may run while it is suspended.  The embedding keeps
    exactly that structure: a handler is cut at its [await]s, every piece is
    a pure function of the registry, and the event loop [step] delivers
    either a new request or the settlement of an awaited promise.  What the
    host, git, Docker and the file system answer is supplied by the events,
    so that theorems quantify over every behaviour of the environment and
    every interleaving of the handlers.  A port probe that finds its port
    in use raises an ['error'] event nobody listens to and the process
    exits: such an event has no next world, and a run is a run of the
    living process.

    [activeSessions] is a JavaScript [Map]; the error path of the create
    handler searches it in insertion order, so it is kept as an ordered
    association list.  The suspended handlers are a finite map from request
    numbers to continuations.  The route that returns container logs only
    reads the registry; it is modelled on its own, outside the event
    loop. *)

From stdpp Require Import gmap list.
From Stdlib Require Import ZArith String DecimalString Lia.

Open Scope string_scope.
Open Scope list_scope.
Open Scope Z_scope.

(** ** JavaScript values used by the handlers *)

(** Truthiness of a string: only the empty string is falsy. *)
Definition truthy (s : string) : bool := negb (String.eqb s EmptyString).

(** [port.toString()] and the interpolation of a port in a template. *)
Definition toString (n : Z) : string := NilZero.string_of_int (Z.to_int n).

(** A text between double quotes. *)
Definition quoted (s : string) : string :=
  String (Ascii.ascii_of_nat 34) (String.append s (String (Ascii.ascii_of_nat 34) EmptyString)).

(** [path.join(dir, name)]. *)
Definition path_join (dir name : string) : string :=
  String.append dir (String.append "/" name).

(** [REPOS_DIR = path.join(__dirname, '..', 'repos')], relative to the
    directory that holds the backend. *)
Definition REPOS_DIR : string := "../repos".

(** ** A JavaScript [Map] with string keys

    Iteration order is insertion order, [set] on a present key replaces the
    value in place, [delete] drops the key.  The error path of the create
    handler searches the keys in iteration order, so the order is part of
    the model. *)
Module JsMap.

(** Entries in insertion order, keys distinct. *)
Definition t (V : Type) : Type := list (string * V).

(** [new Map()]. *)
Definition empty {V} : t V := [].

(** [m.get(k)]; [None] is [undefined]. *)
Fixpoint get {V} (k : string) (m : t V) : option V :=
  match m with
  | [] => None
  | (k', v) :: rest => if String.eqb k k' then Some v else get k rest
  end.

(** [m.set(k, v)]: in place for a present key, at the end for a new one. *)
Fixpoint set {V} (k : string) (v : V) (m : t V) : t V :=
  match m with
  | [] => [(k, v)]
  | (k', v') :: rest =>
      if String.eqb k k' then (k, v) :: rest else (k', v') :: set k v rest
  end.

(** [m.delete(k)]. *)
Definition delete {V} (k : string) (m : t V) : t V :=
  List.filter (fun kv => negb (String.eqb k (fst kv))) m.

(** [Array.from(m.keys())]. *)
Definition keys {V} (m : t V) : list string := List.map fst m.

(** [Array.from(m.values())]. *)
Definition values {V} (m : t V) : list V := List.map snd m.

End JsMap.

(** ** Sessions *)

(** The three strings ever stored in [session.status]. *)
Inductive Status : Type := cloning | starting | running.

(** [===] on two status strings. *)
Definition Status_eqb (a b : Status) : bool :=
  match a, b with
  | cloning, cloning | starting, starting | running, running => true
  | _, _ => false
  end.

(** The object stored in [activeSessions].  [containerId] is [null] until
    the container has started; [sessionDir] is only set by [HostClone]. *)
Record Session : Type := mkSession {
  sessionId : string;
  repoUrl : string;
  port : Z;
  status : Status;
  containerId : option string;
  sessionDir : option string
}.

(** [session.status = st]. *)
Definition with_status (st : Status) (s : Session) : Session :=
  mkSession (sessionId s) (repoUrl s) (port s) st (containerId s) (sessionDir s).

(** [session.containerId = container.id]. *)
Definition with_container (cid : string) (s : Session) : Session :=
  mkSession (sessionId s) (repoUrl s) (port s) (status s) (Some cid) (sessionDir s).

(** The type of [activeSessions]. *)
Abbreviation Registry := (JsMap.t Session).

(** ** The host's port table and [findAvailablePort] *)

(** What the operating system answers to a bind: [bound] are the ports in
    use, [ephemeral] is what a bind of port 0 yields (a port, or the error
    message when none can be had). *)
Record Host : Type := mkHost {
  bound : list Z;
  ephemeral : string + Z
}.

(** What [server.listen(port, callback)] of Node's [net] leads to.  The
    callback is registered for the ['listening'] event and is called
    without argument once the server is bound.  A bind that fails is an
    ['error'] event of the server; the source registers no listener for it,
    so it is thrown as an uncaught exception and the process exits.  A
    port outside 0..65535 makes [listen] itself throw. *)
Inductive Listen : Type :=
| Listening (port : Z)          (* bound; [port] is [server.address().port] *)
| Unhandled (message : string)  (* ['error'] without listener: the process exits *)
| Thrown (message : string).    (* [RangeError], code ERR_SOCKET_BAD_PORT *)

(** The message of that [RangeError]. *)
Definition bad_port (p : Z) : string :=
  String.append "options.port should be >= 0 and < 65536. Received type number ("
    (String.append (toString p) ")").

(** [server.listen(p, callback)] on the host [h]: port 0 asks for an
    assigned port, a port in use cannot be bound. *)
Definition listen (h : Host) (p : Z) : Listen :=
  if (p <? 0) || (65535 <? p) then Thrown (bad_port p)
  else if p =? 0 then
    match ephemeral h with
    | inr q => Listening q
    | inl msg => Unhandled msg
    end
  else if existsb (Z.eqb p) (bound h) then Unhandled "EADDRINUSE"
  else Listening p.

(** How a call of [findAvailablePort] ends: its promise is resolved, or
    rejected, or the process exits before the promise settles. *)
Inductive Settlement : Type :=
| Fulfilled (port : Z)
| RejectedWith (message : string)
| ProcessExit (message : string).

(** A call of [findAvailablePort]: the ports handed to [server.listen], in
    call order, and how the call ends. *)
Record PortPromise : Type := mkPortPromise {
  listens : list Z;
  settled : Settlement
}.

(** [findAvailablePort(startPort)] (lines 28 to 49 of both revisions).
    [outer] and [inner] are the two callbacks, as functions of the argument
    [err] they are called with and of [server.address().port].  Node calls
    a ['listening'] callback without argument, so [outer] only ever runs
    with [err] undefined: the branch that retries on port 0 and the
    [reject] are never reached.  An exception thrown by [listen] inside the
    executor rejects the promise.  The probe socket is closed before the
    promise resolves, so the host is left as it was. *)
Definition findAvailablePort (h : Host) (startPort : Z) : PortPromise :=
  let inner (err : option string) (port : Z) : Settlement :=
    match err with
    | Some e => RejectedWith e
    | None => Fulfilled port
    end in
  let outer (err : option string) (port : Z) : PortPromise :=
    match err with
    | Some _ =>
        mkPortPromise [startPort; 0]
          match listen h 0 with
          | Listening q => inner None q
          | Unhandled e | Thrown e => ProcessExit e
          end
    | None => mkPortPromise [startPort] (Fulfilled port)
    end in
  match listen h startPort with
  | Listening port => outer None port
  | Unhandled e => mkPortPromise [startPort] (ProcessExit e)
  | Thrown e => mkPortPromise [startPort] (RejectedWith e)
  end.

(** ** What a handler does to the outside world *)

(** The call sites of [console.log] and [console.error]. *)
Inductive LogSite : Type :=
| LogCloning          (* Cloning repository ... to ... *)
| LogCreating         (* Creating OpenVSCode container for session ... *)
| LogConfig           (* Container config: ... *)
| LogStarted          (* OpenVSCode server started for session ... *)
| ErrCreating         (* Error creating dev server: *)
| ErrCleanup          (* Error cleaning up session directory: *)
| LogStopped          (* Stopped container ... for session ... *)
| ErrStopping         (* Error stopping container: *)
| LogRemoved          (* Removed session directory ... *)
| ErrRemoving         (* Error removing session directory: *)
| ErrExited           (* Container for session ... exited. Logs: ... *)
| LogResponding       (* OpenVSCode server for session ... is responding *)
| ErrNoResponse       (* ... did not respond on port ... after 10 attempts. *)
| ErrInspect.         (* Error inspecting/logging container: *)

(** The object passed to [docker.createContainer]. *)
Record ContainerConfig : Type := mkConfig {
  Image : string;
  name : string;
  HostPort : string;
  Binds : list string;
  AutoRemove : bool;
  Env : list string;
  WorkingDir : string;
  Entrypoint : list string
}.

(** Calls that leave the process, in the order they are made. *)
Inductive Effect : Type :=
| ServerListen (port : Z)
| GitClone (url dir : string)
| CreateContainer (cfg : ContainerConfig)
| ContainerStart (container : string)
| ContainerStop (container : string)
| ContainerInspect (container : string)
| ContainerLogs (container : string) (tail : Z)
| Rmdir (dir : option string)
| SetTimeout (ms : Z)
| HttpGet (url : string)
| Console (site : LogSite).

(** The [session => ({...})] projection of the list route. *)
Record Summary : Type := mkSummary {
  sum_sessionId : string;
  sum_repoUrl : string;
  sum_port : Z;
  sum_status : Status;
  sum_containerId : option string
}.

(** One element of the list route's answer. *)
Definition summary (s : Session) : Summary :=
  mkSummary (sessionId s) (repoUrl s) (port s) (status s) (containerId s).

(** The JSON bodies the routes send. *)
Inductive Body : Type :=
| ErrorBody (error : string)
| CreatedBody (sessionId repoUrl : string) (port : Z) (status : Status) (url : string)
| MessageBody (message : string)
| SessionsBody (sessions : list Summary).

(** [res.status(code).json(body)]; [res.json] answers 200. *)
Record Response : Type := mkResponse {
  code : Z;
  body : Body
}.

(** How an awaited promise, a timer or an HTTP probe settles. *)
Inductive Outcome : Type :=
| PortProbed (h : Host)            (* the host as server.listen met it *)
| Resolved                         (* clone, start, stop, rmdir *)
| ContainerCreated (id : string)   (* docker.createContainer *)
| Rejected (message : string)      (* a rejected promise, an 'error' event *)
| TimerFired
| Inspected (Status : string)      (* inspect.State.Status *)
| LogsRead
| HttpAnswered (statusCode : Z).

(** ** Suspended handlers *)

(** The two revisions of the backend. *)
Inductive Variant : Type := HostClone | InContainerClone.

(** Where the create handler is suspended, with the locals still needed. *)
Inductive CreatePc : Type :=
| AwaitPort
| AwaitClone (port : Z)
| AwaitCreateContainer (port : Z)
| AwaitStart (port : Z) (container : string)
| AwaitCleanup (message : string).

(** A suspended create handler: [sessionId], [req.body.repoUrl] and the
    point of suspension. *)
Record CreateTask : Type := mkCreate {
  c_sessionId : string;
  c_repoUrl : string;
  c_pc : CreatePc
}.

(** Where the delete handler is suspended. *)
Inductive DeletePc : Type := AwaitStop | AwaitRmdir.

(** [d_sessionDir] is [session.sessionDir]: the handler keeps the session
    object it looked up and no code ever reassigns that field. *)
Record DeleteTask : Type := mkDelete {
  d_sessionId : string;
  d_sessionDir : option string;
  d_pc : DeletePc
}.

(** Where the readiness probe is suspended; [attempts] is its counter. *)
Inductive ProbePc : Type :=
| ProbeTimer
| ProbeInspect
| ProbeLogs
| ProbeGet (attempts : nat)
| ProbeRetry (attempts : nat).

(** A suspended probe with the variables its closure captured. *)
Record ProbeTask : Type := mkProbe {
  p_sessionId : string;
  p_port : Z;
  p_container : string;
  p_pc : ProbePc
}.

(** Everything the event loop can resume. *)
Inductive Task : Type :=
| TCreate (t : CreateTask)
| TDelete (t : DeleteTask)
| TProbe (t : ProbeTask).

(** One uninterrupted run of a handler: from a request or a settled
    promise to the next [await] or to the response. *)
Record Turn : Type := mkTurn {
  t_sessions : Registry;
  t_effects : list Effect;
  t_next : option Task;
  t_response : option Response;
  t_spawn : option ProbeTask
}.

(** ** POST /api/dev-server *)

(** The configuration each revision passes to [docker.createContainer]. *)
Definition containerConfig (v : Variant) (sid url : string) (p : Z) : ContainerConfig :=
  match v with
  | HostClone =>
      mkConfig "gitpod/openvscode-server:latest"
        (String.append "openvscode-" sid) (toString p)
        [String.append (path_join REPOS_DIR sid) ":/home/workspace:rw"]
        true
        ["OPENVSCODE_SERVER_ROOT=/home/workspace";
         "OPENVSCODE_DISABLE_WELCOME_PAGE=true"]
        "/home/workspace" []
  | InContainerClone =>
      mkConfig "gitpod/openvscode-server:1.86.2"
        (String.append "openvscode-" sid) (toString p)
        []
        false
        [String.append "REPO_URL=" url;
         "OPENVSCODE_SERVER_ROOT=/home/workspace";
         "OPENVSCODE_DISABLE_WELCOME_PAGE=true"]
        "/home/workspace"
        ["/bin/sh"; "-c";
         String.append "git clone "
           (String.append (quoted "$REPO_URL")
              " /home/workspace && /openvscode-server/bin/openvscode-server --host 0.0.0.0 --port 3000")]
  end.

(** A turn that ends at an [await]. *)
Definition suspend (m : Registry) (effs : list Effect) (k : Task) : Turn :=
  mkTurn m effs (Some k) None None.

(** A turn that ends with the response. *)
Definition respond (m : Registry) (effs : list Effect) (r : Response) : Turn :=
  mkTurn m effs None (Some r) None.

(** Effects made, and a timer armed, before the rest of the turn. *)
Definition after (effs : list Effect) (spawn : option ProbeTask) (t : Turn) : Turn :=
  mkTurn (t_sessions t) (effs ++ t_effects t) (t_next t) (t_response t)
    (match spawn with Some p => Some p | None => t_spawn t end).

(** The 500 of the create handler. *)
Definition failed (message : string) : Response :=
  mkResponse 500 (ErrorBody (String.append "Failed to create dev server: " message)).

(** The predicate of the [find] in the error path:
    [activeSessions.get(id)?.repoUrl === req.body.repoUrl &&
     activeSessions.get(id)?.status !== 'running']. *)
Definition unfinished (url : string) (m : Registry) (id : string) : bool :=
  match JsMap.get id m with
  | Some s => String.eqb (repoUrl s) url && negb (Status_eqb (status s) running)
  | None => false
  end.

(** The [catch (error)] block of the create handler, up to its [await]. *)
Definition catch_create (t : CreateTask) (message : string) (m : Registry) : Turn :=
  if truthy (c_repoUrl t) then
    match List.find (unfinished (c_repoUrl t) m) (JsMap.keys m) with
    | Some sessionId =>
        if truthy sessionId then
          suspend (JsMap.delete sessionId m)
            [Console ErrCreating; Rmdir (Some (path_join REPOS_DIR sessionId))]
            (TCreate (mkCreate (c_sessionId t) (c_repoUrl t) (AwaitCleanup message)))
        else respond m [Console ErrCreating] (failed message)
    | None => respond m [Console ErrCreating] (failed message)
    end
  else respond m [Console ErrCreating] (failed message).

(** Assigning a property of [undefined]. *)
Definition TypeError (property : string) : string :=
  String.append "Cannot set properties of undefined (setting '"
    (String.append property "')").

(** The handler from the request to [await findAvailablePort(8080)];
    [uuid] is what [uuidv4()] returns when it is called.  The executor of
    the promise runs at once, so [server.listen(8080, ...)] is called in
    this turn. *)
Definition post_dev_server (body_repoUrl : option string) (uuid : string)
    (m : Registry) : Turn :=
  match body_repoUrl with
  | Some url =>
      if truthy url then
        suspend m [ServerListen 8080] (TCreate (mkCreate uuid url AwaitPort))
      else respond m [] (mkResponse 400 (ErrorBody "Repository URL is required"))
  | None => respond m [] (mkResponse 400 (ErrorBody "Repository URL is required"))
  end.

(** The handler resumed after an [await].  When the port probe ends the
    process there is no turn.  [later] are the [server.listen] calls the
    callbacks of the probe made after the first. *)
Definition resume_create (v : Variant) (t : CreateTask) (o : Outcome)
    (m : Registry) : option Turn :=
  let sid := c_sessionId t in
  let url := c_repoUrl t in
  let continue pc := TCreate (mkCreate sid url pc) in
  match c_pc t, o with
  | AwaitPort, PortProbed h =>
      let promise := findAvailablePort h 8080 in
      let later := List.map ServerListen (List.tl (listens promise)) in
      match settled promise with
      | ProcessExit _ => None
      | RejectedWith err => Some (after later None (catch_create t err m))
      | Fulfilled p =>
          match v with
          | HostClone =>
              let dir := path_join REPOS_DIR sid in
              Some (suspend
                      (JsMap.set sid (mkSession sid url p cloning None (Some dir)) m)
                      (later ++ [Console LogCloning; GitClone url dir])
                      (continue (AwaitClone p)))
          | InContainerClone =>
              Some (suspend
                      (JsMap.set sid (mkSession sid url p starting None None) m)
                      (later ++ [Console LogCreating; Console LogConfig;
                                 CreateContainer (containerConfig v sid url p)])
                      (continue (AwaitCreateContainer p)))
          end
      end
  | AwaitClone p, Resolved =>
      match JsMap.get sid m with
      | Some s =>
          Some (suspend (JsMap.set sid (with_status starting s) m)
                  [Console LogCreating; CreateContainer (containerConfig v sid url p)]
                  (continue (AwaitCreateContainer p)))
      | None => Some (catch_create t (TypeError "status") m)
      end
  | AwaitCreateContainer p, ContainerCreated c =>
      Some (suspend m [ContainerStart c] (continue (AwaitStart p c)))
  | AwaitStart p c, Resolved =>
      let timer :=
        match v with
        | HostClone => ([], None)
        | InContainerClone => ([SetTimeout 2000], Some (mkProbe sid p c ProbeTimer))
        end in
      match JsMap.get sid m with
      | Some s =>
          Some (after (fst timer) (snd timer)
                  (respond (JsMap.set sid (with_status running (with_container c s)) m)
                     [Console LogStarted]
                     (mkResponse 200
                        (CreatedBody sid url p running
                           (String.append "http://localhost:" (toString p))))))
      | None =>
          Some (after (fst timer) (snd timer) (catch_create t (TypeError "containerId") m))
      end
  | AwaitCleanup message, Resolved => Some (respond m [] (failed message))
  | AwaitCleanup message, Rejected _ => Some (respond m [Console ErrCleanup] (failed message))
  | AwaitClone _, Rejected err
  | AwaitCreateContainer _, Rejected err
  | AwaitStart _ _, Rejected err => Some (catch_create t err m)
  | _, _ => None
  end.

(** ** GET /api/dev-server *)

(** The [sessions] array of the list route. *)
Definition list_sessions (m : Registry) : list Summary :=
  List.map summary (JsMap.values m).

(** The list handler: one turn, no outside call. *)
Definition get_dev_server (m : Registry) : Turn :=
  respond m [] (mkResponse 200 (SessionsBody (list_sessions m))).

(** ** DELETE /api/dev-server/:sessionId *)

(** The 200 of the delete handler. *)
Definition stopped : Response :=
  mkResponse 200 (MessageBody "Dev server stopped and cleaned up successfully").

(** The delete handler from the request to its first [await], or to the
    404 when the id is unknown. *)
Definition delete_dev_server (sid : string) (m : Registry) : Turn :=
  match JsMap.get sid m with
  | None => respond m [] (mkResponse 404 (ErrorBody "Session not found"))
  | Some session =>
      match containerId session with
      | Some c =>
          if truthy c then
            suspend m [ContainerStop c]
              (TDelete (mkDelete sid (sessionDir session) AwaitStop))
          else
            suspend m [Rmdir (sessionDir session)]
              (TDelete (mkDelete sid (sessionDir session) AwaitRmdir))
      | None =>
          suspend m [Rmdir (sessionDir session)]
            (TDelete (mkDelete sid (sessionDir session) AwaitRmdir))
      end
  end.

(** The delete handler resumed: both [try] blocks swallow a rejection and
    log it. *)
Definition resume_delete (t : DeleteTask) (o : Outcome) (m : Registry) : option Turn :=
  let rmdir site :=
    suspend m [Console site; Rmdir (d_sessionDir t)]
      (TDelete (mkDelete (d_sessionId t) (d_sessionDir t) AwaitRmdir)) in
  let finish site :=
    respond (JsMap.delete (d_sessionId t) m) [Console site] stopped in
  match d_pc t, o with
  | AwaitStop, Resolved => Some (rmdir LogStopped)
  | AwaitStop, Rejected _ => Some (rmdir ErrStopping)
  | AwaitRmdir, Resolved => Some (finish LogRemoved)
  | AwaitRmdir, Rejected _ => Some (finish ErrRemoving)
  | _, _ => None
  end.

(** ** The readiness probe armed after [container.start()] *)

(** [const maxAttempts = 10]. *)
Definition maxAttempts : nat := 10.

(** [retry], entered with the value of [attempts] before [attempts++]. *)
Definition retry (attempts : nat) : list Effect * option ProbePc :=
  let attempts := S attempts in
  if (attempts <? maxAttempts)%nat then ([SetTimeout 1000], Some (ProbeRetry attempts))
  else ([Console ErrNoResponse], None).

(** [const checkUrl = `http://localhost:${port}`]. *)
Definition checkUrl (p : Z) : string :=
  String.append "http://localhost:" (toString p).

(** [check]: one [http.get(checkUrl, ...)]. *)
Definition check (p : Z) (attempts : nat) : list Effect * option ProbePc :=
  ([HttpGet (checkUrl p)], Some (ProbeGet attempts)).

(** One turn of the probe: the callback of the 2000 ms timer, the
    continuations of [inspect] and [logs], the callbacks of [http.get] and
    of the retry timer. *)
Definition resume_probe (t : ProbeTask) (o : Outcome) : option (list Effect * option ProbePc) :=
  match p_pc t, o with
  | ProbeTimer, TimerFired => Some ([ContainerInspect (p_container t)], Some ProbeInspect)
  | ProbeInspect, Inspected st =>
      if negb (String.eqb st "running")
      then Some ([ContainerLogs (p_container t) 100], Some ProbeLogs)
      else Some (check (p_port t) 0)
  | ProbeLogs, LogsRead => Some ([Console ErrExited], None)
  | ProbeInspect, Rejected _
  | ProbeLogs, Rejected _ => Some ([Console ErrInspect], None)
  | ProbeGet attempts, HttpAnswered statusCode =>
      if statusCode =? 200 then Some ([Console LogResponding], None)
      else Some (retry attempts)
  | ProbeGet attempts, Rejected _ => Some (retry attempts)
  | ProbeRetry attempts, TimerFired => Some (check (p_port t) attempts)
  | _, _ => None
  end.

(** The probe's turn as seen by the event loop: the registry is passed
    through, no response is sent. *)
Definition probe_turn (t : ProbeTask) (o : Outcome) (m : Registry) : option Turn :=
  match resume_probe t o with
  | Some (effs, Some pc) =>
      Some (suspend m effs (TProbe (mkProbe (p_sessionId t) (p_port t) (p_container t) pc)))
  | Some (effs, None) => Some (mkTurn m effs None None None)
  | None => None
  end.

(** ** The event loop *)

(** The process between two turns: the registry, the suspended handlers and
    timers (keyed by the number of the request or timer), the responses sent
    so far and the trace of outside calls. *)
Record World : Type := mkWorld {
  activeSessions : Registry;
  tasks : gmap nat Task;
  next_task : nat;
  responses : list (nat * Response);
  effects : list Effect
}.

(** The process after start-up. *)
Definition boot : World := mkWorld JsMap.empty ∅ 0%nat [] [].

(** What the event loop delivers next. *)
Inductive Event : Type :=
| PostDevServer (body_repoUrl : option string) (uuid : string)
| GetDevServer
| DeleteDevServer (sessionId : string)
| Settle (task : nat) (o : Outcome).

(** The world after the suspended task [id] ran the turn [t]; a timer armed
    in the turn takes the number [fresh]. *)
Definition commit (w : World) (id fresh : nat) (t : Turn) : World :=
  let kept :=
    match t_next t with
    | Some k => <[id := k]> (tasks w)
    | None => base.delete id (tasks w)
    end in
  mkWorld (t_sessions t)
    (match t_spawn t with
     | Some p => <[fresh := TProbe p]> kept
     | None => kept
     end)
    (match t_spawn t with
     | Some _ => S fresh
     | None => fresh
     end)
    (responses w ++ match t_response t with
                    | Some r => [(id, r)]
                    | None => []
                    end)
    (effects w ++ t_effects t).

(** The world after a request arrived and ran its first turn [t]; the
    request takes the next free number. *)
Definition accept (w : World) (t : Turn) : World :=
  mkWorld (t_sessions t)
    (match t_next t with
     | Some k => <[next_task w := k]> (tasks w)
     | None => tasks w
     end)
    (S (next_task w))
    (responses w ++ match t_response t with
                    | Some r => [(next_task w, r)]
                    | None => []
                    end)
    (effects w ++ t_effects t).

(** One turn of the event loop; [None] when the event cannot occur (no
    such suspended task, or a settlement of the wrong kind) and when the
    process exits instead of running the turn (a port probe that ends in
    an uncaught ['error']). *)
Definition step (v : Variant) (w : World) (e : Event) : option World :=
  match e with
  | PostDevServer body_repoUrl uuid =>
      Some (accept w (post_dev_server body_repoUrl uuid (activeSessions w)))
  | GetDevServer => Some (accept w (get_dev_server (activeSessions w)))
  | DeleteDevServer sid => Some (accept w (delete_dev_server sid (activeSessions w)))
  | Settle id o =>
      match tasks w !! id with
      | Some (TCreate t) =>
          match resume_create v t o (activeSessions w) with
          | Some turn => Some (commit w id (next_task w) turn)
          | None => None
          end
      | Some (TDelete t) =>
          match resume_delete t o (activeSessions w) with
          | Some turn => Some (commit w id (next_task w) turn)
          | None => None
          end
      | Some (TProbe t) =>
          match probe_turn t o (activeSessions w) with
          | Some turn => Some (commit w id (next_task w) turn)
          | None => None
          end
      | None => None
      end
  end.

(** The turns of [es], in order. *)
Fixpoint run (v : Variant) (w : World) (es : list Event) : option World :=
  match es with
  | [] => Some w
  | e :: rest =>
      match step v w e with
      | Some w' => run v w' rest
      | None => None
      end
  end.

(** ** What a client can observe *)

(** The answer request [id] received, if it has been answered. *)
Definition response_of (w : World) (id : nat) : option Response :=
  match List.find (fun r => Nat.eqb (fst r) id) (responses w) with
  | Some r => Some (snd r)
  | None => None
  end.

(** What a [GET /api/dev-server] arriving now would list. *)
Definition list_now (w : World) : list Summary := list_sessions (activeSessions w).

(** Whether that list shows the id [sid]. *)
Definition listed (sid : string) (w : World) : bool :=
  existsb (fun s => String.eqb (sum_sessionId s) sid) (list_now w).



(** The worlds the process can be in. *)
Definition reachable (v : Variant) (w : World) : Prop :=
  exists es, run v boot es = Some w.

(** ** GET /api/dev-server/:sessionId/logs *)

(** What the logs route of the later revision answers: [{ logs }] with
    200, or [{ error }] with a status code. *)
Inductive LogsResponse : Type :=
| LogsBody (logs : string)
| LogsError (code : Z) (error : string).

(** How [container.logs(...)] settles.  [text] is the string the handler
    makes of the value: [toString('utf8')] of a Buffer, [String(...)] of
    anything else. *)
Inductive LogsOutcome : Type :=
| LogsResolved (text : string)
| LogsRejected (message : string).

(** The handler up to its [await]: the 404, or the container whose logs it
    asks for. *)
Definition get_logs (sid : string) (m : Registry) : LogsResponse + string :=
  let not_found := LogsError 404 "Session or container not found" in
  match JsMap.get sid m with
  | None => inl not_found
  | Some session =>
      match containerId session with
      | Some c => if truthy c then inr c else inl not_found
      | None => inl not_found
      end
  end.

(** What the handler calls outside the process: [container.logs] with
    its [tail] option ([stdout] and [stderr] are on, [timestamps] off), and
    the [console.error] of its [catch] block. *)
Inductive LogsCall : Type :=
| FetchLogs (container : string) (tail : Z)
| LogsConsoleError.

(** The handler after the [await]. *)
Definition resume_logs (o : LogsOutcome) : LogsResponse * list LogsCall :=
  match o with
  | LogsResolved text => (LogsBody text, [])
  | LogsRejected message =>
      (LogsError 500 (String.append "Failed to fetch logs: " message),
       [LogsConsoleError])
  end.

(** The whole request, [o] being how [container.logs] settles if it is
    called: the response and the calls made. *)
Definition logs_route (sid : string) (m : Registry) (o : LogsOutcome)
    : LogsResponse * list LogsCall :=
  match get_logs sid m with
  | inl r => (r, [])
  | inr c => (fst (resume_logs o), FetchLogs c 200 :: snd (resume_logs o))
  end.

(** * Vocabulary of the statements *)

(** The session object keeps its key, its repository and its port when a
    handler assigns [status] or [containerId]. *)
Definition same_identity (s s' : Session) : Prop :=
  sessionId s' = sessionId s /\ repoUrl s' = repoUrl s /\ port s' = port s
  /\ sessionDir s' = sessionDir s.

(** The four things a turn of the create handler [t] can do to the
    registry: insert its session with the port just probed, assign fields of
    its session, nothing, or delete the key found by the error path. *)
Inductive Change (t : CreateTask) (o : Outcome) (m : Registry) : Registry -> Prop :=
| Inserted h p st dir :
    c_pc t = AwaitPort -> o = PortProbed h ->
    settled (findAvailablePort h 8080) = Fulfilled p ->
    Change t o m
      (JsMap.set (c_sessionId t)
         (mkSession (c_sessionId t) (c_repoUrl t) p st None dir) m)
| Assigned s s' :
    JsMap.get (c_sessionId t) m = Some s -> same_identity s s' ->
    Change t o m (JsMap.set (c_sessionId t) s' m)
| Untouched : Change t o m m
| Cleaned k :
    List.find (unfinished (c_repoUrl t) m) (JsMap.keys m) = Some k ->
    c_pc t <> AwaitPort \/
    (exists h e, o = PortProbed h /\ settled (findAvailablePort h 8080) = RejectedWith e) ->
    Change t o m (JsMap.delete k m).

(** Keys are distinct and every session is stored under its own id. *)
Definition Registry_ok (m : Registry) : Prop :=
  NoDup (JsMap.keys m) /\ forall k s, In (k, s) m -> sessionId s = k.

(** Task numbers at or above [next_task] are free. *)
Definition tasks_bounded (w : World) : Prop :=
  forall i, (next_task w <= i)%nat -> tasks w !! i = None.

(** A promise of [container.stop()] or [fs.rmdir()] settles one way or the
    other. *)
Definition settles (o : Outcome) : Prop := o = Resolved \/ exists e, o = Rejected e.

(** Events of the other handlers: nothing is delivered to task [d]. *)
Definition others (d : nat) (es : list Event) : Prop :=
  forall o, ~ In (Settle d o) es.

(** [uuidv4()] does not return [sid] during [es]. *)
Definition never_issued (sid : string) (es : list Event) : Prop :=
  forall body, ~ In (PostDevServer body sid) es.

(** No create handler that was given the id [sid] is still waiting for its
    port, that is, still has to insert its session. *)
Definition not_awaiting (sid : string) (w : World) : Prop :=
  forall i t, tasks w !! i = Some (TCreate t) -> c_pc t = AwaitPort -> c_sessionId t <> sid.

(** What the proofs about one session id carry along a run. *)
Definition Good (sid : string) (w : World) : Prop :=
  Registry_ok (activeSessions w) /\ tasks_bounded w /\ not_awaiting sid w.

(** The container the delete handler stops: [session.containerId] when it
    is truthy. *)
Definition container_of (s : Session) : option string :=
  match containerId s with
  | Some c => if truthy c then Some c else None
  | None => None
  end.

(** The first outside call of the delete handler. *)
Definition first_call (s : Session) : Effect :=
  match container_of s with
  | Some c => ContainerStop c
  | None => Rmdir (sessionDir s)
  end.

(** The settlement of [container.stop()], awaited only when there is a
    container. *)
Definition stop_settled (d : nat) (s : Session) (o : Outcome) : list Event :=
  match container_of s with
  | Some _ => [Settle d o]
  | None => []
  end.

(** What the handler does once [container.stop()] has settled. *)
Definition calls_after_stop (s : Session) (o : Outcome) : list Effect :=
  match container_of s with
  | Some _ =>
      [Console (match o with Resolved => LogStopped | _ => ErrStopping end);
       Rmdir (sessionDir s)]
  | None => []
  end.



(** The session the create handler inserts once it has its port. *)
Definition new_session (v : Variant) (sid url : string) (p : Z) : Session :=
  match v with
  | HostClone => mkSession sid url p cloning None (Some (path_join REPOS_DIR sid))
  | InContainerClone => mkSession sid url p starting None None
  end.

(** What the turn after a resolved [container.start()] adds to the trace
    and to the timers. *)
Definition armed (v : Variant) (sid : string) (p : Z) (c : string) : option ProbeTask :=
  match v with
  | HostClone => None
  | InContainerClone => Some (mkProbe sid p c ProbeTimer)
  end.

(** The outside calls of that turn. *)
Definition start_calls (v : Variant) : list Effect :=
  match v with
  | HostClone => [Console LogStarted]
  | InContainerClone => [SetTimeout 2000; Console LogStarted]
  end.

(** The probe [t] fed with the settlements [os], one per turn: the calls it
    makes and where it is suspended afterwards ([None]: it has returned).
    Nothing is delivered to a probe that has returned. *)
Fixpoint run_probe (t : ProbeTask) (os : list Outcome)
  : option (list Effect * option ProbePc) :=
  match os with
  | [] => Some ([], Some (p_pc t))
  | o :: rest =>
      match resume_probe t o with
      | Some (effs, Some pc) =>
          match run_probe (mkProbe (p_sessionId t) (p_port t) (p_container t) pc) rest with
          | Some (effs', pc') => Some (effs ++ effs', pc')
          | None => None
          end
      | Some (effs, None) =>
          match rest with
          | [] => Some (effs, None)
          | _ :: _ => None
          end
      | None => None
      end
  end.

(** The settlements the event loop delivers to task [id] along [es]. *)
Definition deliveries (id : nat) (es : list Event) : list Outcome :=
  flat_map (fun e => match e with
                     | Settle i o => if Nat.eqb i id then [o] else []
                     | _ => []
                     end) es.

(** The outside calls made in the turns of task [id] while the event loop
    runs [es] from [w]: what each of its turns adds to the trace. *)
Fixpoint calls_of (v : Variant) (id : nat) (w : World) (es : list Event) : list Effect :=
  match es with
  | [] => []
  | e :: rest =>
      match step v w e with
      | Some w' =>
          match e with
          | Settle i _ =>
              if Nat.eqb i id then drop (List.length (effects w)) (effects w') else []
          | _ => []
          end ++ calls_of v id w' rest
      | None => []
      end
  end.

(** The [http.get] calls. *)
Definition is_get (e : Effect) : bool :=
  match e with
  | HttpGet _ => true
  | _ => false
  end.

(** The number of [http.get] calls in a trace. *)
Definition gets (effs : list Effect) : nat := List.length (List.filter is_get effs).

(** An answer other than 200, or an ['error'] event. *)
Definition is_failure (o : Outcome) : bool :=
  match o with
  | HttpAnswered statusCode => negb (statusCode =? 200)
  | Rejected _ => true
  | _ => false
  end.

(** The settlements of a poll in which each listed request fails and the
    retry timer then fires. *)
Definition polls (fails : list Outcome) : list Outcome :=
  List.flat_map (fun o => [o; TimerFired]) fails.

(** The calls of [n] retries: a 1000 ms timer, then the next request. *)
Definition retries (p : Z) (n : nat) : list Effect :=
  List.concat (List.repeat [SetTimeout 1000; HttpGet (checkUrl p)] n).

(** The requests a probe may still make. *)
Definition budget (pc : ProbePc) : nat :=
  match pc with
  | ProbeTimer | ProbeInspect => maxAttempts
  | ProbeLogs => 0
  | ProbeGet attempts => maxAttempts - S attempts
  | ProbeRetry attempts => maxAttempts - attempts
  end.

(** The retry timer is only ever set with [attempts < maxAttempts]. *)
Definition armed_sanely (pc : ProbePc) : Prop :=
  match pc with
  | ProbeRetry attempts => (attempts < maxAttempts)%nat
  | _ => True
  end.

(** The test of the error path on a session: same repository, not
    [running]. *)
Definition pending (url : string) (s : Session) : bool :=
  String.eqb (repoUrl s) url && negb (Status_eqb (status s) running).

(** The turns of the create handler that run the [catch] block: they end
    with the 500 response or suspended on the cleanup's [fs.rmdir]. *)
Definition in_catch (t : CreateTask) (turn : Turn) : Prop :=
  (forall message, c_pc t <> AwaitCleanup message) /\
  ((exists message, t_response turn = Some (failed message)) \/
   (exists message,
       t_next turn =
         Some (TCreate (mkCreate (c_sessionId t) (c_repoUrl t) (AwaitCleanup message))))).

(** * Sample hosts, registries and runs *)

(** A host on which nothing is bound. *)
Definition idle_host : Host := mkHost [] (inr 49152).

(** A host on which 8080 is taken. *)
Definition busy_host : Host := mkHost [8080] (inr 49152).

(** One session created to the end by [HostClone]. *)
Definition demo_events : list Event :=
  [PostDevServer (Some "https://example.com/demo.git") "s1";
   Settle 0 (PortProbed idle_host);
   Settle 0 Resolved;
   Settle 0 (ContainerCreated "c1");
   Settle 0 Resolved].

(** The world after [demo_events]. *)
Definition demo_world : World := default boot (run HostClone boot demo_events).

(** Its only session. *)
Definition demo_session : Session :=
  mkSession "s1" "https://example.com/demo.git" 8080 running (Some "c1")
    (Some "../repos/s1").


(** A session of [InContainerClone] whose container has been created and
    is being started. *)
Definition starting_events : list Event :=
  [PostDevServer (Some "https://example.com/demo.git") "s1";
   Settle 0 (PortProbed idle_host);
   Settle 0 (ContainerCreated "c1")].

(** The world after [starting_events]. *)
Definition starting_world : World :=
  default boot (run InContainerClone boot starting_events).

(** A registry with a finished session and two unfinished ones, all for one
    repository. *)
Definition crowded : Registry :=
  [("s0", mkSession "s0" "https://example.com/demo.git" 8080 running (Some "c0") None);
   ("s1", mkSession "s1" "https://example.com/demo.git" 49152 starting None None);
   ("s2", mkSession "s2" "https://example.com/demo.git" 49153 starting None None)].

(** Two requests for one repository in flight together; the container of
    the second fails to start while the first still waits for
    [docker.createContainer]. *)
Definition rollback_events : list Event :=
  [PostDevServer (Some "https://example.com/demo.git") "s1";
   Settle 0 (PortProbed idle_host);
   PostDevServer (Some "https://example.com/demo.git") "s2";
   Settle 1 (PortProbed idle_host);
   Settle 1 (ContainerCreated "c2");
   Settle 1 (Rejected "container start failed");
   Settle 1 (Rejected "ENOENT")].

(** The same overlap in [HostClone]: the clone of the second request fails
    while the first is still cloning. *)
Definition rollback_events_host : list Event :=
  [PostDevServer (Some "https://example.com/demo.git") "s1";
   Settle 0 (PortProbed idle_host);
   PostDevServer (Some "https://example.com/demo.git") "s2";
   Settle 1 (PortProbed idle_host);
   Settle 1 (Rejected "clone failed");
   Settle 1 Resolved].

(** * Vocabulary of the further properties *)

(** The responses sent so far: distinct request numbers, all finished. *)
Definition answered_once (w : World) : Prop :=
  NoDup (List.map fst (responses w)) /\
  forall id r, In (id, r) (responses w) ->
    tasks w !! id = None /\ (id < next_task w)%nat.

(** The awaits the create handler can still meet before it answers. *)
Definition turns_left (pc : CreatePc) : nat :=
  match pc with
  | AwaitPort => 5
  | AwaitClone _ => 4
  | AwaitCreateContainer _ => 3
  | AwaitStart _ _ => 2
  | AwaitCleanup _ => 1
  end.


(** The [container.stop()] calls. *)
Definition is_stop (e : Effect) : bool :=
  match e with
  | ContainerStop _ => true
  | _ => false
  end.

(** No delete handler is suspended. *)
Definition no_delete_pending (w : World) : Prop :=
  forall i t, tasks w !! i <> Some (TDelete t).

(** The events of one create request whose promises all resolve: the port
    probe on the host [h], the clone ([HostClone] only), the container [c]
    created, the start. *)
Definition create_alone (v : Variant) (id : nat) (url uuid : string) (h : Host)
    (c : string) : list Event :=
  [PostDevServer (Some url) uuid; Settle id (PortProbed h)] ++
  match v with
  | HostClone => [Settle id Resolved]
  | InContainerClone => []
  end ++
  [Settle id (ContainerCreated c); Settle id Resolved].

(** Where the create handler waits once it has its port. *)
Definition after_port (v : Variant) (p : Z) : CreatePc :=
  match v with
  | HostClone => AwaitClone p
  | InContainerClone => AwaitCreateContainer p
  end.

(** What it calls in that turn, after the port probe. *)
Definition port_calls (v : Variant) (sid url : string) (p : Z) : list Effect :=
  match v with
  | HostClone => [Console LogCloning; GitClone url (path_join REPOS_DIR sid)]
  | InContainerClone =>
      [Console LogCreating; Console LogConfig;
       CreateContainer (containerConfig v sid url p)]
  end.

(** The calls that create and start containers. *)
Definition is_docker_run (e : Effect) : bool :=
  match e with
  | CreateContainer _ | ContainerStart _ => true
  | _ => false
  end.

(** The ids [uuidv4()] returned along [es]: one for each create request
    that passed the validation. *)
Fixpoint issued (es : list Event) : list string :=
  match es with
  | [] => []
  | PostDevServer (Some url) uuid :: rest =>
      if truthy url then uuid :: issued rest else issued rest
  | _ :: rest => issued rest
  end.

(** The worlds reached when [uuidv4()] never returns an id twice. *)
Definition reachable_fresh (v : Variant) (w : World) : Prop :=
  exists es, NoDup (issued es) /\ run v boot es = Some w.

(** A session as the handlers leave it: it has a container id exactly when
    it is [running], and its directory is the one of its revision. *)
Definition shaped (v : Variant) (s : Session) : Prop :=
  (status s = running <-> containerId s <> None) /\
  sessionDir s =
    match v with
    | HostClone => Some (path_join REPOS_DIR (sessionId s))
    | InContainerClone => None
    end /\
  (v = InContainerClone -> status s <> cloning).

(** The session of a suspended create handler, while it is in the
    registry, is where the handler left it. *)
Definition follows (t : CreateTask) (s : Session) : Prop :=
  repoUrl s = c_repoUrl t /\ containerId s = None /\
  match c_pc t with
  | AwaitPort => False
  | AwaitClone p => status s = cloning /\ port s = p
  | AwaitCreateContainer p | AwaitStart p _ => status s = starting /\ port s = p
  | AwaitCleanup _ => status s <> running
  end.

(** The invariant: ids come from [used]; no two suspended create handlers
    share an id; each handler's session is where the handler left it. *)
Definition Owned (v : Variant) (used : list string) (w : World) : Prop :=
  Registry_ok (activeSessions w) /\
  tasks_bounded w /\
  (forall k, In k (JsMap.keys (activeSessions w)) -> In k used) /\
  (forall i t, tasks w !! i = Some (TCreate t) -> In (c_sessionId t) used) /\
  (forall i j t t',
      tasks w !! i = Some (TCreate t) -> tasks w !! j = Some (TCreate t') ->
      c_sessionId t = c_sessionId t' -> i = j) /\
  (forall i t s,
      tasks w !! i = Some (TCreate t) ->
      JsMap.get (c_sessionId t) (activeSessions w) = Some s -> follows t s) /\
  (forall k s, JsMap.get k (activeSessions w) = Some s -> shaped v s).

(** The five kinds of turn of the create handler. *)
Inductive CreateStep (v : Variant) (t : CreateTask) (m : Registry) (turn : Turn) : Prop :=
| StepInsert h p :
    c_pc t = AwaitPort -> settled (findAvailablePort h 8080) = Fulfilled p ->
    t_sessions turn =
      JsMap.set (c_sessionId t) (new_session v (c_sessionId t) (c_repoUrl t) p) m ->
    t_next turn =
      Some (TCreate (mkCreate (c_sessionId t) (c_repoUrl t) (after_port v p))) ->
    CreateStep v t m turn
| StepStarting p s :
    c_pc t = AwaitClone p -> JsMap.get (c_sessionId t) m = Some s ->
    t_sessions turn = JsMap.set (c_sessionId t) (with_status starting s) m ->
    t_next turn =
      Some (TCreate (mkCreate (c_sessionId t) (c_repoUrl t) (AwaitCreateContainer p))) ->
    CreateStep v t m turn
| StepRunning p c s :
    c_pc t = AwaitStart p c -> JsMap.get (c_sessionId t) m = Some s ->
    t_sessions turn =
      JsMap.set (c_sessionId t) (with_status running (with_container c s)) m ->
    t_next turn = None ->
    CreateStep v t m turn
| StepCreated p c :
    c_pc t = AwaitCreateContainer p -> t_sessions turn = m ->
    t_next turn =
      Some (TCreate (mkCreate (c_sessionId t) (c_repoUrl t) (AwaitStart p c))) ->
    CreateStep v t m turn
| StepCaught message :
    t_sessions turn = m \/ (exists k, t_sessions turn = JsMap.delete k m) ->
    t_next turn = None \/
    t_next turn =
      Some (TCreate (mkCreate (c_sessionId t) (c_repoUrl t) (AwaitCleanup message))) ->
    CreateStep v t m turn.

(** The order of the life cycle: [cloning], [starting], [running]. *)
Definition rank (st : Status) : nat :=
  match st with
  | cloning => 0
  | starting => 1
  | running => 2
  end.

(** [s'] is [s] later in its life: same id, repository, port and
    directory; a status that is not earlier; the container id, once set,
    kept. *)
Definition advanced (s s' : Session) : Prop :=
  same_identity s s' /\
  (rank (status s) <= rank (status s'))%nat /\
  (forall c, containerId s = Some c -> containerId s' = Some c).

(** The first arguments of the [fs.rmdir] calls of a trace. *)
Definition rmdirs (effs : list Effect) : list (option string) :=
  flat_map (fun e => match e with Rmdir d => [d] | _ => [] end) effs.

(** The directory of the session [k]: [path.join(REPOS_DIR, sessionId)] in
    the first revision, no [sessionDir] property in the later one. *)
Definition session_dir (v : Variant) (k : string) : option string :=
  match v with
  | HostClone => Some (path_join REPOS_DIR k)
  | InContainerClone => None
  end.

(** A first argument of [fs.rmdir] the handlers may pass: the directory
    of an id of [used], or [undefined] in the later revision. *)
Definition target_ok (v : Variant) (used : list string) (d : option string) : Prop :=
  match d with
  | Some p => exists sid, In sid used /\ p = path_join REPOS_DIR sid
  | None => v = InContainerClone
  end.

(** What a turn leaves: sessions, next task and calls with known
    directories. *)
Definition TurnDirs (v : Variant) (used : list string) (turn : Turn) : Prop :=
  (forall k s, JsMap.get k (t_sessions turn) = Some s ->
               In k used /\ sessionDir s = session_dir v k) /\
  (forall t, t_next turn = Some (TCreate t) -> In (c_sessionId t) used) /\
  (forall t, t_next turn = Some (TDelete t) -> target_ok v used (d_sessionDir t)) /\
  (forall d, In d (rmdirs (t_effects turn)) -> target_ok v used d).

(** The same of a world. *)
Definition Dirs (v : Variant) (used : list string) (w : World) : Prop :=
  (forall k s, JsMap.get k (activeSessions w) = Some s ->
               In k used /\ sessionDir s = session_dir v k) /\
  (forall i t, tasks w !! i = Some (TCreate t) -> In (c_sessionId t) used) /\
  (forall i t, tasks w !! i = Some (TDelete t) -> target_ok v used (d_sessionDir t)) /\
  (forall d, In d (rmdirs (effects w)) -> target_ok v used d).

(** The container ids [docker.createContainer] resolved to along [es]. *)
Definition created (es : list Event) : list string :=
  flat_map (fun e => match e with
                     | Settle _ (ContainerCreated c) => [c]
                     | _ => []
                     end) es.

(** The containers a trace starts, stops, inspects or reads the logs of. *)
Definition container_calls (effs : list Effect) : list string :=
  flat_map (fun e => match e with
                     | ContainerStart c | ContainerStop c
                     | ContainerInspect c | ContainerLogs c _ => [c]
                     | _ => []
                     end) effs.

(** Every container id a turn leaves behind, in the registry, in a
    suspended handler, in a timer or in a call, is one of [known]. *)
Definition TurnHandles (known : list string) (turn : Turn) : Prop :=
  (forall k s c, JsMap.get k (t_sessions turn) = Some s ->
                 containerId s = Some c -> In c known) /\
  (forall t p c, t_next turn = Some (TCreate t) -> c_pc t = AwaitStart p c ->
                 In c known) /\
  (forall t, t_next turn = Some (TProbe t) -> In (p_container t) known) /\
  (forall t, t_spawn turn = Some t -> In (p_container t) known) /\
  (forall c, In c (container_calls (t_effects turn)) -> In c known).

(** The same of a world. *)
Definition Handles (known : list string) (w : World) : Prop :=
  (forall k s c, JsMap.get k (activeSessions w) = Some s ->
                 containerId s = Some c -> In c known) /\
  (forall i t p c, tasks w !! i = Some (TCreate t) -> c_pc t = AwaitStart p c ->
                   In c known) /\
  (forall i t, tasks w !! i = Some (TProbe t) -> In (p_container t) known) /\
  (forall c, In c (container_calls (effects w)) -> In c known).

(** * Properties *)

(** ** The map operations *)

Module JsMapFacts.
Import JsMap.

Section Facts.
Context {V : Type}.
Implicit Types (m : t V) (k : string) (v : V).

Lemma get_set_eq k v m : get k (set k v m) = Some v.
Proof.
  induction m as [|[k' v'] m IH]; simpl.
  - now rewrite String.eqb_refl.
  - destruct (String.eqb k k') eqn:E; simpl; rewrite ?E, ?String.eqb_refl; auto.
Qed.

Lemma get_set_ne k k' v m : k <> k' -> get k' (set k v m) = get k' m.
Proof.
  intros Hne. induction m as [|[k0 v0] m IH]; simpl.
  - destruct (String.eqb k' k) eqn:E; auto.
    apply String.eqb_eq in E. congruence.
  - destruct (String.eqb k k0) eqn:E; simpl.
    + apply String.eqb_eq in E. subst k0.
      destruct (String.eqb k' k) eqn:E'; auto.
      apply String.eqb_eq in E'. congruence.
    + now rewrite IH.
Qed.

Lemma get_delete_eq k m : get k (delete k m) = None.
Proof.
  unfold delete. induction m as [|[k' v'] m IH]; simpl; auto.
  destruct (String.eqb k k') eqn:E; simpl; auto. now rewrite E.
Qed.

Lemma get_delete_ne k k' m : k <> k' -> get k' (delete k m) = get k' m.
Proof.
  intros Hne. unfold delete. induction m as [|[k0 v0] m IH]; simpl; auto.
  destruct (String.eqb k k0) eqn:E; simpl.
  - apply String.eqb_eq in E. subst k0.
    destruct (String.eqb k' k) eqn:E'; auto.
    apply String.eqb_eq in E'. congruence.
  - now rewrite IH.
Qed.

Lemma get_None_keys k m : get k m = None <-> ~ In k (keys m).
Proof.
  induction m as [|[k' v'] m IH]; simpl.
  - tauto.
  - destruct (String.eqb k k') eqn:E.
    + apply String.eqb_eq in E. subst. split; [discriminate | tauto].
    + apply String.eqb_neq in E. rewrite IH. intuition congruence.
Qed.

Lemma get_Some_In k v m : get k m = Some v -> In (k, v) m.
Proof.
  induction m as [|[k' v'] m IH]; simpl; [discriminate|].
  destruct (String.eqb k k') eqn:E.
  - apply String.eqb_eq in E. intros [= ->]. subst. now left.
  - auto.
Qed.

Lemma In_get k v m : NoDup (keys m) -> In (k, v) m -> get k m = Some v.
Proof.
  induction m as [|[k' v'] m IH]; simpl; [tauto|].
  intros Hnd [Heq|Hin].
  - injection Heq as -> ->. now rewrite String.eqb_refl.
  - inversion Hnd as [|? ? Hk Hm]; subst.
    destruct (String.eqb k k') eqn:E; auto.
    apply String.eqb_eq in E. subst k'.
    exfalso. apply Hk. apply list_elem_of_In, in_map_iff. now exists (k, v).
Qed.

(** [set] on an absent key appends: insertion order. *)
Lemma set_fresh k v m : get k m = None -> set k v m = m ++ [(k, v)].
Proof.
  induction m as [|[k' v'] m IH]; simpl; auto.
  destruct (String.eqb k k'); [discriminate|].
  intros H. now rewrite IH.
Qed.

Lemma keys_set_present k v v0 m : get k m = Some v0 -> keys (set k v m) = keys m.
Proof.
  unfold keys. induction m as [|[k' v'] m IH]; simpl; [discriminate|].
  destruct (String.eqb k k') eqn:E; simpl.
  - apply String.eqb_eq in E. now subst.
  - intros H. now rewrite IH.
Qed.

Lemma keys_set_NoDup k v m : NoDup (keys m) -> NoDup (keys (set k v m)).
Proof.
  intros Hnd. destruct (get k m) eqn:E.
  - now rewrite (keys_set_present _ _ _ _ E).
  - rewrite (set_fresh _ _ _ E). unfold keys. rewrite List.map_app. simpl.
    apply NoDup_app. split; [exact Hnd|]. split.
    + intros x Hx Hx'. apply list_elem_of_In in Hx, Hx'.
      destruct Hx' as [<-|[]]. now apply get_None_keys in E.
    + apply NoDup_cons. split; [intros H%list_elem_of_In; destruct H | constructor].
Qed.

Lemma keys_delete_NoDup k m : NoDup (keys m) -> NoDup (keys (delete k m)).
Proof.
  unfold keys, delete. induction m as [|[k' v'] m IH]; simpl; auto.
  intros Hnd. inversion Hnd as [|? ? Hk Hm]; subst.
  destruct (String.eqb k k'); simpl; auto.
  constructor; auto.
  intros Hin. apply Hk. apply list_elem_of_In in Hin. apply list_elem_of_In.
  apply in_map_iff in Hin as [[k0 v0] [<- Hin]].
  apply filter_In in Hin as [Hin _]. apply in_map_iff. now exists (k0, v0).
Qed.

End Facts.
End JsMapFacts.

(** ** How a turn changes the registry *)

(** The probe calls [server.listen] once. *)
Lemma findAvailablePort_listens (h : Host) (startPort : Z) :
  listens (findAvailablePort h startPort) = [startPort].
Proof. unfold findAvailablePort. now destruct (listen h startPort). Qed.

Lemma catch_create_sessions t message m :
  t_sessions (catch_create t message m) = m \/
  exists k, List.find (unfinished (c_repoUrl t) m) (JsMap.keys m) = Some k /\
            t_sessions (catch_create t message m) = JsMap.delete k m.
Proof.
  unfold catch_create. destruct (truthy (c_repoUrl t)); [|now left].
  destruct (List.find _ _) as [k|] eqn:E; [|now left].
  destruct (truthy k); [right; now exists k | now left].
Qed.

Lemma resume_create_change v t o m turn :
  resume_create v t o m = Some turn -> Change t o m (t_sessions turn).
Proof.
  assert (Hcatch : forall message,
             c_pc t <> AwaitPort \/
             (exists h e, o = PortProbed h /\
                          settled (findAvailablePort h 8080) = RejectedWith e) ->
             Change t o m (t_sessions (catch_create t message m))).
  { intros message Hpc.
    destruct (catch_create_sessions t message m) as [->|(k & Hk & ->)];
      [apply Untouched | now apply Cleaned]. }
  destruct t as [sid url pc]. unfold resume_create.
  cbn [c_pc c_sessionId c_repoUrl] in *.
  destruct pc, o; try discriminate; intros H.
  - destruct (settled (findAvailablePort h 8080)) as [p|e|e] eqn:E; [| |discriminate].
    + destruct v; injection H as <-; cbn [t_sessions suspend respond after];
        eapply (Inserted (mkCreate sid url AwaitPort) _ m h p); eauto.
    + injection H as <-; cbn [t_sessions suspend respond after]. apply Hcatch. right. eauto.
  - destruct (JsMap.get sid m) as [s|] eqn:E; injection H as <-;
      cbn [t_sessions suspend respond after].
    + eapply (Assigned (mkCreate sid url _) _ m s); eauto. now repeat split.
    + apply Hcatch. now left.
  - injection H as <-; cbn [t_sessions suspend respond after]. apply Hcatch. now left.
  - injection H as <-; cbn [t_sessions suspend respond after]. apply Untouched.
  - injection H as <-; cbn [t_sessions suspend respond after]. apply Hcatch. now left.
  - destruct (JsMap.get sid m) as [s|] eqn:E; injection H as <-;
      cbn [t_sessions suspend respond after].
    + eapply (Assigned (mkCreate sid url _) _ m s); eauto. now repeat split.
    + apply Hcatch. now left.
  - injection H as <-; cbn [t_sessions suspend respond after]. apply Hcatch. now left.
  - injection H as <-; cbn [t_sessions suspend respond after]. apply Untouched.
  - injection H as <-; cbn [t_sessions suspend respond after]. apply Untouched.
Qed.

Lemma resume_delete_sessions t o m turn :
  resume_delete t o m = Some turn ->
  t_sessions turn = m \/ t_sessions turn = JsMap.delete (d_sessionId t) m.
Proof.
  unfold resume_delete. destruct (d_pc t), o; try discriminate;
    intros [= <-]; simpl; auto.
Qed.

Lemma probe_turn_frame t o m turn :
  probe_turn t o m = Some turn ->
  t_sessions turn = m /\ t_response turn = None /\ t_spawn turn = None.
Proof.
  unfold probe_turn. destruct (resume_probe t o) as [[effs [pc|]]|];
    try discriminate; intros [= <-]; simpl; auto.
Qed.

Lemma arrival_sessions body uuid sid m :
  t_sessions (post_dev_server body uuid m) = m /\
  t_sessions (get_dev_server m) = m /\
  t_sessions (delete_dev_server sid m) = m.
Proof.
  unfold post_dev_server, get_dev_server, delete_dev_server. repeat split.
  - destruct body as [url|]; [destruct (truthy url)|]; reflexivity.
  - destruct (JsMap.get sid m) as [s|]; [|reflexivity].
    destruct (containerId s) as [c|]; [destruct (truthy c)|]; reflexivity.
Qed.

(** Every step of the event loop changes the registry in one of these ways. *)
Lemma step_sessions v w e w' :
  step v w e = Some w' ->
  activeSessions w' = activeSessions w
  \/ (exists id t o, e = Settle id o /\ tasks w !! id = Some (TCreate t) /\
                     Change t o (activeSessions w) (activeSessions w'))
  \/ (exists k, activeSessions w' = JsMap.delete k (activeSessions w)).
Proof.
  destruct e as [body uuid| |sid|id o]; simpl.
  - intros [= <-]. left. apply (arrival_sessions body uuid EmptyString).
  - intros [= <-]. now left.
  - intros [= <-]. left. apply (arrival_sessions None EmptyString sid).
  - destruct (tasks w !! id) as [[t|t|t]|] eqn:Ht; try discriminate.
    + destruct (resume_create v t o _) as [turn|] eqn:E; [|discriminate].
      intros [= <-]. right. left. exists id, t, o. repeat split; auto.
      now apply (resume_create_change v).
    + destruct (resume_delete t o _) as [turn|] eqn:E; [|discriminate].
      intros [= <-]. simpl.
      destruct (resume_delete_sessions _ _ _ _ E) as [->| ->]; eauto.
    + destruct (probe_turn t o _) as [turn|] eqn:E; [|discriminate].
      intros [= <-]. left. simpl. now apply probe_turn_frame in E.
Qed.

(** The detached probe changes neither the registry nor any response. *)
Lemma probe_step_frame v w id t o w' :
  tasks w !! id = Some (TProbe t) ->
  step v w (Settle id o) = Some w' ->
  activeSessions w' = activeSessions w /\ responses w' = responses w.
Proof.
  intros Ht. simpl. rewrite Ht.
  destruct (probe_turn t o _) as [turn|] eqn:E; [|discriminate].
  intros [= <-]. apply probe_turn_frame in E as (Hs & Hr & _).
  unfold commit; simpl. rewrite Hs, Hr. now rewrite app_nil_r.
Qed.

(** ** Invariants of the reachable worlds *)

Lemma In_set (k : string) (s : Session) m k' s' :
  In (k', s') (JsMap.set k s m) -> (k', s') = (k, s) \/ In (k', s') m.
Proof.
  induction m as [|[k0 s0] m IH]; simpl.
  - intros [H|[]]; auto.
  - destruct (String.eqb k k0); simpl; intros [H|H]; auto.
    destruct (IH H); auto.
Qed.

Lemma In_delete (k : string) (m : Registry) k' s' :
  In (k', s') (JsMap.delete k m) -> In (k', s') m.
Proof. unfold JsMap.delete. intros H. now apply filter_In in H. Qed.

Lemma Registry_ok_set k s m :
  sessionId s = k -> Registry_ok m -> Registry_ok (JsMap.set k s m).
Proof.
  intros Hk [Hnd Hco]. split.
  - now apply JsMapFacts.keys_set_NoDup.
  - intros k' s' Hin. apply In_set in Hin as [[= -> ->]|Hin]; auto.
Qed.

Lemma Registry_ok_delete k m : Registry_ok m -> Registry_ok (JsMap.delete k m).
Proof.
  intros [Hnd Hco]. split.
  - now apply JsMapFacts.keys_delete_NoDup.
  - intros k' s' Hin. apply In_delete in Hin. auto.
Qed.

Lemma Change_ok t o m m' : Change t o m m' -> Registry_ok m -> Registry_ok m'.
Proof.
  intros [h p st dir _ _ _|s s' Hget (Hid & _)| |k _ _] Hok.
  - now apply Registry_ok_set.
  - apply Registry_ok_set; auto. rewrite Hid.
    apply (proj2 Hok). now apply JsMapFacts.get_Some_In.
  - exact Hok.
  - now apply Registry_ok_delete.
Qed.

Lemma step_Registry_ok v w e w' :
  step v w e = Some w' -> Registry_ok (activeSessions w) -> Registry_ok (activeSessions w').
Proof.
  intros Hstep Hok.
  destruct (step_sessions _ _ _ _ Hstep) as [-> | [(id & t & o & _ & _ & Hch) | (k & ->)]]; auto.
  - eapply Change_ok; eauto.
  - now apply Registry_ok_delete.
Qed.

Lemma commit_bounded w id t :
  tasks_bounded w -> (id < next_task w)%nat -> tasks_bounded (commit w id (next_task w) t).
Proof.
  intros Hb Hid i. unfold commit; simpl.
  destruct (t_spawn t); simpl; intros Hi.
  - rewrite lookup_insert_ne by lia.
    destruct (t_next t).
    + rewrite lookup_insert_ne by lia. apply Hb. lia.
    + rewrite lookup_delete_ne by lia. apply Hb. lia.
  - destruct (t_next t).
    + rewrite lookup_insert_ne by lia. now apply Hb.
    + rewrite lookup_delete_ne by lia. now apply Hb.
Qed.

Lemma accept_bounded w t : tasks_bounded w -> tasks_bounded (accept w t).
Proof.
  intros Hb i. unfold accept; simpl. intros Hi.
  destruct (t_next t).
  - rewrite lookup_insert_ne by lia. apply Hb. lia.
  - apply Hb. lia.
Qed.

Lemma task_below w id k : tasks_bounded w -> tasks w !! id = Some k -> (id < next_task w)%nat.
Proof.
  intros Hb Hk. destruct (Nat.lt_ge_cases id (next_task w)) as [|Hge]; auto.
  rewrite (Hb _ Hge) in Hk. discriminate.
Qed.

Lemma step_bounded v w e w' : step v w e = Some w' -> tasks_bounded w -> tasks_bounded w'.
Proof.
  intros Hstep Hb. destruct e as [body uuid| |sid|id o]; simpl in Hstep.
  - injection Hstep as <-. now apply accept_bounded.
  - injection Hstep as <-. now apply accept_bounded.
  - injection Hstep as <-. now apply accept_bounded.
  - destruct (tasks w !! id) as [k|] eqn:Hk; [|discriminate].
    pose proof (task_below _ _ _ Hb Hk) as Hlt.
    destruct k as [t|t|t];
      [destruct (resume_create v t o _) | destruct (resume_delete t o _)
       | destruct (probe_turn t o _)];
      try discriminate; injection Hstep as <-; now apply commit_bounded.
Qed.

(** Both invariants hold in every world the event loop can reach. *)
Lemma run_invariant v w es w' :
  run v w es = Some w' ->
  Registry_ok (activeSessions w) /\ tasks_bounded w ->
  Registry_ok (activeSessions w') /\ tasks_bounded w'.
Proof.
  revert w. induction es as [|e es IH]; simpl; intros w.
  - now intros [= <-].
  - destruct (step v w e) as [w1|] eqn:E; [|discriminate].
    intros Hrun [Hok Hb]. apply (IH _ Hrun). split.
    + eapply step_Registry_ok; eauto.
    + eapply step_bounded; eauto.
Qed.

Lemma reachable_invariant v w :
  reachable v w -> Registry_ok (activeSessions w) /\ tasks_bounded w.
Proof.
  intros [es Hrun]. apply (run_invariant _ _ _ _ Hrun). split.
  - split; [constructor | intros k s []].
  - intros i _. apply lookup_empty.
Qed.

(** ** Suspended handlers and absent ids along a run *)

Lemma commit_lookup_ne w id t d :
  tasks_bounded w -> (d < next_task w)%nat -> d <> id ->
  tasks (commit w id (next_task w) t) !! d = tasks w !! d.
Proof.
  intros Hb Hd Hne. unfold commit; simpl.
  destruct (t_spawn t); [rewrite lookup_insert_ne by lia|];
    (destruct (t_next t); [now rewrite lookup_insert_ne | now rewrite lookup_delete_ne]).
Qed.

Lemma accept_lookup_ne w t d :
  (d < next_task w)%nat -> tasks (accept w t) !! d = tasks w !! d.
Proof.
  intros Hd. unfold accept; simpl.
  destruct (t_next t); [rewrite lookup_insert_ne by lia|]; reflexivity.
Qed.

Lemma step_keeps_task v w e w' d k :
  tasks_bounded w -> tasks w !! d = Some k -> (forall o, e <> Settle d o) ->
  step v w e = Some w' -> tasks w' !! d = Some k.
Proof.
  intros Hb Hk Hne Hstep. pose proof (task_below _ _ _ Hb Hk) as Hlt.
  destruct e as [body uuid| |sid|id o]; simpl in Hstep.
  - injection Hstep as <-. now rewrite accept_lookup_ne.
  - injection Hstep as <-. now rewrite accept_lookup_ne.
  - injection Hstep as <-. now rewrite accept_lookup_ne.
  - assert (d <> id) by (intros ->; now apply (Hne o)).
    destruct (tasks w !! id) as [[t|t|t]|]; try discriminate;
      [destruct (resume_create v t o _) | destruct (resume_delete t o _)
       | destruct (probe_turn t o _)];
      try discriminate; injection Hstep as <-; now rewrite commit_lookup_ne.
Qed.

(** A suspended handler stays where it is while the others run. *)
Lemma run_keeps_task v es : forall w w' d k,
  tasks_bounded w -> tasks w !! d = Some k -> others d es ->
  run v w es = Some w' -> tasks w' !! d = Some k.
Proof.
  induction es as [|e es IH]; simpl; intros w w' d k Hb Hk Hoth.
  - now intros [= <-].
  - destruct (step v w e) as [w1|] eqn:E; [|discriminate]. intros Hrun.
    apply (IH w1 w' d k); auto.
    + eapply step_bounded; eauto.
    + eapply step_keeps_task; eauto. intros o ->. apply (Hoth o). now left.
    + intros o Hin. apply (Hoth o). now right.
Qed.

Lemma catch_create_next t message m k :
  t_next (catch_create t message m) = Some k ->
  k = TCreate (mkCreate (c_sessionId t) (c_repoUrl t) (AwaitCleanup message)).
Proof.
  unfold catch_create. destruct (truthy (c_repoUrl t)); [|discriminate].
  destruct (List.find _ _) as [x|]; [|discriminate].
  destruct (truthy x); [|discriminate]. now intros [= <-].
Qed.

(** After its first turn the create handler never waits for a port again. *)
Lemma resume_create_next v t o m turn t' :
  resume_create v t o m = Some turn -> t_next turn = Some (TCreate t') ->
  c_pc t' <> AwaitPort.
Proof.
  destruct t as [sid url pc]. unfold resume_create.
  cbn [c_pc c_sessionId c_repoUrl].
  destruct pc, o; try discriminate; intros H;
    repeat match type of H with
      | context [match ?x with _ => _ end] => destruct x
      end;
    try discriminate;
    injection H as <-; cbn [t_next suspend respond after]; intros Hn;
    try discriminate;
    try (apply catch_create_next in Hn);
    injection Hn as Hn; subst t'; discriminate.
Qed.

Lemma step_awaiting v w e w' i t' :
  tasks_bounded w -> step v w e = Some w' ->
  tasks w' !! i = Some (TCreate t') -> c_pc t' = AwaitPort ->
  tasks w !! i = Some (TCreate t') \/ exists body, e = PostDevServer body (c_sessionId t').
Proof.
  intros Hb Hstep Hi Hpc.
  destruct e as [body uuid| |sid|id o]; simpl in Hstep.
  - injection Hstep as <-. unfold accept, post_dev_server in Hi. simpl in Hi.
    destruct body as [url|]; [destruct (truthy url)|]; simpl in Hi; auto.
    destruct (decide (next_task w = i)) as [<-|Hne].
    + rewrite lookup_insert_eq in Hi. injection Hi as <-. right. now exists (Some url).
    + rewrite lookup_insert_ne in Hi by auto. now left.
  - injection Hstep as <-. now left.
  - injection Hstep as <-. unfold accept, delete_dev_server in Hi. simpl in Hi.
    destruct (JsMap.get sid _) as [s|]; simpl in Hi; auto.
    assert (Hins : forall pc, <[next_task w := TDelete (mkDelete sid (sessionDir s) pc)]> (tasks w) !! i
                              = Some (TCreate t') -> tasks w !! i = Some (TCreate t')).
    { intros pc. destruct (decide (next_task w = i)) as [<-|Hne].
      - rewrite lookup_insert_eq. discriminate.
      - now rewrite lookup_insert_ne by auto. }
    destruct (containerId s) as [c|]; [destruct (truthy c)|]; simpl in Hi;
      left; eapply Hins; eauto.
  - left. destruct (tasks w !! id) as [k|] eqn:Hk; [|discriminate].
    pose proof (task_below _ _ _ Hb Hk) as Hlt.
    assert (Hgen : forall turn,
               (forall t'', t_next turn = Some (TCreate t'') -> c_pc t'' <> AwaitPort) ->
               tasks (commit w id (next_task w) turn) !! i = Some (TCreate t') ->
               tasks w !! i = Some (TCreate t')).
    { intros turn Hnext. unfold commit; simpl. intros Hl.
      assert (Hkept : match t_next turn with
                      | Some k0 => <[id:=k0]> (tasks w)
                      | None => base.delete id (tasks w)
                      end !! i = Some (TCreate t')).
      { destruct (t_spawn turn); auto.
        destruct (decide (next_task w = i)) as [<-|Hne].
        - rewrite lookup_insert_eq in Hl. discriminate.
        - now rewrite lookup_insert_ne in Hl by auto. }
      destruct (t_next turn) as [k0|] eqn:En.
      - destruct (decide (id = i)) as [<-|Hne].
        + rewrite lookup_insert_eq in Hkept. injection Hkept as ->.
          exfalso. now apply (Hnext t').
        + now rewrite lookup_insert_ne in Hkept by auto.
      - destruct (decide (id = i)) as [<-|Hne].
        + rewrite lookup_delete_eq in Hkept. discriminate.
        + now rewrite lookup_delete_ne in Hkept by auto. }
    destruct k as [t|t|t].
    + destruct (resume_create v t o _) as [turn|] eqn:E; [|discriminate].
      injection Hstep as <-. apply (Hgen turn); auto.
      intros t'' Hn. eapply resume_create_next; eauto.
    + destruct (resume_delete t o _) as [turn|] eqn:E; [|discriminate].
      injection Hstep as <-. apply (Hgen turn); auto.
      intros t'' Hn. unfold resume_delete in E.
      destruct (d_pc t), o; try discriminate; injection E as <-; discriminate.
    + destruct (probe_turn t o _) as [turn|] eqn:E; [|discriminate].
      injection Hstep as <-. apply (Hgen turn); auto.
      intros t'' Hn. unfold probe_turn in E.
      destruct (resume_probe t o) as [[effs [pc|]]|]; try discriminate;
        injection E as <-; discriminate.
Qed.

Lemma get_delete_None (k sid : string) (m : Registry) :
  JsMap.get sid m = None -> JsMap.get sid (JsMap.delete k m) = None.
Proof.
  intros H. destruct (String.eqb k sid) eqn:E.
  - apply String.eqb_eq in E. subst. apply JsMapFacts.get_delete_eq.
  - apply String.eqb_neq in E. now rewrite JsMapFacts.get_delete_ne.
Qed.

(** An id that is not in the registry stays out of it unless a create
    handler that was given this very id inserts it. *)
Lemma step_absent v w e w' sid :
  tasks_bounded w ->
  JsMap.get sid (activeSessions w) = None -> not_awaiting sid w ->
  (forall body, e <> PostDevServer body sid) ->
  step v w e = Some w' ->
  JsMap.get sid (activeSessions w') = None /\ not_awaiting sid w'.
Proof.
  intros Hb Hget Hna Hne Hstep. split.
  - destruct (step_sessions _ _ _ _ Hstep)
      as [-> | [(id & t & o & _ & Ht & Hch) | (k & ->)]]; auto.
    + destruct Hch as [h p st dir Hpc _ _|s s' Hs _| |k _ _]; auto.
      * rewrite JsMapFacts.get_set_ne; auto. eapply Hna; eauto.
      * rewrite JsMapFacts.get_set_ne; auto. intros Heq. congruence.
      * now apply get_delete_None.
    + now apply get_delete_None.
  - intros i t' Hi Hpc.
    destruct (step_awaiting _ _ _ _ _ _ Hb Hstep Hi Hpc) as [Hold|[body ->]].
    + eapply Hna; eauto.
    + intros Heq. apply (Hne body). now rewrite Heq.
Qed.

Lemma run_absent v es : forall w w' sid,
  tasks_bounded w ->
  JsMap.get sid (activeSessions w) = None -> not_awaiting sid w ->
  never_issued sid es ->
  run v w es = Some w' ->
  JsMap.get sid (activeSessions w') = None /\ not_awaiting sid w'.
Proof.
  induction es as [|e es IH]; simpl; intros w w' sid Hb Hget Hna Hni.
  - intros [= <-]. auto.
  - destruct (step v w e) as [w1|] eqn:E; [|discriminate]. intros Hrun.
    destruct (step_absent v w e w1 sid) as [Hget1 Hna1]; auto.
    { intros body ->. apply (Hni body). now left. }
    apply (IH w1); auto.
    + eapply step_bounded; eauto.
    + intros body Hin. apply (Hni body). now right.
Qed.

(** The list route shows the ids that are keys of the registry. *)
Lemma listed_false (w : World) (sid : string) :
  Registry_ok (activeSessions w) ->
  JsMap.get sid (activeSessions w) = None -> listed sid w = false.
Proof.
  intros [_ Hco] Hget. unfold listed, list_now, list_sessions, JsMap.values.
  apply not_true_is_false. intros H.
  apply existsb_exists in H as (x & Hx & E).
  apply in_map_iff in Hx as (s & <- & Hs).
  apply in_map_iff in Hs as ([k s'] & <- & Hin).
  simpl in E. apply String.eqb_eq in E.
  apply JsMapFacts.get_None_keys in Hget. apply Hget.
  apply in_map_iff. exists (k, s'). split; auto.
  simpl. rewrite <- E. symmetry. now apply Hco.
Qed.

Lemma step_good v w e w' sid :
  Good sid w -> (forall body, e <> PostDevServer body sid) ->
  step v w e = Some w' -> Good sid w'.
Proof.
  intros (Hok & Hb & Hna) Hne Hstep. repeat split.
  - apply (step_Registry_ok _ _ _ _ Hstep), Hok.
  - apply (step_Registry_ok _ _ _ _ Hstep), Hok.
  - eapply step_bounded; eauto.
  - intros i t' Hi Hpc.
    destruct (step_awaiting _ _ _ _ _ _ Hb Hstep Hi Hpc) as [Hold|[body ->]].
    + eapply Hna; eauto.
    + intros Heq. apply (Hne body). now rewrite Heq.
Qed.

Lemma run_good v es : forall w w' sid,
  Good sid w -> never_issued sid es -> run v w es = Some w' -> Good sid w'.
Proof.
  induction es as [|e es IH]; simpl; intros w w' sid Hg Hni.
  - now intros [= <-].
  - destruct (step v w e) as [w1|] eqn:E; [|discriminate]. intros Hrun.
    apply (IH w1); auto.
    + eapply step_good; eauto. intros body ->. apply (Hni body). now left.
    + intros body Hin. apply (Hni body). now right.
Qed.

Lemma never_issued_settle sid d o : never_issued sid [Settle d o].
Proof. intros body [H|[]]. discriminate. Qed.

Lemma run_one v w e : run v w [e] = step v w e.
Proof. simpl. now destruct (step v w e). Qed.

(** ** The sample runs *)

Lemma demo_reachable : reachable HostClone demo_world.
Proof. exists demo_events. vm_compute. reflexivity. Qed.

Lemma demo_tasks : tasks demo_world = ∅.
Proof. vm_compute. reflexivity. Qed.

Lemma starting_reachable : reachable InContainerClone starting_world.
Proof. exists starting_events. vm_compute. reflexivity. Qed.

(** ** Ports of the registered sessions *)













(** ** Rollback of a failed creation *)

(** C2 at [rollback_events] and [rollback_events_host]: the failing request
    is answered 500, but the error path takes out the session of the other
    request; the failing request's own session stays in the registry and is
    listed, and the directory removed is the other session's. *)
Theorem failed_create_keeps_own_session :
  (exists w,
     run InContainerClone boot rollback_events = Some w /\
     response_of w 1 = Some (failed "container start failed") /\
     listed "s2" w = true /\
     listed "s1" w = false /\
     tasks w !! 0%nat =
       Some (TCreate (mkCreate "s1" "https://example.com/demo.git"
                        (AwaitCreateContainer 8080))) /\
     List.filter (fun e => match e with Rmdir _ => true | _ => false end) (effects w) =
       [Rmdir (Some "../repos/s1")])
  /\ (exists w,
        run HostClone boot rollback_events_host = Some w /\
        response_of w 1 = Some (failed "clone failed") /\
        listed "s2" w = true /\
        listed "s1" w = false /\
        tasks w !! 0%nat =
          Some (TCreate (mkCreate "s1" "https://example.com/demo.git" (AwaitClone 8080))) /\
        List.filter (fun e => match e with Rmdir _ => true | _ => false end) (effects w) =
          [Rmdir (Some "../repos/s1")]).
Proof.
  split; (eexists; split; [vm_compute; reflexivity|]; repeat split; reflexivity).
Qed.

(** ** Deleting a session that is in the registry *)

Lemma delete_arrival v w sid s :
  JsMap.get sid (activeSessions w) = Some s ->
  step v w (DeleteDevServer sid) =
    Some (mkWorld (activeSessions w)
            (<[next_task w :=
                 TDelete (mkDelete sid (sessionDir s)
                            (match container_of s with
                             | Some _ => AwaitStop
                             | None => AwaitRmdir
                             end))]> (tasks w))
            (S (next_task w)) (responses w) (effects w ++ [first_call s])).
Proof.
  intros Hget. simpl. unfold accept, delete_dev_server, first_call, container_of.
  rewrite Hget.
  destruct (containerId s) as [c|]; [destruct (truthy c)|]; simpl;
    now rewrite app_nil_r.
Qed.

Lemma delete_stop_settled v w d sid dir o :
  tasks w !! d = Some (TDelete (mkDelete sid dir AwaitStop)) -> settles o ->
  step v w (Settle d o) =
    Some (mkWorld (activeSessions w)
            (<[d := TDelete (mkDelete sid dir AwaitRmdir)]> (tasks w))
            (next_task w) (responses w)
            (effects w ++
               [Console (match o with Resolved => LogStopped | _ => ErrStopping end);
                Rmdir dir])).
Proof.
  intros Ht [-> | [e ->]]; simpl; rewrite Ht; simpl; unfold commit; simpl;
    now rewrite app_nil_r.
Qed.

Lemma delete_rmdir_settled v w d sid dir o :
  tasks w !! d = Some (TDelete (mkDelete sid dir AwaitRmdir)) -> settles o ->
  step v w (Settle d o) =
    Some (mkWorld (JsMap.delete sid (activeSessions w))
            (base.delete d (tasks w))
            (next_task w) (responses w ++ [(d, stopped)])
            (effects w ++
               [Console (match o with Resolved => LogRemoved | _ => ErrRemoving end)])).
Proof.
  intros Ht [-> | [e ->]]; simpl; rewrite Ht; reflexivity.
Qed.

(** C3, as the code has it.  Deleting a session whose id is a key of the
    registry always succeeds.  The handler first stops the container, but
    only if the session has a container id ([first_call], [stop_settled]
    and [calls_after_stop] are empty of the stop otherwise), and whether the
    stop resolves or rejects it goes on to remove the session directory; whether that resolves or rejects it deletes the key
    and answers 200.  This holds whatever the other handlers do while the
    delete handler is suspended ([es1], [es2]); from then on no list shows
    the id ([es3]), as long as [uuidv4()] does not produce the id again. *)
Theorem delete_known_session (v : Variant) (w : World) (sid : string) (s : Session)
    (o1 o2 : Outcome) (es1 es2 es3 : list Event) :
  reachable v w ->
  JsMap.get sid (activeSessions w) = Some s ->
  not_awaiting sid w ->
  settles o1 -> settles o2 ->
  others (next_task w) es1 -> others (next_task w) es2 ->
  never_issued sid es1 -> never_issued sid es2 -> never_issued sid es3 ->
  exists w0,
    step v w (DeleteDevServer sid) = Some w0 /\
    effects w0 = effects w ++ [first_call s] /\
    forall w1, run v w0 es1 = Some w1 ->
    exists w2,
      run v w1 (stop_settled (next_task w) s o1) = Some w2 /\
      effects w2 = effects w1 ++ calls_after_stop s o1 /\
      activeSessions w2 = activeSessions w1 /\
      forall w3, run v w2 es2 = Some w3 ->
      exists w4,
        step v w3 (Settle (next_task w) o2) = Some w4 /\
        activeSessions w4 = JsMap.delete sid (activeSessions w3) /\
        responses w4 = responses w3 ++ [(next_task w, stopped)] /\
        listed sid w4 = false /\
        forall w5, run v w4 es3 = Some w5 -> listed sid w5 = false.
Proof.
  intros Hreach Hget Hna Ho1 Ho2 Hoth1 Hoth2 Hni1 Hni2 Hni3.
  destruct (reachable_invariant _ _ Hreach) as [Hok Hb].
  assert (Hg : Good sid w) by (repeat split; auto; apply Hok).
  pose proof (delete_arrival v w sid s Hget) as Harr.
  eexists. split; [exact Harr|]. split; [reflexivity|].
  match type of Harr with _ = Some ?x => set (w0 := x) in * end.
  assert (Hg0 : Good sid w0).
  { eapply step_good; [exact Hg | | exact Harr]. discriminate. }
  assert (Ht0 : tasks w0 !! next_task w =
                Some (TDelete (mkDelete sid (sessionDir s)
                                 (match container_of s with
                                  | Some _ => AwaitStop
                                  | None => AwaitRmdir
                                  end)))).
  { subst w0. simpl. apply lookup_insert_eq. }
  intros w1 Hrun1.
  assert (Hg1 : Good sid w1) by exact (run_good v es1 w0 w1 sid Hg0 Hni1 Hrun1).
  assert (Ht1 := run_keeps_task v es1 w0 w1 _ _ (proj1 (proj2 Hg0)) Ht0 Hoth1 Hrun1).
  assert (Hphase : exists w2,
             run v w1 (stop_settled (next_task w) s o1) = Some w2 /\
             effects w2 = effects w1 ++ calls_after_stop s o1 /\
             activeSessions w2 = activeSessions w1 /\
             tasks w2 !! next_task w =
               Some (TDelete (mkDelete sid (sessionDir s) AwaitRmdir))).
  { unfold stop_settled, calls_after_stop.
    destruct (container_of s) as [c|].
    - rewrite run_one, (delete_stop_settled v w1 _ sid (sessionDir s) o1 Ht1 Ho1).
      eexists. split; [reflexivity|]. simpl. repeat split; auto.
      apply lookup_insert_eq.
    - exists w1. simpl. rewrite app_nil_r. auto. }
  destruct Hphase as (w2 & Hrun2 & Heff2 & Hreg2 & Ht2).
  exists w2. repeat split; auto.
  assert (Hg2 : Good sid w2).
  { refine (run_good v _ w1 w2 sid Hg1 _ Hrun2). unfold stop_settled.
    destruct (container_of s); [apply never_issued_settle | intros body []]. }
  intros w3 Hrun3.
  assert (Hg3 : Good sid w3) by exact (run_good v es2 w2 w3 sid Hg2 Hni2 Hrun3).
  assert (Ht3 := run_keeps_task v es2 w2 w3 _ _ (proj1 (proj2 Hg2)) Ht2 Hoth2 Hrun3).
  pose proof (delete_rmdir_settled v w3 _ sid (sessionDir s) o2 Ht3 Ho2) as Hfin.
  eexists. split; [exact Hfin|].
  match type of Hfin with _ = Some ?x => set (w4 := x) in * end.
  assert (Hg4 : Good sid w4).
  { eapply step_good; [exact Hg3 | | exact Hfin]. discriminate. }
  assert (Hget4 : JsMap.get sid (activeSessions w4) = None)
    by apply JsMapFacts.get_delete_eq.
  repeat split; auto.
  - apply listed_false; auto. apply Hg4.
  - intros w5 Hrun5.
    destruct (run_absent v es3 w4 w5 sid) as [Hget5 _]; auto; try apply Hg4.
    apply listed_false; auto.
    apply (run_good v es3 w4 w5 sid Hg4 Hni3 Hrun5).
Qed.

(** The session of [demo_world] is deleted although both the stop and the
    removal of its directory fail, with list requests in between. *)
Lemma delete_known_session_witness :
  exists w,
    run HostClone demo_world
      [DeleteDevServer "s1"; GetDevServer;
       Settle 1 (Rejected "no such container");
       Settle 1 (Rejected "ENOENT"); GetDevServer] = Some w /\
    response_of w 1 = Some stopped /\
    listed "s1" w = false.
Proof.
  destruct (delete_known_session HostClone demo_world "s1" demo_session
              (Rejected "no such container") (Rejected "ENOENT")
              [GetDevServer] [] [GetDevServer])
    as (w0 & Hstep & _ & K).
  - exact demo_reachable.
  - reflexivity.
  - intros i t Hi. rewrite demo_tasks, lookup_empty in Hi. discriminate.
  - right. now exists "no such container".
  - right. now exists "ENOENT".
  - intros o [H|[]]. discriminate.
  - intros o [].
  - intros b [H|[]]. discriminate.
  - intros b [].
  - intros b [H|[]]. discriminate.
  - vm_compute in Hstep. injection Hstep as <-.
    destruct (K _ eq_refl) as (w2 & Hrun2 & _ & _ & K2).
    vm_compute in Hrun2. injection Hrun2 as <-.
    destruct (K2 _ eq_refl) as (w4 & Hstep4 & _ & _ & _ & K4).
    vm_compute in Hstep4. injection Hstep4 as <-.
    eexists. split; [vm_compute; reflexivity|]. split; [reflexivity|].
    apply K4. vm_compute. reflexivity.
Defined.

(** C3 fails on the stop: the session of [starting_world] is in the
    registry while its container [c1] is being started and has no
    container id yet; its deletion answers 200 and removes the entry
    without any [container.stop()]. *)
Lemma delete_without_stop_counterexample :
  exists s w,
    reachable InContainerClone starting_world /\
    JsMap.get "s1" (activeSessions starting_world) = Some s /\
    run InContainerClone starting_world
      [DeleteDevServer "s1"; Settle 1 Resolved] = Some w /\
    response_of w 1 = Some stopped /\
    listed "s1" w = false /\
    In (ContainerStart "c1") (effects w) /\
    forall c, ~ In (ContainerStop c) (effects w).
Proof.
  eexists. eexists.
  split; [exact starting_reachable|].
  split; [vm_compute; reflexivity|].
  split; [vm_compute; reflexivity|].
  split; [reflexivity|]. split; [reflexivity|].
  split; [simpl; tauto|].
  intros c Hin. simpl in Hin.
  repeat (destruct Hin as [Hin|Hin]; [discriminate|]). exact Hin.
Qed.

(** ** The port allocator *)

Lemma existsb_bound (h : Host) (p : Z) :
  existsb (Z.eqb p) (bound h) = true <-> In p (bound h).
Proof.
  rewrite existsb_exists. split.
  - intros (x & Hin & E). apply Z.eqb_eq in E. now subst.
  - intros Hin. exists p. split; [exact Hin | apply Z.eqb_refl].
Qed.

(** C4, as the code has it.  [findAvailablePort(startPort)] hands
    [startPort] to [server.listen] and makes no other call, on any host:
    the callback it passes is never called with an error, so the retry on
    port 0 is never reached.  When [startPort] is free the promise resolves
    with it; when it is in use the failed bind is an uncaught ['error'] and
    the process exits, the promise never settling; port 0 itself resolves
    with what the operating system assigns; a port outside 0..65535 rejects
    with the [RangeError] of [listen].  A create request whose probe meets a
    host with 8080 in use therefore gets no turn at all: no session, no
    response. *)
Theorem findAvailablePort_never_falls_back (h : Host) (startPort : Z) :
  listens (findAvailablePort h startPort) = [startPort]
  /\ (0 < startPort <= 65535 -> ~ In startPort (bound h) ->
        settled (findAvailablePort h startPort) = Fulfilled startPort)
  /\ (0 < startPort <= 65535 -> In startPort (bound h) ->
        settled (findAvailablePort h startPort) = ProcessExit "EADDRINUSE")
  /\ (startPort = 0 ->
        settled (findAvailablePort h startPort) =
          match ephemeral h with
          | inr q => Fulfilled q
          | inl e => ProcessExit e
          end)
  /\ (startPort < 0 \/ 65535 < startPort ->
        settled (findAvailablePort h startPort) = RejectedWith (bad_port startPort))
  /\ (forall v w id sid url,
        tasks w !! id = Some (TCreate (mkCreate sid url AwaitPort)) ->
        In 8080 (bound h) ->
        step v w (Settle id (PortProbed h)) = None).
Proof.
  split; [|split; [|split; [|split; [|split]]]].
  - unfold findAvailablePort. now destruct (listen h startPort).
  - intros Hr Hfree. unfold findAvailablePort, listen.
    replace ((startPort <? 0) || (65535 <? startPort)) with false by lia.
    replace (startPort =? 0) with false by lia.
    destruct (existsb (Z.eqb startPort) (bound h)) eqn:Ex; [|reflexivity].
    apply existsb_bound in Ex. contradiction.
  - intros Hr Hused. unfold findAvailablePort, listen.
    replace ((startPort <? 0) || (65535 <? startPort)) with false by lia.
    replace (startPort =? 0) with false by lia.
    apply existsb_bound in Hused. now rewrite Hused.
  - intros ->. unfold findAvailablePort, listen. simpl.
    now destruct (ephemeral h).
  - intros Hr. unfold findAvailablePort, listen.
    replace ((startPort <? 0) || (65535 <? startPort)) with true by lia.
    reflexivity.
  - intros v w id sid url Ht Hused. simpl. rewrite Ht.
    unfold resume_create. cbn [c_pc]. unfold findAvailablePort, listen.
    apply existsb_bound in Hused. simpl. now rewrite Hused.
Qed.

(** With 8080 in use and 49152 there for the asking, port 0 is never
    tried. *)
Lemma findAvailablePort_never_falls_back_witness :
  findAvailablePort busy_host 8080 = mkPortPromise [8080] (ProcessExit "EADDRINUSE") /\
  run HostClone boot
    [PostDevServer (Some "https://example.com/demo.git") "s1";
     Settle 0 (PortProbed busy_host)] = None.
Proof.
  pose proof (findAvailablePort_never_falls_back busy_host 8080) as (Hl & _ & Hexit & _).
  split.
  - destruct (findAvailablePort busy_host 8080) as [l st]. simpl in Hl, Hexit.
    rewrite Hl, Hexit; [reflexivity | lia | now left].
  - vm_compute. reflexivity.
Defined.

(** ** Validation of the create request *)

(** C5.  A create request whose [repoUrl] is missing or the empty string is
    answered 400 in its first turn: the registry, the suspended handlers and
    the trace of outside calls are left as they were, so no port is probed
    and no entry is inserted, now or later. *)
Theorem empty_repoUrl_rejected (v : Variant) (w : World) (body_repoUrl : option string)
    (uuid : string) :
  body_repoUrl = None \/ body_repoUrl = Some EmptyString ->
  step v w (PostDevServer body_repoUrl uuid) =
    Some (mkWorld (activeSessions w) (tasks w) (S (next_task w))
            (responses w ++
               [(next_task w, mkResponse 400 (ErrorBody "Repository URL is required"))])
            (effects w)).
Proof.
  intros [-> | ->]; simpl; unfold accept; simpl; now rewrite app_nil_r.
Qed.

(** An empty [repoUrl] sent to the freshly started process. *)
Lemma empty_repoUrl_rejected_witness :
  step HostClone boot (PostDevServer (Some EmptyString) "id-1") =
    Some (mkWorld [] ∅ 1%nat
            [(0%nat, mkResponse 400 (ErrorBody "Repository URL is required"))] []).
Proof.
  apply (empty_repoUrl_rejected HostClone boot (Some EmptyString) "id-1"). now right.
Defined.

(** ** The turn after [container.start()] *)

(** C6, as the code has it.  When [container.start()] resolves and the
    session is still in the registry, the same turn stores the container id,
    sets the status to [running] and answers 200 with status [running]; the
    handler is then finished.  [InContainerClone] arms the probe with a
    2000 ms timer in that turn and does not wait for it, and no turn of a
    probe changes the registry or a response. *)
Theorem start_resolved_running (v : Variant) (w : World) (id : nat)
    (sid url c : string) (p : Z) (s : Session) :
  reachable v w ->
  tasks w !! id = Some (TCreate (mkCreate sid url (AwaitStart p c))) ->
  JsMap.get sid (activeSessions w) = Some s ->
  (exists w',
     step v w (Settle id Resolved) = Some w' /\
     activeSessions w' =
       JsMap.set sid (with_status running (with_container c s)) (activeSessions w) /\
     JsMap.get sid (activeSessions w') =
       Some (mkSession (sessionId s) (repoUrl s) (port s) running (Some c) (sessionDir s)) /\
     responses w' =
       responses w ++
       [(id, mkResponse 200
               (CreatedBody sid url p running
                  (String.append "http://localhost:" (toString p))))] /\
     effects w' = effects w ++ start_calls v /\
     tasks w' !! id = None /\
     forall i, i <> id ->
       tasks w' !! i =
         if decide (i = next_task w) then TProbe <$> armed v sid p c else tasks w !! i)
  /\ (forall w1 i t o w2,
        tasks w1 !! i = Some (TProbe t) ->
        step v w1 (Settle i o) = Some w2 ->
        activeSessions w2 = activeSessions w1 /\ responses w2 = responses w1).
Proof.
  intros Hreach Ht Hget. split; [|intros w1 i t o w2; apply probe_step_frame].
  destruct (reachable_invariant _ _ Hreach) as [_ Hb].
  pose proof (task_below _ _ _ Hb Ht) as Hlt.
  simpl. rewrite Ht. unfold resume_create. cbn [c_pc c_sessionId c_repoUrl].
  rewrite Hget. eexists. split; [reflexivity|].
  unfold commit, start_calls, armed. destruct v; simpl.
  - repeat split; auto.
    + apply JsMapFacts.get_set_eq.
    + apply lookup_delete_eq.
    + intros i Hi. rewrite lookup_delete_ne by auto.
      destruct (decide (i = next_task w)) as [->|]; [apply Hb; lia | reflexivity].
  - repeat split; auto.
    + apply JsMapFacts.get_set_eq.
    + rewrite lookup_insert_ne by lia. apply lookup_delete_eq.
    + intros i Hi. destruct (decide (i = next_task w)) as [->|Hne].
      * apply lookup_insert_eq.
      * rewrite lookup_insert_ne by auto. now rewrite lookup_delete_ne.
Qed.

(** The start of the container of [starting_world] resolves. *)
Lemma start_resolved_running_witness :
  exists w',
    step InContainerClone starting_world (Settle 0 Resolved) = Some w' /\
    JsMap.get "s1" (activeSessions w') =
      Some (mkSession "s1" "https://example.com/demo.git" 8080 running (Some "c1") None) /\
    response_of w' 0 =
      Some (mkResponse 200
              (CreatedBody "s1" "https://example.com/demo.git" 8080 running
                 "http://localhost:8080")) /\
    tasks w' !! 0%nat = None /\
    tasks w' !! 1%nat = Some (TProbe (mkProbe "s1" 8080 "c1" ProbeTimer)).
Proof.
  destruct (start_resolved_running InContainerClone starting_world 0
              "s1" "https://example.com/demo.git" "c1" 8080
              (mkSession "s1" "https://example.com/demo.git" 8080 starting None None)
              starting_reachable)
    as [(w' & Hstep & _ & Hget & Hresp & _ & Hdone & Hrest) _].
  - vm_compute. reflexivity.
  - reflexivity.
  - exists w'. split; [exact Hstep|]. split; [exact Hget|]. split.
    + unfold response_of. rewrite Hresp. reflexivity.
    + split; [exact Hdone|]. now rewrite (Hrest 1%nat).
Defined.

(** C6 fails when the session is deleted while its container starts: the
    delete handler finds the session (no container id yet), removes it and
    answers 200; then [container.start()] resolves, the create handler looks
    its session up, gets [undefined], and the assignment of [containerId]
    throws: the request is answered 500 and no session is [running]. *)
Lemma start_resolved_counterexample :
  exists w,
    run InContainerClone boot
      (starting_events ++
       [DeleteDevServer "s1";
        Settle 1 (Rejected "The path argument must be of type string");
        Settle 0 Resolved]) = Some w /\
    response_of w 1 = Some stopped /\
    response_of w 0 = Some (failed (TypeError "containerId")) /\
    JsMap.get "s1" (activeSessions w) = None /\
    list_now w = [] /\
    In (ContainerStart "c1") (effects w).
Proof.
  eexists. split; [vm_compute; reflexivity|].
  repeat split; try reflexivity.
  simpl. tauto.
Qed.

(** ** Creating sessions for the same repository *)

Lemma create_arrival v w url uuid :
  truthy url = true ->
  step v w (PostDevServer (Some url) uuid) =
    Some (mkWorld (activeSessions w)
            (<[next_task w := TCreate (mkCreate uuid url AwaitPort)]> (tasks w))
            (S (next_task w)) (responses w) (effects w ++ [ServerListen 8080])).
Proof.
  intros Hurl. simpl. unfold accept, post_dev_server. rewrite Hurl. simpl.
  now rewrite !app_nil_r.
Qed.

Lemma findAvailablePort_8080 (h : Host) :
  ~ In 8080 (bound h) ->
  findAvailablePort h 8080 = mkPortPromise [8080] (Fulfilled 8080).
Proof.
  intros Hfree. unfold findAvailablePort, listen. simpl.
  destruct (existsb (Z.eqb 8080) (bound h)) eqn:Ex; [|reflexivity].
  apply existsb_bound in Ex. contradiction.
Qed.

Lemma create_port_resolved v w id sid url h :
  tasks w !! id = Some (TCreate (mkCreate sid url AwaitPort)) ->
  ~ In 8080 (bound h) ->
  step v w (Settle id (PortProbed h)) =
    Some (mkWorld (JsMap.set sid (new_session v sid url 8080) (activeSessions w))
            (<[id := TCreate (mkCreate sid url (after_port v 8080))]> (tasks w))
            (next_task w) (responses w)
            (effects w ++ port_calls v sid url 8080)).
Proof.
  intros Ht Hfree. simpl. rewrite Ht. unfold resume_create.
  cbn [c_pc c_sessionId c_repoUrl]. rewrite (findAvailablePort_8080 h Hfree).
  destruct v; unfold commit; simpl; now rewrite app_nil_r.
Qed.

(** C7, as the code has it.  The create handler never looks a repository up:
    a request with a non-empty [repoUrl] always starts a probe of its own
    ([server.listen(8080)] in its first turn), whatever sessions the
    registry holds, and when the probe finds 8080 free it appends a new
    entry under its own id, leaving every earlier entry, those for the same
    repository included, as it was.  The id is new when [uuidv4()] returns a
    new one; the port is 8080, as for every other session. *)
Theorem create_never_deduplicates (v : Variant) (w : World) (url uuid : string)
    (es : list Event) (h : Host) :
  reachable v w ->
  truthy url = true ->
  others (next_task w) es ->
  ~ In 8080 (bound h) ->
  exists w0,
    step v w (PostDevServer (Some url) uuid) = Some w0 /\
    activeSessions w0 = activeSessions w /\
    effects w0 = effects w ++ [ServerListen 8080] /\
    forall w1,
      run v w0 es = Some w1 ->
      JsMap.get uuid (activeSessions w1) = None ->
      exists w2,
        step v w1 (Settle (next_task w) (PortProbed h)) = Some w2 /\
        activeSessions w2 = activeSessions w1 ++ [(uuid, new_session v uuid url 8080)] /\
        effects w2 = effects w1 ++ port_calls v uuid url 8080 /\
        ~ In uuid (JsMap.keys (activeSessions w1)).
Proof.
  intros Hreach Hurl Hoth Hfree.
  destruct (reachable_invariant _ _ Hreach) as [Hok Hb].
  pose proof (create_arrival v w url uuid Hurl) as Harr.
  eexists. split; [exact Harr|]. split; [reflexivity|]. split; [reflexivity|].
  match type of Harr with _ = Some ?x => set (w0 := x) in * end.
  assert (Hb0 : tasks_bounded w0) by (eapply step_bounded; eauto).
  assert (Ht0 : tasks w0 !! next_task w = Some (TCreate (mkCreate uuid url AwaitPort))).
  { subst w0. simpl. apply lookup_insert_eq. }
  intros w1 Hrun Hfresh.
  pose proof (run_keeps_task v es w0 w1 _ _ Hb0 Ht0 Hoth Hrun) as Ht1.
  pose proof (create_port_resolved v w1 _ uuid url h Ht1 Hfree) as Hstep.
  eexists. split; [exact Hstep|]. simpl. repeat split.
  - now apply JsMapFacts.set_fresh.
  - now apply JsMapFacts.get_None_keys.
Qed.

(** A second request for the repository of a session that is still being
    cloned is given a second session, behind the first. *)
Lemma create_never_deduplicates_witness :
  exists w,
    run HostClone (default boot (run HostClone boot (take 2 demo_events)))
      [PostDevServer (Some "https://example.com/demo.git") "s2"; GetDevServer;
       Settle 1 (PortProbed idle_host)] = Some w /\
    activeSessions w =
      [("s1", new_session HostClone "s1" "https://example.com/demo.git" 8080);
       ("s2", new_session HostClone "s2" "https://example.com/demo.git" 8080)].
Proof.
  destruct (create_never_deduplicates HostClone
              (default boot (run HostClone boot (take 2 demo_events)))
              "https://example.com/demo.git" "s2" [GetDevServer] idle_host)
    as (w0 & Hstep & _ & _ & K).
  - exists (take 2 demo_events). vm_compute. reflexivity.
  - reflexivity.
  - intros o [H|[]]. discriminate.
  - intros [].
  - vm_compute in Hstep. injection Hstep as <-.
    destruct (K _ eq_refl eq_refl) as (w2 & Hstep2 & Hreg & _ & _).
    vm_compute in Hstep2. injection Hstep2 as <-.
    eexists. split; [vm_compute; reflexivity|]. exact Hreg.
Defined.

(** C7 fails on the ports: two requests for one repository that are in
    flight together are given two ids and the same port. *)
Lemma distinct_ports_counterexample :
  exists w s1 s2,
    run InContainerClone boot
      [PostDevServer (Some "https://example.com/demo.git") "s1";
       PostDevServer (Some "https://example.com/demo.git") "s2";
       Settle 0 (PortProbed idle_host);
       Settle 1 (PortProbed idle_host)] = Some w /\
    activeSessions w = [("s1", s1); ("s2", s2)] /\
    repoUrl s1 = repoUrl s2 /\
    sessionId s1 <> sessionId s2 /\
    port s1 = 8080 /\ port s2 = 8080.
Proof.
  eexists. eexists. eexists.
  split; [vm_compute; reflexivity|].
  split; [reflexivity|].
  repeat split. discriminate.
Qed.

(** ** The readiness probe *)

Lemma gets_app effs effs' : gets (effs ++ effs') = (gets effs + gets effs')%nat.
Proof. unfold gets. now rewrite List.filter_app, length_app. Qed.

Lemma resume_probe_budget t o effs pc :
  armed_sanely (p_pc t) ->
  resume_probe t o = Some (effs, pc) ->
  (gets effs + match pc with Some pc' => budget pc' | None => 0 end <= budget (p_pc t))%nat
  /\ (forall ms, In (SetTimeout ms) effs -> ms = 1000)
  /\ match pc with Some pc' => armed_sanely pc' | None => True end.
Proof.
  unfold resume_probe, retry, check, maxAttempts.
  destruct (p_pc t) as [| | |a|a], o; try discriminate; simpl; intros Hs H;
    repeat match type of H with
      | context [if ?b then _ else _] => destruct b eqn:?
      end;
    injection H as <- <-; unfold gets, budget, armed_sanely, maxAttempts in *;
    simpl in *;
    (split; [try lia | split; [intros ms Hin; intuition congruence|]]);
    try exact I;
    try (apply Nat.ltb_lt; assumption).
Qed.

Lemma run_probe_budget os : forall t effs pc,
  armed_sanely (p_pc t) ->
  run_probe t os = Some (effs, pc) ->
  (gets effs <= budget (p_pc t))%nat /\ (forall ms, In (SetTimeout ms) effs -> ms = 1000).
Proof.
  induction os as [|o os IH]; simpl; intros t effs pc Hs.
  - intros [= <- <-]. split; [unfold gets; simpl; lia | intros ms []].
  - destruct (resume_probe t o) as [[effs1 [pc1|]]|] eqn:E; try discriminate.
    + destruct (resume_probe_budget _ _ _ _ Hs E) as (Hb & Ht & Hs1).
      destruct (run_probe _ os) as [[effs2 pc2]|] eqn:E2; [|discriminate].
      intros [= <- <-].
      destruct (IH (mkProbe (p_sessionId t) (p_port t) (p_container t) pc1) _ _ Hs1 E2)
        as [Hb2 Ht2]. simpl in Hb2.
      split.
      * rewrite gets_app. lia.
      * intros ms Hin. apply in_app_or in Hin as [Hin|Hin]; auto.
    + destruct (resume_probe_budget _ _ _ _ Hs E) as (Hb & Ht & _).
      destruct os; [|discriminate]. intros [= <- <-]. split; auto. lia.
Qed.

Lemma run_probe_app os1 : forall t os2 effs1 pc1,
  run_probe t os1 = Some (effs1, Some pc1) ->
  run_probe t (os1 ++ os2) =
    match run_probe (mkProbe (p_sessionId t) (p_port t) (p_container t) pc1) os2 with
    | Some (effs2, pc2) => Some (effs1 ++ effs2, pc2)
    | None => None
    end.
Proof.
  induction os1 as [|o os1 IH]; simpl; intros t os2 effs1 pc1.
  - intros [= <- <-]. destruct t; simpl.
    now destruct (run_probe _ os2) as [[effs2 pc2]|].
  - destruct (resume_probe t o) as [[effs [pc|]]|]; try discriminate.
    + destruct (run_probe _ os1) as [[effs' pc']|] eqn:E; [|discriminate].
      intros [= <- ->]. rewrite (IH _ os2 _ _ E). simpl.
      destruct (run_probe _ os2) as [[effs2 pc2]|]; auto.
      now rewrite app_assoc.
    + destruct os1; discriminate.
Qed.

Lemma poll_failures sid c p fails : forall attempts,
  forallb is_failure fails = true ->
  (attempts + List.length fails < maxAttempts)%nat ->
  run_probe (mkProbe sid p c (ProbeGet attempts)) (polls fails) =
    Some (retries p (List.length fails), Some (ProbeGet (attempts + List.length fails))).
Proof.
  induction fails as [|o fails IH]; intros attempts Hf Hlen.
  - simpl. now rewrite Nat.add_0_r.
  - simpl in Hf. apply andb_prop in Hf as [Ho Hf]. simpl in Hlen.
    assert (Hretry : resume_probe (mkProbe sid p c (ProbeGet attempts)) o =
                     Some ([SetTimeout 1000], Some (ProbeRetry (S attempts)))).
    { assert (Hlt : (S attempts <? maxAttempts)%nat = true) by (apply Nat.ltb_lt; lia).
      unfold resume_probe, retry. simpl p_pc.
      destruct o; try discriminate; simpl in Ho.
      - now rewrite Hlt.
      - apply negb_true_iff in Ho. now rewrite Ho, Hlt. }
    change (polls (o :: fails)) with (o :: TimerFired :: polls fails).
    cbn [run_probe]. rewrite Hretry. cbn [p_sessionId p_port p_container].
    cbn [resume_probe p_pc check p_port p_sessionId p_container].
    rewrite (IH (S attempts)) by (auto; lia).
    unfold retries. cbn [List.length List.repeat List.concat app].
    now rewrite Nat.add_succ_r.
Qed.

(** A turn of the probe in the event loop is its [resume_probe]. *)
Lemma probe_step v w id t o :
  tasks w !! id = Some (TProbe t) ->
  step v w (Settle id o) =
    match resume_probe t o with
    | Some (effs, pc) =>
        Some (mkWorld (activeSessions w)
                (match pc with
                 | Some pc' =>
                     <[id := TProbe (mkProbe (p_sessionId t) (p_port t) (p_container t) pc')]>
                       (tasks w)
                 | None => base.delete id (tasks w)
                 end)
                (next_task w) (responses w) (effects w ++ effs))
    | None => None
    end.
Proof.
  intros Ht. simpl. rewrite Ht. unfold probe_turn.
  destruct (resume_probe t o) as [[effs [pc|]]|]; [| |reflexivity];
    unfold commit; simpl; now rewrite app_nil_r.
Qed.

(** The event loop fed with the settlements of one probe only runs that
    probe. *)
Lemma run_probe_run v os : forall w id t effs pc,
  tasks w !! id = Some (TProbe t) ->
  run_probe t os = Some (effs, pc) ->
  run v w (List.map (Settle id) os) =
    Some (mkWorld (activeSessions w)
            (match pc with
             | Some pc' =>
                 <[id := TProbe (mkProbe (p_sessionId t) (p_port t) (p_container t) pc')]>
                   (tasks w)
             | None => base.delete id (tasks w)
             end)
            (next_task w) (responses w) (effects w ++ effs)).
Proof.
  induction os as [|o os IH]; intros w id t effs pc Ht.
  - simpl. intros [= <- <-]. destruct w, t; simpl in *.
    now rewrite app_nil_r, insert_id.
  - cbn [run_probe List.map run]. rewrite (probe_step v w id t o Ht).
    destruct (resume_probe t o) as [[effs1 [pc1|]]|]; [| |discriminate].
    + destruct (run_probe _ os) as [[effs2 pc2]|] eqn:E2; [|discriminate].
      intros [= <- <-].
      rewrite (IH _ id _ effs2 pc2 (lookup_insert_eq _ _ _) E2).
      cbn [activeSessions tasks next_task responses effects
             p_sessionId p_port p_container].
      rewrite <- app_assoc. destruct pc2.
      * now rewrite insert_insert_eq.
      * now rewrite delete_insert_eq.
    + destruct os; [|discriminate]. now intros [= <- <-].
Qed.

Lemma step_dead v w e w' id :
  tasks_bounded w -> (id < next_task w)%nat -> tasks w !! id = None ->
  step v w e = Some w' ->
  tasks w' !! id = None /\ (id < next_task w')%nat /\ forall o, e <> Settle id o.
Proof.
  intros Hb Hlt Hnone Hstep.
  destruct e as [body uuid| |sid|i o]; simpl in Hstep.
  - injection Hstep as <-. rewrite accept_lookup_ne by exact Hlt.
    split; [exact Hnone|]. split; [simpl; lia | discriminate].
  - injection Hstep as <-. rewrite accept_lookup_ne by exact Hlt.
    split; [exact Hnone|]. split; [simpl; lia | discriminate].
  - injection Hstep as <-. rewrite accept_lookup_ne by exact Hlt.
    split; [exact Hnone|]. split; [simpl; lia | discriminate].
  - destruct (decide (i = id)) as [->|Hne]; [now rewrite Hnone in Hstep|].
    destruct (tasks w !! i) as [[t|t|t]|]; try discriminate;
      [destruct (resume_create v t o _) | destruct (resume_delete t o _)
       | destruct (probe_turn t o _)];
      try discriminate; injection Hstep as <-;
      (rewrite commit_lookup_ne by auto);
      (split; [exact Hnone|]; split; [|congruence]);
      unfold commit; simpl; destruct (t_spawn _); lia.
Qed.

(** A task that has returned gets no turn any more. *)
Lemma run_dead v es : forall w w' id,
  tasks_bounded w -> (id < next_task w)%nat -> tasks w !! id = None ->
  run v w es = Some w' ->
  deliveries id es = [] /\ calls_of v id w es = [] /\ tasks w' !! id = None.
Proof.
  induction es as [|e es IH]; intros w w' id Hb Hlt Hnone Hrun.
  - simpl in *. injection Hrun as <-. auto.
  - cbn [run] in Hrun. destruct (step v w e) as [w1|] eqn:E; [|discriminate].
    destruct (step_dead v w e w1 id Hb Hlt Hnone E) as (Hnone1 & Hlt1 & Hne).
    destruct (IH w1 w' id (step_bounded _ _ _ _ E Hb) Hlt1 Hnone1 Hrun)
      as (Hd & Hc & Hfin).
    cbn [calls_of]. rewrite E, Hc. unfold deliveries in *. cbn [flat_map].
    rewrite Hd. destruct e as [| | |i o]; auto.
    destruct (Nat.eqb_spec i id) as [->|]; auto. now destruct (Hne o).
Qed.

(** Whatever else the event loop runs in between, the calls made in the
    turns of a probe are those of [run_probe] on the settlements delivered
    to it. *)
Lemma calls_of_run_probe v es : forall w w' id t,
  tasks_bounded w -> tasks w !! id = Some (TProbe t) ->
  run v w es = Some w' ->
  exists pc,
    run_probe t (deliveries id es) = Some (calls_of v id w es, pc) /\
    tasks w' !! id =
      match pc with
      | Some pc' => Some (TProbe (mkProbe (p_sessionId t) (p_port t) (p_container t) pc'))
      | None => None
      end.
Proof.
  induction es as [|e es IH]; intros w w' id t Hb Ht Hrun.
  - simpl in *. injection Hrun as <-. exists (Some (p_pc t)).
    split; [reflexivity|]. now destruct t.
  - cbn [run] in Hrun. destruct (step v w e) as [w1|] eqn:E; [|discriminate].
    pose proof (step_bounded _ _ _ _ E Hb) as Hb1.
    pose proof (task_below _ _ _ Hb Ht) as Hlt.
    cbn [calls_of]. rewrite E. unfold deliveries. cbn [flat_map].
    fold (deliveries id es).
    assert (Hother : (forall o, e <> Settle id o) ->
                     exists pc,
                       run_probe t (deliveries id es) = Some (calls_of v id w1 es, pc) /\
                       tasks w' !! id =
                         match pc with
                         | Some pc' =>
                             Some (TProbe (mkProbe (p_sessionId t) (p_port t)
                                             (p_container t) pc'))
                         | None => None
                         end).
    { intros Hne. apply (IH w1 w' id t Hb1); auto.
      apply (step_keeps_task v w e w1 id _ Hb Ht Hne E). }
    destruct e as [body uuid| |sid|i o]; try (apply Hother; discriminate).
    destruct (Nat.eqb_spec i id) as [->|Hne];
      [|apply Hother; intros o' [= ? ?]; contradiction].
    rewrite (probe_step v w id t o Ht) in E.
    destruct (resume_probe t o) as [[effs [pc1|]]|] eqn:R; [| |discriminate];
      injection E as <-; cbn [effects]; rewrite drop_app_length.
    + destruct (IH _ w' id (mkProbe (p_sessionId t) (p_port t) (p_container t) pc1)
                  Hb1 (lookup_insert_eq _ _ _) Hrun) as (pc & Hp & Hfin).
      exists pc. split; [|exact Hfin].
      cbn [app run_probe]. now rewrite R, Hp.
    + destruct (run_dead v es _ w' id Hb1 Hlt (lookup_delete_eq _ _) Hrun)
        as (Hd & Hc & Hfin).
      exists None. split; [|exact Hfin].
      rewrite Hd, Hc. cbn [app run_probe]. now rewrite R, app_nil_r.
Qed.

(** C8.  The probe armed by the create handler, run by the event loop
    among whatever other turns, makes at most [maxAttempts] = 10 requests,
    whatever the container and the server answer, and every timer it sets
    is of 1000 ms.  Once the container is found running the first request
    goes out at once; each failed request is followed by a 1000 ms timer
    and the next request; the first answer 200 ends the probe with the
    success line; the tenth failure ends it with the error line.  No turn
    of a probe changes the registry or a response: it only adds to the
    trace of calls and console lines. *)
Theorem readiness_poll_bounded (v : Variant) (w : World) (id : nat)
    (sid c : string) (p : Z) :
  tasks_bounded w ->
  tasks w !! id = Some (TProbe (mkProbe sid p c ProbeTimer)) ->
  (forall es w',
      run v w es = Some w' ->
      (gets (calls_of v id w es) <= maxAttempts)%nat /\
      (forall ms, In (SetTimeout ms) (calls_of v id w es) -> ms = 1000))
  /\ (forall fails,
        forallb is_failure fails = true ->
        (List.length fails < maxAttempts)%nat ->
        let os := TimerFired :: Inspected "running" :: polls fails ++ [HttpAnswered 200] in
        let calls :=
          ContainerInspect c :: HttpGet (checkUrl p) ::
          retries p (List.length fails) ++ [Console LogResponding] in
        run v w (List.map (Settle id) os) =
          Some (mkWorld (activeSessions w) (base.delete id (tasks w)) (next_task w)
                  (responses w) (effects w ++ calls)) /\
        forall es w',
          run v w es = Some w' -> deliveries id es = os ->
          calls_of v id w es = calls /\ tasks w' !! id = None)
  /\ (forall fails o,
        forallb is_failure fails = true -> is_failure o = true ->
        S (List.length fails) = maxAttempts ->
        let os := TimerFired :: Inspected "running" :: polls fails ++ [o] in
        let calls :=
          ContainerInspect c :: HttpGet (checkUrl p) ::
          retries p (List.length fails) ++ [Console ErrNoResponse] in
        run v w (List.map (Settle id) os) =
          Some (mkWorld (activeSessions w) (base.delete id (tasks w)) (next_task w)
                  (responses w) (effects w ++ calls)) /\
        forall es w',
          run v w es = Some w' -> deliveries id es = os ->
          calls_of v id w es = calls /\ tasks w' !! id = None)
  /\ (forall w1 i t o w2,
        tasks w1 !! i = Some (TProbe t) ->
        step v w1 (Settle i o) = Some w2 ->
        activeSessions w2 = activeSessions w1 /\ responses w2 = responses w1).
Proof.
  intros Hb Ht.
  assert (Hlink : forall os calls,
             run_probe (mkProbe sid p c ProbeTimer) os = Some (calls, None) ->
             run v w (List.map (Settle id) os) =
               Some (mkWorld (activeSessions w) (base.delete id (tasks w)) (next_task w)
                       (responses w) (effects w ++ calls)) /\
             forall es w',
               run v w es = Some w' -> deliveries id es = os ->
               calls_of v id w es = calls /\ tasks w' !! id = None).
  { intros os calls Hp. split.
    - apply (run_probe_run v os w id _ calls None Ht Hp).
    - intros es w' Hrun Hd.
      destruct (calls_of_run_probe v es w w' id _ Hb Ht Hrun) as (pc & Hq & Hfin).
      rewrite Hd, Hp in Hq. injection Hq as <- <-. auto. }
  split; [|split; [|split]].
  - intros es w' Hrun.
    destruct (calls_of_run_probe v es w w' id _ Hb Ht Hrun) as (pc & Hq & _).
    apply (run_probe_budget _ (mkProbe sid p c ProbeTimer) _ pc I Hq).
  - intros fails Hf Hlen os calls. apply Hlink. unfold os, calls.
    change (TimerFired :: Inspected "running" :: polls fails ++ [HttpAnswered 200])
      with ([TimerFired; Inspected "running"] ++ polls fails ++ [HttpAnswered 200]).
    rewrite (run_probe_app [TimerFired; Inspected "running"]
               (mkProbe sid p c ProbeTimer) _
               [ContainerInspect c; HttpGet (checkUrl p)] (ProbeGet 0) eq_refl).
    cbn [p_sessionId p_port p_container].
    rewrite (run_probe_app _ _ _ _ _ (poll_failures sid c p fails 0 Hf Hlen)).
    reflexivity.
  - intros fails o Hf Ho Hlen os calls. apply Hlink. unfold os, calls.
    change (TimerFired :: Inspected "running" :: polls fails ++ [o])
      with ([TimerFired; Inspected "running"] ++ polls fails ++ [o]).
    rewrite (run_probe_app [TimerFired; Inspected "running"]
               (mkProbe sid p c ProbeTimer) _
               [ContainerInspect c; HttpGet (checkUrl p)] (ProbeGet 0) eq_refl).
    cbn [p_sessionId p_port p_container].
    assert (Hlt : (0 + List.length fails < maxAttempts)%nat) by lia.
    rewrite (run_probe_app _ _ _ _ _ (poll_failures sid c p fails 0 Hf Hlt)).
    cbn [run_probe p_sessionId p_port p_container Nat.add].
    assert (Hstop : (S (List.length fails) <? maxAttempts)%nat = false)
      by (apply Nat.ltb_ge; lia).
    unfold resume_probe, retry. cbn [p_pc].
    destruct o; try discriminate; simpl in Ho.
    + now rewrite Hstop.
    + apply negb_true_iff in Ho. now rewrite Ho, Hstop.
  - intros w1 i t o w2. apply probe_step_frame.
Qed.

(** The probe armed for the session of [starting_world] once its
    container has started; the server answers 503, then refuses the
    connection, then answers 200: three requests, two timers. *)
Lemma readiness_poll_bounded_witness :
  run InContainerClone
    (default boot (run InContainerClone boot (starting_events ++ [Settle 0 Resolved])))
    (List.map (Settle 1)
       [TimerFired; Inspected "running"; HttpAnswered 503; TimerFired;
        Rejected "ECONNREFUSED"; TimerFired; HttpAnswered 200]) =
    Some (mkWorld
            [("s1", mkSession "s1" "https://example.com/demo.git" 8080 running
                      (Some "c1") None)]
            ∅ 2%nat
            [(0%nat, mkResponse 200
                       (CreatedBody "s1" "https://example.com/demo.git" 8080 running
                          "http://localhost:8080"))]
            [ServerListen 8080; Console LogCreating; Console LogConfig;
             CreateContainer
               (containerConfig InContainerClone "s1" "https://example.com/demo.git" 8080);
             ContainerStart "c1"; SetTimeout 2000; Console LogStarted;
             ContainerInspect "c1"; HttpGet "http://localhost:8080";
             SetTimeout 1000; HttpGet "http://localhost:8080";
             SetTimeout 1000; HttpGet "http://localhost:8080";
             Console LogResponding]).
Proof.
  destruct (readiness_poll_bounded InContainerClone
              (default boot
                 (run InContainerClone boot (starting_events ++ [Settle 0 Resolved])))
              1 "s1" "c1" 8080) as (_ & Hok & _).
  - apply (reachable_invariant InContainerClone).
    exists (starting_events ++ [Settle 0 Resolved]). vm_compute. reflexivity.
  - vm_compute. reflexivity.
  - destruct (Hok [HttpAnswered 503; Rejected "ECONNREFUSED"] eq_refl) as [Hrun _].
    + unfold maxAttempts. simpl. lia.
    + etransitivity; [exact Hrun|]. vm_compute. reflexivity.
Defined.

(** ** Deleting a session that is not in the registry *)

(** C9.  A delete request for an id that is not a key of the registry is
    answered 404 in its first turn; the registry, the suspended handlers and
    the trace of outside calls are unchanged: no container is stopped and no
    directory is removed. *)
Theorem delete_unknown_session (v : Variant) (w : World) (sid : string) :
  JsMap.get sid (activeSessions w) = None ->
  step v w (DeleteDevServer sid) =
    Some (mkWorld (activeSessions w) (tasks w) (S (next_task w))
            (responses w ++ [(next_task w, mkResponse 404 (ErrorBody "Session not found"))])
            (effects w)).
Proof.
  intros Hget. simpl. unfold accept, delete_dev_server. rewrite Hget. simpl.
  now rewrite app_nil_r.
Qed.

(** A delete sent to the freshly started process. *)
Lemma delete_unknown_session_witness :
  step InContainerClone boot (DeleteDevServer "no-such-session") =
    Some (mkWorld [] ∅ 1%nat
            [(0%nat, mkResponse 404 (ErrorBody "Session not found"))] []).
Proof.
  apply (delete_unknown_session InContainerClone boot "no-such-session"). reflexivity.
Defined.

(** ** The error path of the create handler *)

Lemma unfinished_pending url (m : Registry) k s :
  NoDup (JsMap.keys m) -> In (k, s) m -> unfinished url m k = pending url s.
Proof.
  intros Hnd Hin. unfold unfinished. now rewrite (JsMapFacts.In_get k s m Hnd Hin).
Qed.

Lemma pending_spec url s :
  pending url s = true <-> repoUrl s = url /\ status s <> running.
Proof.
  unfold pending. rewrite andb_true_iff, String.eqb_eq, negb_true_iff.
  destruct (status s); simpl; intuition congruence.
Qed.

Lemma find_keys_split (f : string -> bool) (m : Registry) k :
  List.find f (JsMap.keys m) = Some k ->
  exists m1 s m2,
    m = m1 ++ (k, s) :: m2 /\ f k = true /\
    forall k1 s1, In (k1, s1) m1 -> f k1 = false.
Proof.
  unfold JsMap.keys. induction m as [|[k0 s0] m IH]; simpl; [discriminate|].
  destruct (f k0) eqn:E.
  - intros [= <-]. exists [], s0, m. repeat split; auto. intros k1 s1 [].
  - intros H. destruct (IH H) as (m1 & s & m2 & -> & Hk & Hm1).
    exists ((k0, s0) :: m1), s, m2. repeat split; auto.
    intros k1 s1 [[= <- <-]|Hin]; eauto.
Qed.

Lemma delete_absent (k : string) (m : Registry) :
  ~ In k (JsMap.keys m) -> JsMap.delete k m = m.
Proof.
  unfold JsMap.delete, JsMap.keys. induction m as [|[k0 s0] m IH]; simpl; auto.
  intros Hn. destruct (String.eqb k k0) eqn:E; simpl.
  - apply String.eqb_eq in E. subst k0. exfalso. apply Hn. now left.
  - f_equal. apply IH. intros Hin. apply Hn. now right.
Qed.

Lemma delete_middle (k : string) (s : Session) (m1 m2 : Registry) :
  NoDup (JsMap.keys (m1 ++ (k, s) :: m2)) ->
  JsMap.delete k (m1 ++ (k, s) :: m2) = m1 ++ m2.
Proof.
  unfold JsMap.keys. rewrite List.map_app. simpl. intros Hnd.
  apply NoDup_app in Hnd as (_ & Hdisj & Hnd2).
  apply NoDup_cons in Hnd2 as [Hk2 _].
  unfold JsMap.delete. rewrite List.filter_app. simpl.
  rewrite String.eqb_refl. simpl.
  fold (JsMap.delete k m1). fold (JsMap.delete k m2).
  rewrite !delete_absent; auto.
  - intros Hin. apply Hk2. now apply list_elem_of_In.
  - intros Hin. apply (Hdisj k); [now apply list_elem_of_In | left].
Qed.

(** What the [catch] block does to the registry: nothing, or it takes out
    the first session in insertion order that is [pending]. *)
Lemma catch_create_frame t message (m : Registry) :
  NoDup (JsMap.keys m) ->
  t_sessions (catch_create t message m) = m \/
  exists m1 k s m2,
    m = m1 ++ (k, s) :: m2 /\
    t_sessions (catch_create t message m) = m1 ++ m2 /\
    pending (c_repoUrl t) s = true /\
    forall k1 s1, In (k1, s1) m1 -> pending (c_repoUrl t) s1 = false.
Proof.
  intros Hnd.
  destruct (catch_create_sessions t message m) as [H|(k & Hfind & ->)]; [now left|].
  right. apply find_keys_split in Hfind as (m1 & s & m2 & Hm & Hk & Hm1).
  exists m1, k, s, m2. split; [exact Hm|]. split; [|split].
  - rewrite Hm in Hnd |- *. now apply delete_middle.
  - rewrite <- Hk. symmetry. apply unfinished_pending; auto.
    rewrite Hm. apply in_or_app. right. now left.
  - intros k1 s1 Hin. rewrite <- (Hm1 k1 s1 Hin). symmetry.
    apply unfinished_pending; auto. rewrite Hm. apply in_or_app. now left.
Qed.

(** The rollback does reach the request's own session when no unfinished
    session of the same repository was inserted before it. *)
Lemma catch_create_own t message (pre post : Registry) (s0 : Session) :
  NoDup (JsMap.keys (pre ++ (c_sessionId t, s0) :: post)) ->
  truthy (c_repoUrl t) = true -> truthy (c_sessionId t) = true ->
  pending (c_repoUrl t) s0 = true ->
  (forall k s, In (k, s) pre -> pending (c_repoUrl t) s = false) ->
  t_sessions (catch_create t message (pre ++ (c_sessionId t, s0) :: post)) = pre ++ post.
Proof.
  intros Hnd Hurl Hsid Hown Hpre.
  set (m := pre ++ (c_sessionId t, s0) :: post) in *.
  assert (Hfind : List.find (unfinished (c_repoUrl t) m) (JsMap.keys m)
                  = Some (c_sessionId t)).
  { assert (Hgen : forall l,
               (forall k s, In (k, s) l -> unfinished (c_repoUrl t) m k = false) ->
               List.find (unfinished (c_repoUrl t) m)
                 (JsMap.keys (l ++ (c_sessionId t, s0) :: post)) = Some (c_sessionId t)).
    { induction l as [|[k s] l IH]; simpl; intros Hl.
      - rewrite (unfinished_pending _ m _ s0 Hnd), Hown; [reflexivity|].
        subst m. apply in_or_app. right. now left.
      - rewrite (Hl k s) by now left. apply IH. intros k' s' Hin. apply (Hl k' s'). now right. }
    apply Hgen. intros k s Hin.
    rewrite (unfinished_pending _ m k s Hnd); [now apply (Hpre k)|].
    subst m. apply in_or_app. now left. }
  unfold catch_create. rewrite Hurl, Hfind, Hsid. simpl.
  subst m. now apply delete_middle.
Qed.

Lemma in_catch_sessions v t o m turn :
  resume_create v t o m = Some turn -> in_catch t turn ->
  exists message, t_sessions turn = t_sessions (catch_create t message m).
Proof.
  intros H [Hpc Hend]. destruct t as [sid url pc]. unfold resume_create in H.
  cbn [c_pc c_sessionId c_repoUrl] in *.
  destruct pc, o; try discriminate;
    try (exfalso; eapply Hpc; reflexivity);
    repeat match type of H with
      | context [match ?x with _ => _ end] => destruct x
      end;
    try discriminate;
    injection H as <-; cbn [t_sessions t_next t_response suspend respond after] in *;
    try (eexists; reflexivity);
    exfalso; destruct Hend as [[message Hr]|[message Hn]]; discriminate.
Qed.

(** C10.  When a turn of the create handler runs the error path, the
    registry loses at most one entry: either it is unchanged, or exactly the
    first entry in insertion order whose [repoUrl] is the request's and whose
    status is not [running] is taken out, the others keeping their order and
    content.  So every [running] session and every session of another
    repository is still there, unchanged.  The entry is found by its
    [repoUrl] alone: a failing request with another session id and the same
    [repoUrl] takes out the same entry.  ([step] installs [t_sessions turn]
    as the registry of the next world.) *)
Theorem failed_create_cleanup_frame (v : Variant) (t : CreateTask) (o : Outcome)
    (m : Registry) (turn : Turn) :
  NoDup (JsMap.keys m) ->
  resume_create v t o m = Some turn ->
  in_catch t turn ->
  (t_sessions turn = m \/
   exists m1 k s m2,
     m = m1 ++ (k, s) :: m2 /\ t_sessions turn = m1 ++ m2 /\
     repoUrl s = c_repoUrl t /\ status s <> running /\
     forall k1 s1, In (k1, s1) m1 ->
       ~ (repoUrl s1 = c_repoUrl t /\ status s1 <> running))
  /\ (forall k s, JsMap.get k m = Some s ->
        status s = running \/ repoUrl s <> c_repoUrl t ->
        JsMap.get k (t_sessions turn) = Some s)
  /\ (forall sid' pc' message',
        t_sessions (catch_create (mkCreate sid' (c_repoUrl t) pc') message' m) =
        t_sessions turn).
Proof.
  intros Hnd Hturn Hcatch.
  destruct (in_catch_sessions _ _ _ _ _ Hturn Hcatch) as [message ->].
  split; [|split].
  - destruct (catch_create_frame t message m Hnd)
      as [H|(m1 & k & s & m2 & Hm & Hm' & Hs & Hm1)]; [now left|].
    right. exists m1, k, s, m2. apply pending_spec in Hs as [Hurl Hst].
    repeat split; auto.
    intros k1 s1 Hin Hp. apply pending_spec in Hp.
    rewrite (Hm1 k1 s1 Hin) in Hp. discriminate.
  - intros k s Hget Hkeep.
    destruct (catch_create_sessions t message m) as [->|(k0 & Hfind & ->)]; auto.
    rewrite JsMapFacts.get_delete_ne; auto. intros <-.
    apply find_some in Hfind as [_ Hun]. unfold unfinished in Hun.
    rewrite Hget in Hun. fold (pending (c_repoUrl t) s) in Hun.
    apply pending_spec in Hun. tauto.
  - intros sid' pc' message'. unfold catch_create. simpl.
    destruct (truthy (c_repoUrl t)); auto.
    destruct (List.find _ _) as [k|]; auto.
    destruct (truthy k); auto.
Qed.

(** The request of [s2] fails at [container.start()]: the entry of [s1] is
    taken out, the running [s0] stays. *)
Lemma failed_create_cleanup_frame_witness :
  exists turn,
    resume_create InContainerClone
      (mkCreate "s2" "https://example.com/demo.git" (AwaitStart 49153 "c2"))
      (Rejected "container start failed") crowded = Some turn /\
    JsMap.keys (t_sessions turn) = ["s0"; "s2"] /\
    JsMap.get "s0" (t_sessions turn) =
      Some (mkSession "s0" "https://example.com/demo.git" 8080 running (Some "c0") None).
Proof.
  eexists. split; [reflexivity|]. split; [reflexivity|].
  refine (proj1 (proj2 (failed_create_cleanup_frame InContainerClone
                          (mkCreate "s2" "https://example.com/demo.git" (AwaitStart 49153 "c2"))
                          (Rejected "container start failed") crowded _ _ eq_refl _))
            "s0" _ eq_refl _).
  - repeat (apply NoDup_cons; split;
            [intros H%list_elem_of_In; simpl in H; intuition discriminate|]).
    constructor.
  - split; [discriminate|]. right. eexists. reflexivity.
  - now left.
Defined.

(** * Further properties of the handlers *)

(** ** One response per request *)

(** A turn that sends the response is the handler's last. *)
Lemma response_is_final v w id k o turn :
  tasks w !! id = Some k ->
  match k with
  | TCreate t => resume_create v t o (activeSessions w)
  | TDelete t => resume_delete t o (activeSessions w)
  | TProbe t => probe_turn t o (activeSessions w)
  end = Some turn ->
  forall r, t_response turn = Some r -> t_next turn = None.
Proof.
  intros _ Hturn r Hr. destruct k as [t|t|t].
  - destruct t as [sid url pc]. unfold resume_create in Hturn.
    cbn [c_pc c_sessionId c_repoUrl] in Hturn.
    assert (Hcatch : forall message pre spawn,
               t_response (after pre spawn (catch_create (mkCreate sid url pc) message
                                              (activeSessions w))) = Some r ->
               t_next (after pre spawn (catch_create (mkCreate sid url pc) message
                                          (activeSessions w))) = None).
    { intros message pre spawn. unfold catch_create. cbn [c_repoUrl c_sessionId].
      destruct (truthy url); [|reflexivity].
      destruct (List.find _ _) as [x|]; [|reflexivity].
      destruct (truthy x); [discriminate | reflexivity]. }
    assert (Hcatch0 : forall message,
               t_response (catch_create (mkCreate sid url pc) message (activeSessions w))
               = Some r ->
               t_next (catch_create (mkCreate sid url pc) message (activeSessions w)) = None).
    { intros message. apply (Hcatch message [] None). }
    destruct pc, o; try discriminate;
      repeat match type of Hturn with
        | context [match ?x with _ => _ end] => destruct x
        end;
      try discriminate;
      injection Hturn as <-; auto; try discriminate.
  - unfold resume_delete in Hturn.
    destruct (d_pc t), o; try discriminate; injection Hturn as <-; auto; discriminate.
  - apply probe_turn_frame in Hturn as (_ & Hnone & _). congruence.
Qed.

(** The first turn of a request either answers or suspends. *)
Lemma arrival_is_final body uuid sid (m : Registry) :
  (forall r, t_response (post_dev_server body uuid m) = Some r ->
             t_next (post_dev_server body uuid m) = None) /\
  (forall r, t_response (get_dev_server m) = Some r -> t_next (get_dev_server m) = None) /\
  (forall r, t_response (delete_dev_server sid m) = Some r ->
             t_next (delete_dev_server sid m) = None).
Proof.
  unfold post_dev_server, get_dev_server, delete_dev_server. repeat split.
  - destruct body as [url|]; [destruct (truthy url)|]; simpl; auto; discriminate.
  - destruct (JsMap.get sid m) as [s|]; simpl; auto.
    destruct (containerId s) as [c|]; [destruct (truthy c)|]; discriminate.
Qed.

Lemma answered_new (w : World) id r :
  NoDup (List.map fst (responses w)) ->
  (forall r0, ~ In (id, r0) (responses w)) ->
  NoDup (List.map fst (responses w ++ [(id, r)])).
Proof.
  intros Hnd Hfresh. rewrite List.map_app. simpl.
  apply NoDup_app. split; [exact Hnd|]. split.
  - intros x Hx Hx'. apply list_elem_of_In in Hx, Hx'.
    destruct Hx' as [<-|[]]. apply in_map_iff in Hx as ([i r0] & <- & Hin).
    now apply (Hfresh r0).
  - apply NoDup_cons. split; [intros H%list_elem_of_In; destruct H | constructor].
Qed.

Lemma accept_answered w t :
  tasks_bounded w ->
  (forall r, t_response t = Some r -> t_next t = None) ->
  answered_once w -> answered_once (accept w t).
Proof.
  intros Hb Hfin [Hnd Hans]. split.
  - unfold accept; simpl. destruct (t_response t) as [r|].
    + apply answered_new; auto. intros r0 Hin. apply Hans in Hin as [_ Hlt]. lia.
    + now rewrite app_nil_r.
  - intros i r. unfold accept; simpl. intros Hin.
    apply in_app_or in Hin as [Hin|Hin].
    + apply Hans in Hin as [Hnone Hlt]. split; [|lia].
      destruct (t_next t); [rewrite lookup_insert_ne by lia|]; exact Hnone.
    + destruct (t_response t) as [r0|] eqn:Hr; [|destruct Hin].
      destruct Hin as [[= <- <-]|[]]. split; [|lia].
      rewrite (Hfin r0 eq_refl). apply Hb. lia.
Qed.

Lemma commit_answered w id k turn :
  tasks_bounded w -> tasks w !! id = Some k ->
  (forall r, t_response turn = Some r -> t_next turn = None) ->
  answered_once w -> answered_once (commit w id (next_task w) turn).
Proof.
  intros Hb Hk Hfin [Hnd Hans].
  pose proof (task_below _ _ _ Hb Hk) as Hlt. split.
  - unfold commit; simpl. destruct (t_response turn) as [r|].
    + apply answered_new; auto. intros r0 Hin. apply Hans in Hin as [Hnone _]. congruence.
    + now rewrite app_nil_r.
  - intros i r. unfold commit; simpl. intros Hin.
    assert (Hnext : (next_task w <=
                     match t_spawn turn with Some _ => S (next_task w) | None => next_task w end)%nat)
      by (destruct (t_spawn turn); lia).
    apply in_app_or in Hin as [Hin|Hin].
    + apply Hans in Hin as [Hnone Hi]. split; [|lia].
      assert (i <> id) by congruence.
      assert (Hkept : match t_next turn with
                      | Some k0 => <[id:=k0]> (tasks w)
                      | None => base.delete id (tasks w)
                      end !! i = None).
      { destruct (t_next turn); [now rewrite lookup_insert_ne | now rewrite lookup_delete_ne]. }
      destruct (t_spawn turn); [rewrite lookup_insert_ne by lia|]; exact Hkept.
    + destruct (t_response turn) as [r0|] eqn:Hr; [|destruct Hin].
      destruct Hin as [[= <- <-]|[]]. split; [|lia].
      rewrite (Hfin r0 eq_refl).
      destruct (t_spawn turn); [rewrite lookup_insert_ne by lia|];
        apply lookup_delete_eq.
Qed.

Lemma step_answered v w e w' :
  tasks_bounded w -> step v w e = Some w' -> answered_once w -> answered_once w'.
Proof.
  intros Hb Hstep Hans. destruct e as [body uuid| |sid|id o]; simpl in Hstep.
  - injection Hstep as <-. apply accept_answered; auto.
    apply (arrival_is_final body uuid EmptyString).
  - injection Hstep as <-. apply accept_answered; auto.
  - injection Hstep as <-. apply accept_answered; auto.
    apply (arrival_is_final None EmptyString sid).
  - destruct (tasks w !! id) as [k|] eqn:Hk; [|discriminate].
    destruct k as [t|t|t].
    + destruct (resume_create v t o _) as [turn|] eqn:Et; [|discriminate].
      injection Hstep as <-. apply (commit_answered w id (TCreate t)); auto.
      apply (response_is_final v w id (TCreate t) o turn Hk Et).
    + destruct (resume_delete t o _) as [turn|] eqn:Et; [|discriminate].
      injection Hstep as <-. apply (commit_answered w id (TDelete t)); auto.
      apply (response_is_final v w id (TDelete t) o turn Hk Et).
    + destruct (probe_turn t o _) as [turn|] eqn:Et; [|discriminate].
      injection Hstep as <-. apply (commit_answered w id (TProbe t)); auto.
      apply (response_is_final v w id (TProbe t) o turn Hk Et).
Qed.

(** X1.  No request is answered twice, and a request that has been answered
    has no handler left suspended: in every reachable world the request
    numbers of the responses are distinct, below the next free number, and
    not among the suspended tasks. *)
Theorem every_request_answered_once (v : Variant) (w : World) :
  reachable v w ->
  NoDup (List.map fst (responses w)) /\
  forall id r, In (id, r) (responses w) ->
    tasks w !! id = None /\ (id < next_task w)%nat.
Proof.
  intros [es Hrun].
  assert (Hgen : forall es w0 w1,
             tasks_bounded w0 -> answered_once w0 ->
             run v w0 es = Some w1 -> answered_once w1).
  { clear. induction es as [|e es IH]; simpl; intros w0 w1 Hb Hans.
    - now intros [= <-].
    - destruct (step v w0 e) as [w'|] eqn:E; [|discriminate]. intros Hrun.
      apply (IH w' w1); auto; [eapply step_bounded | eapply step_answered]; eauto. }
  apply (Hgen es boot w); auto.
  - intros i _. apply lookup_empty.
  - split; [constructor | intros id r []].
Qed.

(** In [demo_world] the one request has its one response. *)
Lemma every_request_answered_once_witness :
  List.map fst (responses demo_world) = [0%nat] /\
  NoDup (List.map fst (responses demo_world)).
Proof.
  split; [reflexivity|].
  apply (every_request_answered_once HostClone demo_world). exact demo_reachable.
Defined.

(** ** The create handler always answers *)

(** A turn of the create handler suspends closer to the answer, or
    answers. *)
Lemma resume_create_progress v t o m turn :
  resume_create v t o m = Some turn ->
  (exists pc', t_next turn = Some (TCreate (mkCreate (c_sessionId t) (c_repoUrl t) pc')) /\
               (turns_left pc' < turns_left (c_pc t))%nat)
  \/ (t_next turn = None /\ exists r, t_response turn = Some r).
Proof.
  destruct t as [sid url pc]. unfold resume_create.
  cbn [c_pc c_sessionId c_repoUrl].
  assert (Hcatch : forall message pre spawn,
             (1 < turns_left pc)%nat ->
             let turn := after pre spawn (catch_create (mkCreate sid url pc) message m) in
             (exists pc', t_next turn = Some (TCreate (mkCreate sid url pc')) /\
                          (turns_left pc' < turns_left pc)%nat)
             \/ (t_next turn = None /\ exists r, t_response turn = Some r)).
  { intros message pre spawn Hpc. unfold catch_create. cbn [c_repoUrl c_sessionId].
    destruct (truthy url); [|right; simpl; eauto].
    destruct (List.find _ _) as [x|]; [|right; simpl; eauto].
    destruct (truthy x); [left | right; simpl; eauto].
    exists (AwaitCleanup message). simpl. split; [reflexivity | exact Hpc]. }
  destruct pc, o; try discriminate; intros H;
    repeat match type of H with
      | context [match ?x with _ => _ end] => destruct x
      end;
    try discriminate;
    injection H as <-;
    try (apply (Hcatch _ [] None); simpl; lia);
    try (apply Hcatch; simpl; lia);
    try (right; simpl; eauto; fail);
    left; eexists; (split; [reflexivity | simpl; lia]).
Qed.





(** ** Who stops a container *)

Lemma catch_create_no_stop t message m :
  List.filter is_stop (t_effects (catch_create t message m)) = [].
Proof.
  unfold catch_create. destruct (truthy (c_repoUrl t)); [|reflexivity].
  destruct (List.find _ _) as [x|]; [|reflexivity].
  destruct (truthy x); reflexivity.
Qed.

(** The create handler stops no container, on any path. *)
Lemma resume_create_no_stop v t o m turn :
  resume_create v t o m = Some turn -> List.filter is_stop (t_effects turn) = [].
Proof.
  assert (Hprobe : forall h, List.filter is_stop
                               (List.map ServerListen (List.tl (listens (findAvailablePort h 8080)))) = []).
  { intros h. now rewrite findAvailablePort_listens. }
  destruct t as [sid url pc]. unfold resume_create.
  cbn [c_pc c_sessionId c_repoUrl].
  destruct pc, o; try discriminate; intros H;
    repeat match type of H with
      | context [match ?x with _ => _ end] => destruct x
      end;
    try discriminate;
    injection H as <-;
    cbn [t_effects suspend respond after fst snd];
    rewrite ?List.filter_app, ?Hprobe, ?catch_create_no_stop; reflexivity.
Qed.

Lemma probe_turn_no_stop t o m turn :
  probe_turn t o m = Some turn -> List.filter is_stop (t_effects turn) = [].
Proof.
  unfold probe_turn, resume_probe, retry, check.
  destruct (p_pc t), o; try discriminate; intros H;
    repeat match type of H with
      | context [if ?x then _ else _] => destruct x
      end;
    injection H as <-; reflexivity.
Qed.

(** X3.  Only the delete route stops containers.  Along a run without a
    delete request no [container.stop()] is ever called: in particular a
    creation that fails after [docker.createContainer] or after
    [container.start()] leaves its container as it is. *)
Theorem only_delete_stops_containers (v : Variant) (es : list Event) (w : World) :
  (forall sid, ~ In (DeleteDevServer sid) es) ->
  run v boot es = Some w ->
  forall c, ~ In (ContainerStop c) (effects w).
Proof.
  assert (Hgen : forall es w0 w1,
             (forall sid, ~ In (DeleteDevServer sid) es) ->
             tasks_bounded w0 -> no_delete_pending w0 ->
             List.filter is_stop (effects w0) = [] ->
             run v w0 es = Some w1 ->
             List.filter is_stop (effects w1) = []).
  { clear. induction es as [|e es IH]; simpl; intros w0 w1 Hno Hb Hnd Heff.
    - now intros [= <-].
    - destruct (step v w0 e) as [w'|] eqn:E; [|discriminate]. intros Hrun.
      assert (Hrest : forall sid, ~ In (DeleteDevServer sid) es)
        by (intros sid Hin; apply (Hno sid); now right).
      apply (IH w' w1 Hrest); auto; [eapply step_bounded; eauto | |].
      + (* still no delete handler *)
        destruct e as [body uuid| |sid|id o]; simpl in E.
        * injection E as <-. intros i t. unfold accept, post_dev_server; simpl.
          destruct body as [url|]; [destruct (truthy url)|]; simpl; try apply Hnd.
          destruct (decide (next_task w0 = i)) as [<-|Hne].
          -- rewrite lookup_insert_eq. discriminate.
          -- rewrite lookup_insert_ne by auto. apply Hnd.
        * injection E as <-. apply Hnd.
        * exfalso. apply (Hno sid). now left.
        * destruct (tasks w0 !! id) as [k|] eqn:Hk; [|discriminate].
          assert (Hcom : forall turn,
                     (forall t, t_next turn <> Some (TDelete t)) ->
                     no_delete_pending (commit w0 id (next_task w0) turn)).
          { intros turn Hn i t. unfold commit; simpl.
            assert (Hkept : match t_next turn with
                            | Some k0 => <[id:=k0]> (tasks w0)
                            | None => base.delete id (tasks w0)
                            end !! i <> Some (TDelete t)).
            { destruct (t_next turn) as [k0|] eqn:En.
              - destruct (decide (id = i)) as [<-|Hne].
                + rewrite lookup_insert_eq. intros [= ->]. now apply (Hn t).
                + rewrite lookup_insert_ne by auto. apply Hnd.
              - destruct (decide (id = i)) as [<-|Hne].
                + rewrite lookup_delete_eq. discriminate.
                + rewrite lookup_delete_ne by auto. apply Hnd. }
            destruct (t_spawn turn); auto.
            destruct (decide (next_task w0 = i)) as [<-|Hne].
            - rewrite lookup_insert_eq. discriminate.
            - now rewrite lookup_insert_ne by auto. }
          destruct k as [t|t|t]; [| exfalso; now apply (Hnd id t) |].
          -- destruct (resume_create v t o _) as [turn|] eqn:Et; [|discriminate].
             injection E as <-. apply Hcom. intros t0 Hn.
             destruct (resume_create_progress _ _ _ _ _ Et) as [(pc' & Hn' & _)|(Hn' & _)];
               congruence.
          -- destruct (probe_turn t o _) as [turn|] eqn:Et; [|discriminate].
             injection E as <-. apply Hcom. intros t0 Hn.
             unfold probe_turn in Et.
             destruct (resume_probe t o) as [[effs [pc|]]|]; try discriminate;
               injection Et as <-; discriminate.
      + (* still no stop *)
        destruct e as [body uuid| |sid|id o]; simpl in E.
        * injection E as <-. unfold accept, post_dev_server; simpl.
          rewrite List.filter_app, Heff.
          destruct body as [url|]; [destruct (truthy url)|]; reflexivity.
        * injection E as <-. unfold accept; simpl. now rewrite List.filter_app, Heff.
        * exfalso. apply (Hno sid). now left.
        * destruct (tasks w0 !! id) as [[t|t|t]|] eqn:Hk; try discriminate.
          -- destruct (resume_create v t o _) as [turn|] eqn:Et; [|discriminate].
             injection E as <-. unfold commit; simpl.
             now rewrite List.filter_app, Heff, (resume_create_no_stop _ _ _ _ _ Et).
          -- exfalso. now apply (Hnd id t).
          -- destruct (probe_turn t o _) as [turn|] eqn:Et; [|discriminate].
             injection E as <-. unfold commit; simpl.
             now rewrite List.filter_app, Heff, (probe_turn_no_stop _ _ _ _ Et). }
  intros Hno Hrun c Hin.
  assert (Hf : List.filter is_stop (effects w) = []).
  { apply (Hgen es boot w); auto.
    - intros i _. apply lookup_empty.
    - intros i t. simpl. rewrite lookup_empty. discriminate. }
  assert (Hc : In (ContainerStop c) (List.filter is_stop (effects w)))
    by (apply filter_In; auto).
  rewrite Hf in Hc. destruct Hc.
Qed.

(** The creation of [starting_events] fails at [container.start()]: the
    container [c1] was created and is never stopped. *)
Lemma only_delete_stops_containers_witness :
  exists w,
    run InContainerClone boot
      (starting_events ++ [Settle 0 (Rejected "container start failed");
                           Settle 0 Resolved]) = Some w /\
    response_of w 0 = Some (failed "container start failed") /\
    In (ContainerStart "c1") (effects w) /\
    ~ In (ContainerStop "c1") (effects w).
Proof.
  eexists. split; [vm_compute; reflexivity|]. split; [reflexivity|].
  split; [simpl; tauto|].
  apply (only_delete_stops_containers InContainerClone
           (starting_events ++ [Settle 0 (Rejected "container start failed");
                                Settle 0 Resolved])).
  - intros sid Hin. simpl in Hin. intuition discriminate.
  - vm_compute. reflexivity.
Defined.

(** ** The list route *)

(** X4.  The list route is a snapshot without side effects: it answers 200
    in its first turn with one summary per session of the registry, in
    insertion order and each id once, and leaves the registry, the suspended
    handlers and the trace of outside calls as they were. *)
Theorem list_is_a_snapshot (v : Variant) (w : World) :
  reachable v w ->
  step v w GetDevServer =
    Some (mkWorld (activeSessions w) (tasks w) (S (next_task w))
            (responses w ++
               [(next_task w, mkResponse 200 (SessionsBody (list_now w)))])
            (effects w))
  /\ List.map sum_sessionId (list_now w) = JsMap.keys (activeSessions w)
  /\ NoDup (List.map sum_sessionId (list_now w))
  /\ (forall sid s, JsMap.get sid (activeSessions w) = Some s -> In (summary s) (list_now w))
  /\ (forall x, In x (list_now w) ->
        exists s, JsMap.get (sum_sessionId x) (activeSessions w) = Some s /\ x = summary s).
Proof.
  intros Hreach. destruct (reachable_invariant _ _ Hreach) as [[Hnd Hco] _].
  assert (Hkeys : List.map sum_sessionId (list_now w) = JsMap.keys (activeSessions w)).
  { unfold list_now, list_sessions, JsMap.values, JsMap.keys.
    rewrite !List.map_map. apply map_ext_in. intros [k s] Hin. simpl. now apply Hco. }
  split; [|split; [|split; [|split]]].
  - simpl. unfold accept. simpl. now rewrite app_nil_r.
  - exact Hkeys.
  - now rewrite Hkeys.
  - intros sid s Hget. unfold list_now, list_sessions, JsMap.values.
    apply in_map, in_map_iff. exists (sid, s). split; auto.
    now apply JsMapFacts.get_Some_In.
  - intros x Hx. unfold list_now, list_sessions, JsMap.values in Hx.
    apply in_map_iff in Hx as (s & <- & Hs).
    apply in_map_iff in Hs as ([k s'] & <- & Hin). simpl.
    exists s'. split; auto. rewrite (Hco k s' Hin).
    now apply JsMapFacts.In_get.
Qed.

(** The list of [demo_world] shows its one session. *)
Lemma list_is_a_snapshot_witness :
  List.map sum_sessionId (list_now demo_world) = ["s1"] /\
  In (summary demo_session) (list_now demo_world).
Proof.
  destruct (list_is_a_snapshot HostClone demo_world demo_reachable)
    as (_ & _ & _ & Hin & _).
  split; [reflexivity|]. apply (Hin "s1"). reflexivity.
Defined.

(** ** A creation that runs undisturbed *)

Lemma get_last (k : string) (s : Session) (m : Registry) :
  JsMap.get k m = None -> JsMap.get k (m ++ [(k, s)]) = Some s.
Proof.
  induction m as [|[k0 s0] m IH]; simpl.
  - now rewrite String.eqb_refl.
  - destruct (String.eqb k k0); [discriminate | exact IH].
Qed.

Lemma set_last (k : string) (s s' : Session) (m : Registry) :
  JsMap.get k m = None -> JsMap.set k s' (m ++ [(k, s)]) = m ++ [(k, s')].
Proof.
  induction m as [|[k0 s0] m IH]; simpl.
  - now rewrite String.eqb_refl.
  - destruct (String.eqb k k0); [discriminate|]. intros H. now rewrite IH.
Qed.

Lemma create_clone_resolved v w id sid url p s :
  tasks w !! id = Some (TCreate (mkCreate sid url (AwaitClone p))) ->
  JsMap.get sid (activeSessions w) = Some s ->
  step v w (Settle id Resolved) =
    Some (mkWorld (JsMap.set sid (with_status starting s) (activeSessions w))
            (<[id := TCreate (mkCreate sid url (AwaitCreateContainer p))]> (tasks w))
            (next_task w) (responses w)
            (effects w ++
               [Console LogCreating; CreateContainer (containerConfig v sid url p)])).
Proof.
  intros Ht Hget. simpl. rewrite Ht. unfold resume_create.
  cbn [c_pc c_sessionId c_repoUrl]. rewrite Hget.
  unfold commit; simpl. now rewrite app_nil_r.
Qed.

Lemma create_container_created v w id sid url p c :
  tasks w !! id = Some (TCreate (mkCreate sid url (AwaitCreateContainer p))) ->
  step v w (Settle id (ContainerCreated c)) =
    Some (mkWorld (activeSessions w)
            (<[id := TCreate (mkCreate sid url (AwaitStart p c))]> (tasks w))
            (next_task w) (responses w) (effects w ++ [ContainerStart c])).
Proof.
  intros Ht. simpl. rewrite Ht. unfold resume_create.
  cbn [c_pc c_sessionId c_repoUrl]. unfold commit; simpl. now rewrite app_nil_r.
Qed.

Lemma create_start_resolved v w id sid url p c s :
  tasks w !! id = Some (TCreate (mkCreate sid url (AwaitStart p c))) ->
  JsMap.get sid (activeSessions w) = Some s ->
  step v w (Settle id Resolved) =
    Some (mkWorld
            (JsMap.set sid (with_status running (with_container c s)) (activeSessions w))
            (match armed v sid p c with
             | Some probe => <[next_task w := TProbe probe]> (base.delete id (tasks w))
             | None => base.delete id (tasks w)
             end)
            (match armed v sid p c with
             | Some _ => S (next_task w)
             | None => next_task w
             end)
            (responses w ++
               [(id, mkResponse 200 (CreatedBody sid url p running (checkUrl p)))])
            (effects w ++ start_calls v)).
Proof.
  intros Ht Hget. simpl. rewrite Ht. unfold resume_create.
  cbn [c_pc c_sessionId c_repoUrl]. rewrite Hget.
  destruct v; reflexivity.
Qed.

(** X5.  A creation that runs undisturbed succeeds.  For a non-empty
    [repoUrl], an id that is not in the registry, a host on which 8080 is
    free and promises that all resolve, the request is answered 200 with
    status [running] and port 8080, its session is appended to the registry
    as [running] with the container id stored, the container was created
    with this port and then started, and the handler is finished. *)
Theorem create_alone_succeeds (v : Variant) (w : World) (url uuid c : string)
    (h : Host) :
  truthy url = true ->
  JsMap.get uuid (activeSessions w) = None ->
  ~ In 8080 (bound h) ->
  let p := 8080 in
  exists w',
    run v w (create_alone v (next_task w) url uuid h c) = Some w' /\
    activeSessions w' =
      activeSessions w ++
      [(uuid, with_status running (with_container c (new_session v uuid url p)))] /\
    responses w' =
      responses w ++
      [(next_task w, mkResponse 200 (CreatedBody uuid url p running (checkUrl p)))] /\
    tasks w' !! next_task w = None /\
    List.filter is_docker_run (effects w') =
      List.filter is_docker_run (effects w) ++
      [CreateContainer (containerConfig v uuid url p); ContainerStart c].
Proof.
  intros Hurl Hfresh Hp p.
  set (id := next_task w).
  set (s0 := new_session v uuid url p).
  (* the request, then the port *)
  pose proof (create_arrival v w url uuid Hurl) as H0.
  match type of H0 with _ = Some ?x => set (w0 := x) in * end.
  assert (H1 := create_port_resolved v w0 id uuid url h (lookup_insert_eq _ _ _) Hp).
  fold p in H1.
  match type of H1 with _ = Some ?x => set (w1 := x) in * end.
  assert (Hreg1 : activeSessions w1 = activeSessions w ++ [(uuid, s0)])
    by (apply JsMapFacts.set_fresh; exact Hfresh).
  (* up to the created container *)
  assert (H3 : exists w3,
             run v w1 (match v with HostClone => [Settle id Resolved]
                                  | InContainerClone => [] end ++
                       [Settle id (ContainerCreated c)]) = Some w3 /\
             activeSessions w3 = activeSessions w ++ [(uuid, with_status starting s0)] /\
             tasks w3 !! id = Some (TCreate (mkCreate uuid url (AwaitStart p c))) /\
             next_task w3 = S id /\ responses w3 = responses w /\
             List.filter is_docker_run (effects w3) =
               List.filter is_docker_run (effects w) ++
               [CreateContainer (containerConfig v uuid url p); ContainerStart c]).
  { destruct v.
    - assert (H2 := create_clone_resolved HostClone w1 id uuid url p s0
                      (lookup_insert_eq _ _ _)).
      rewrite Hreg1 in H2. specialize (H2 (get_last _ _ _ Hfresh)).
      rewrite (set_last _ _ _ _ Hfresh) in H2.
      match type of H2 with _ = Some ?x => set (w2 := x) in * end.
      assert (H3 := create_container_created HostClone w2 id uuid url p c
                      (lookup_insert_eq _ _ _)).
      eexists. cbn [app run]. rewrite H2, H3. split; [reflexivity|].
      subst w2 w1 w0.
      cbn [activeSessions tasks next_task responses effects port_calls].
      split; [reflexivity|]. split; [apply lookup_insert_eq|].
      split; [reflexivity|]. split; [reflexivity|].
      rewrite !List.filter_app. simpl. now rewrite ?app_nil_r, <- ?app_assoc.
    - assert (H3 := create_container_created InContainerClone w1 id uuid url p c
                      (lookup_insert_eq _ _ _)).
      eexists. cbn [app run]. rewrite H3. split; [reflexivity|].
      subst w1 w0.
      cbn [activeSessions tasks next_task responses effects port_calls].
      split; [apply JsMapFacts.set_fresh; exact Hfresh|].
      split; [apply lookup_insert_eq|].
      split; [reflexivity|]. split; [reflexivity|].
      rewrite !List.filter_app. simpl. now rewrite ?app_nil_r, <- ?app_assoc. }
  destruct H3 as (w3 & Hrun3 & Hreg3 & Ht3 & Hn3 & Hr3 & He3).
  (* the start *)
  assert (H4 := create_start_resolved v w3 id uuid url p c (with_status starting s0) Ht3).
  rewrite Hreg3 in H4. specialize (H4 (get_last _ _ _ Hfresh)).
  rewrite (set_last _ _ _ _ Hfresh) in H4.
  eexists. split.
  - unfold create_alone. cbn [app run]. rewrite H0. cbn [run]. rewrite H1.
    change (Settle id (ContainerCreated c) :: [Settle id Resolved])
      with ([Settle id (ContainerCreated c)] ++ [Settle id Resolved]).
    rewrite app_assoc.
    assert (Happ : forall es1 es2 wa wb, run v wa es1 = Some wb ->
                     run v wa (es1 ++ es2) = run v wb es2).
    { induction es1 as [|e es1 IH]; simpl; intros es2 wa wb.
      - now intros [= ->].
      - destruct (step v wa e); [apply IH | discriminate]. }
    rewrite (Happ _ _ _ _ Hrun3). cbn [run]. rewrite H4. reflexivity.
  - cbn [activeSessions tasks next_task responses effects].
    split; [|split; [|split]].
    + unfold s0. now destruct v.
    + now rewrite Hr3.
    + destruct (armed v uuid p c).
      * rewrite lookup_insert_ne by (rewrite Hn3; lia). apply lookup_delete_eq.
      * apply lookup_delete_eq.
    + rewrite List.filter_app, He3. unfold start_calls. destruct v; simpl;
        now rewrite app_nil_r.
Qed.

(** The first request of a freshly started process, on a host where
    nothing is bound. *)
Lemma create_alone_succeeds_witness :
  exists w',
    run HostClone boot
      (create_alone HostClone 0 "https://example.com/demo.git" "s1" idle_host "c1")
      = Some w' /\
    JsMap.keys (activeSessions w') = ["s1"] /\
    response_of w' 0 =
      Some (mkResponse 200
              (CreatedBody "s1" "https://example.com/demo.git" 8080 running
                 "http://localhost:8080")).
Proof.
  destruct (create_alone_succeeds HostClone boot
              "https://example.com/demo.git" "s1" "c1" idle_host
              eq_refl eq_refl (fun H : In 8080 [] => H))
    as (w' & Hrun & Hreg & Hresp & _).
  exists w'. split; [exact Hrun|]. split.
  - rewrite Hreg. reflexivity.
  - unfold response_of. rewrite Hresp. reflexivity.
Defined.

(** ** Deleting twice *)

(** X6.  Deleting a session twice: the first request is answered 200
    whatever its stop and its directory removal do, having made the calls
    of the delete handler and no other; the second, sent after the first
    has finished, is answered 404 and makes no outside call at all: it
    leaves the registry, the suspended handlers and the trace as they are.
    The container, if the session had one, is stopped once. *)
Theorem delete_twice (v : Variant) (w : World) (sid : string) (s : Session)
    (o1 o2 : Outcome) :
  JsMap.get sid (activeSessions w) = Some s ->
  settles o1 -> settles o2 ->
  exists w1 w',
    run v w (DeleteDevServer sid ::
             stop_settled (next_task w) s o1 ++ [Settle (next_task w) o2]) = Some w1 /\
    step v w1 (DeleteDevServer sid) = Some w' /\
    activeSessions w1 = JsMap.delete sid (activeSessions w) /\
    responses w1 = responses w ++ [(next_task w, stopped)] /\
    effects w1 =
      effects w ++
      first_call s :: calls_after_stop s o1 ++
      [Console (match o2 with Resolved => LogRemoved | _ => ErrRemoving end)] /\
    activeSessions w' = activeSessions w1 /\
    tasks w' = tasks w1 /\
    effects w' = effects w1 /\
    responses w' =
      responses w1 ++
      [(S (next_task w), mkResponse 404 (ErrorBody "Session not found"))] /\
    List.filter is_stop (effects w') =
      List.filter is_stop (effects w) ++
      match container_of s with
      | Some c => [ContainerStop c]
      | None => []
      end.
Proof.
  intros Hget Ho1 Ho2. set (d := next_task w).
  pose proof (delete_arrival v w sid s Hget) as H0.
  match type of H0 with _ = Some ?x => set (w0 := x) in * end.
  assert (H1 : exists w1,
             run v w0 (stop_settled d s o1) = Some w1 /\
             activeSessions w1 = activeSessions w /\
             tasks w1 !! d = Some (TDelete (mkDelete sid (sessionDir s) AwaitRmdir)) /\
             next_task w1 = S d /\ responses w1 = responses w /\
             effects w1 = effects w ++ first_call s :: calls_after_stop s o1).
  { unfold stop_settled, calls_after_stop. subst w0.
    destruct (container_of s) as [c|] eqn:Ec.
    - rewrite run_one.
      rewrite (delete_stop_settled v _ d sid (sessionDir s) o1 (lookup_insert_eq _ _ _) Ho1).
      eexists. split; [reflexivity|].
      cbn [activeSessions tasks next_task responses effects].
      split; [reflexivity|]. split; [apply lookup_insert_eq|].
      split; [reflexivity|]. split; [reflexivity|].
      now rewrite <- app_assoc.
    - eexists. split; [reflexivity|].
      cbn [activeSessions tasks next_task responses effects].
      split; [reflexivity|]. split; [apply lookup_insert_eq|].
      split; [reflexivity|]. split; reflexivity. }
  destruct H1 as (w1 & Hrun1 & Hreg1 & Ht1 & Hn1 & Hr1 & He1).
  pose proof (delete_rmdir_settled v w1 d sid (sessionDir s) o2 Ht1 Ho2) as H2.
  match type of H2 with _ = Some ?x => set (w2 := x) in * end.
  assert (Happ : forall es1 es2 wa wb, run v wa es1 = Some wb ->
                   run v wa (es1 ++ es2) = run v wb es2).
  { induction es1 as [|e es1 IH]; simpl; intros es2 wa wb.
    - now intros [= ->].
    - destruct (step v wa e); [apply IH | discriminate]. }
  exists w2. eexists. split; [|split].
  - cbn [run]. rewrite H0. rewrite (Happ _ _ _ _ Hrun1). cbn [run]. now rewrite H2.
  - cbn [step]. unfold delete_dev_server. subst w2.
    cbn [activeSessions]. rewrite JsMapFacts.get_delete_eq. reflexivity.
  - subst w2. unfold accept, respond.
    cbn [activeSessions tasks next_task responses effects t_sessions t_next
           t_response t_effects].
    rewrite Hreg1, Hr1, Hn1, He1.
    split; [reflexivity|]. split; [reflexivity|].
    split; [now rewrite <- app_assoc|].
    split; [reflexivity|]. split; [reflexivity|].
    split; [now rewrite app_nil_r|]. split; [reflexivity|].
    rewrite app_nil_r, !List.filter_app. unfold first_call, calls_after_stop.
    destruct (container_of s); destruct o2; simpl; now rewrite ?app_nil_r.
Qed.

(** The session of [demo_world] is deleted twice; its stop fails. *)
Lemma delete_twice_witness :
  exists w1 w',
    run HostClone demo_world
      [DeleteDevServer "s1"; Settle 1 (Rejected "no such container");
       Settle 1 Resolved] = Some w1 /\
    step HostClone w1 (DeleteDevServer "s1") = Some w' /\
    response_of w' 1 = Some stopped /\
    response_of w' 2 = Some (mkResponse 404 (ErrorBody "Session not found")) /\
    effects w' = effects w1.
Proof.
  destruct (delete_twice HostClone demo_world "s1" demo_session
              (Rejected "no such container") Resolved eq_refl)
    as (w1 & w' & Hrun & Hstep & _ & Hresp1 & _ & _ & _ & Heff & Hresp & _).
  - right. now exists "no such container".
  - now left.
  - exists w1, w'. split; [exact Hrun|]. split; [exact Hstep|].
    unfold response_of. rewrite Hresp, Hresp1. repeat split; auto.
Defined.

(** ** A creation and its port *)

(** X7.  The create handler never fails for want of a port.  Whatever the
    host, the turn after the probe either does not take place (8080 is in
    use: the process exits, no response is sent, the [catch] block does
    not run) or inserts the session with port 8080 and goes on to the
    clone, or to the container in the later revision; it never answers
    500 and never runs the cleanup. *)
Theorem create_port_never_rejected (v : Variant) (w : World) (id : nat)
    (sid url : string) (h : Host) :
  tasks w !! id = Some (TCreate (mkCreate sid url AwaitPort)) ->
  (In 8080 (bound h) /\ step v w (Settle id (PortProbed h)) = None) \/
  (~ In 8080 (bound h) /\
   step v w (Settle id (PortProbed h)) =
     Some (mkWorld (JsMap.set sid (new_session v sid url 8080) (activeSessions w))
             (<[id := TCreate (mkCreate sid url (after_port v 8080))]> (tasks w))
             (next_task w) (responses w)
             (effects w ++ port_calls v sid url 8080))).
Proof.
  intros Ht. destruct (in_dec Z.eq_dec 8080 (bound h)) as [Hused|Hfree].
  - left. split; [exact Hused|]. simpl. rewrite Ht.
    unfold resume_create. cbn [c_pc]. unfold findAvailablePort, listen.
    apply existsb_bound in Hused. simpl. now rewrite Hused.
  - right. split; [exact Hfree|]. now apply create_port_resolved.
Qed.

(** A request whose probe finds 8080 in use, although the host could
    assign 49152. *)
Lemma create_port_never_rejected_witness :
  step HostClone
    (default boot
       (run HostClone boot [PostDevServer (Some "https://example.com/demo.git") "s1"]))
    (Settle 0 (PortProbed busy_host)) = None.
Proof.
  destruct (create_port_never_rejected HostClone
              (default boot
                 (run HostClone boot
                    [PostDevServer (Some "https://example.com/demo.git") "s1"]))
              0 "s1" "https://example.com/demo.git" busy_host)
    as [[_ H]|[Hfree _]].
  - vm_compute. reflexivity.
  - exact H.
  - exfalso. apply Hfree. now left.
Defined.

(** ** When the probe polls *)

Lemma run_probe_polls (sid c : string) (p : Z) :
  (forall os effs pc,
      run_probe (mkProbe sid p c ProbeTimer) os = Some (effs, pc) ->
      gets effs <> 0%nat ->
      exists rest, os = TimerFired :: Inspected "running" :: rest)
  /\ (forall st,
        st <> "running" ->
        run_probe (mkProbe sid p c ProbeTimer) [TimerFired; Inspected st; LogsRead] =
          Some ([ContainerInspect c; ContainerLogs c 100; Console ErrExited], None)).
Proof.
  split.
  - intros os effs pc Hrun Hgets.
    destruct os as [|o1 os]; [injection Hrun as <- <-; now elim Hgets|].
    simpl in Hrun. unfold resume_probe in Hrun. cbn [p_pc] in Hrun.
    destruct o1; try discriminate. cbn [p_sessionId p_port p_container] in Hrun.
    destruct os as [|o2 os]; [injection Hrun as <- <-; now elim Hgets|].
    cbn [run_probe] in Hrun. unfold resume_probe in Hrun. cbn [p_pc] in Hrun.
    destruct o2; try discriminate.
    + destruct os; [|discriminate]. injection Hrun as <- <-. now elim Hgets.
    + destruct (String.eqb Status0 "running") eqn:Est.
      * apply String.eqb_eq in Est. subst. eauto.
      * exfalso. cbn [negb] in Hrun. cbv iota in Hrun.
        cbn [p_sessionId p_port p_container] in Hrun.
        destruct (run_probe _ os) as [[effs2 pc2]|] eqn:E2; [|discriminate].
        injection Hrun as <- <-.
        destruct (run_probe_budget os (mkProbe sid p c ProbeLogs) effs2 pc2 I E2)
          as [Hb _].
        apply Hgets. unfold gets in *. simpl in *. lia.
  - intros st Hst. apply String.eqb_neq in Hst.
    simpl. unfold resume_probe. cbn [p_pc]. now rewrite Hst.
Qed.

(** X8.  The probe, run by the event loop among whatever other turns,
    sends HTTP requests only to a container it found running: if its turns
    made any [http.get], its timer had fired and [inspect] had reported the
    status [running].  For any other status it fetches the last 100 log
    lines, prints them as an error and ends, without a single request. *)
Theorem probe_polls_only_if_running (v : Variant) (w : World) (id : nat)
    (sid c : string) (p : Z) :
  tasks_bounded w ->
  tasks w !! id = Some (TProbe (mkProbe sid p c ProbeTimer)) ->
  (forall es w',
      run v w es = Some w' ->
      gets (calls_of v id w es) <> 0%nat ->
      exists rest, deliveries id es = TimerFired :: Inspected "running" :: rest)
  /\ (forall st,
        st <> "running" ->
        let calls := [ContainerInspect c; ContainerLogs c 100; Console ErrExited] in
        run v w (List.map (Settle id) [TimerFired; Inspected st; LogsRead]) =
          Some (mkWorld (activeSessions w) (base.delete id (tasks w)) (next_task w)
                  (responses w) (effects w ++ calls)) /\
        forall es w',
          run v w es = Some w' ->
          deliveries id es = [TimerFired; Inspected st; LogsRead] ->
          calls_of v id w es = calls /\ tasks w' !! id = None).
Proof.
  intros Hb Ht. destruct (run_probe_polls sid c p) as [Hpoll Hexit]. split.
  - intros es w' Hrun Hgets.
    destruct (calls_of_run_probe v es w w' id _ Hb Ht Hrun) as (pc & Hq & _).
    apply (Hpoll _ _ _ Hq Hgets).
  - intros st Hst calls. specialize (Hexit st Hst). split.
    + apply (run_probe_run v _ w id _ calls None Ht Hexit).
    + intros es w' Hrun Hd.
      destruct (calls_of_run_probe v es w w' id _ Hb Ht Hrun) as (pc & Hq & Hfin).
      rewrite Hd, Hexit in Hq. injection Hq as <- <-. auto.
Qed.

(** The container of the session of [starting_world] has exited when the
    probe looks at it; a list request comes in between. *)
Lemma probe_polls_only_if_running_witness :
  calls_of InContainerClone 1
    (default boot (run InContainerClone boot (starting_events ++ [Settle 0 Resolved])))
    [Settle 1 TimerFired; GetDevServer; Settle 1 (Inspected "exited"); Settle 1 LogsRead] =
    [ContainerInspect "c1"; ContainerLogs "c1" 100; Console ErrExited].
Proof.
  destruct (probe_polls_only_if_running InContainerClone
              (default boot
                 (run InContainerClone boot (starting_events ++ [Settle 0 Resolved])))
              1 "s1" "c1" 8080) as (_ & Hexit).
  - apply (reachable_invariant InContainerClone).
    exists (starting_events ++ [Settle 0 Resolved]). vm_compute. reflexivity.
  - vm_compute. reflexivity.
  - destruct (Hexit "exited") as [_ Hany]; [discriminate|].
    destruct (Hany [Settle 1 TimerFired; GetDevServer; Settle 1 (Inspected "exited");
                    Settle 1 LogsRead]
                (default boot
                   (run InContainerClone boot
                      (starting_events ++
                       [Settle 0 Resolved; Settle 1 TimerFired; GetDevServer;
                        Settle 1 (Inspected "exited"); Settle 1 LogsRead]))))
      as [Hc _]; [vm_compute; reflexivity | reflexivity | exact Hc].
Defined.

(** ** Every session has one owner *)

Lemma resume_create_step v t o m turn :
  resume_create v t o m = Some turn -> CreateStep v t m turn.
Proof.
  assert (Hcatch : forall message pre spawn,
             CreateStep v t m (after pre spawn (catch_create t message m))).
  { intros message pre spawn. apply (StepCaught _ _ _ _ message); unfold catch_create;
      destruct (truthy (c_repoUrl t)); simpl; auto;
      destruct (List.find _ _) as [x|]; simpl; auto;
      destruct (truthy x); simpl; eauto. }
  assert (Hcatch0 : forall message, CreateStep v t m (catch_create t message m)).
  { intros message. specialize (Hcatch message [] None).
    destruct (catch_create t message m). exact Hcatch. }
  destruct t as [sid url pc]. unfold resume_create.
  cbn [c_pc c_sessionId c_repoUrl] in *.
  destruct pc, o; try discriminate; intros H.
  - destruct (settled (findAvailablePort h 8080)) as [p|e|e] eqn:E; [| |discriminate].
    + destruct v; injection H as <-;
        apply (StepInsert _ (mkCreate sid url AwaitPort) _ _ h p); auto.
    + injection H as <-. apply Hcatch.
  - destruct (JsMap.get sid m) as [s|] eqn:E; injection H as <-.
    + apply (StepStarting _ (mkCreate sid url _) _ _ port0 s); auto.
    + apply Hcatch0.
  - injection H as <-. apply Hcatch0.
  - injection H as <-. apply (StepCreated _ (mkCreate sid url _) _ _ port0 id); auto.
  - injection H as <-. apply Hcatch0.
  - destruct (JsMap.get sid m) as [s|] eqn:E; injection H as <-.
    + apply (StepRunning _ (mkCreate sid url _) _ _ port0 container s); auto.
    + apply Hcatch.
  - injection H as <-. apply Hcatch0.
  - injection H as <-. apply (StepCaught _ _ _ _ message); simpl; auto.
  - injection H as <-. apply (StepCaught _ _ _ _ message); simpl; auto.
Qed.

Lemma keys_get (k : string) (m : Registry) :
  In k (JsMap.keys m) -> exists s, JsMap.get k m = Some s.
Proof.
  intros Hin. destruct (JsMap.get k m) as [s|] eqn:E; eauto.
  apply JsMapFacts.get_None_keys in E. contradiction.
Qed.

Lemma get_keys (k : string) (s : Session) (m : Registry) :
  JsMap.get k m = Some s -> In k (JsMap.keys m).
Proof.
  intros Hget. destruct (in_dec string_dec k (JsMap.keys m)) as [|Hn]; auto.
  apply JsMapFacts.get_None_keys in Hn. congruence.
Qed.

Lemma get_delete_sub (k0 k : string) (s : Session) (m : Registry) :
  JsMap.get k (JsMap.delete k0 m) = Some s -> JsMap.get k m = Some s.
Proof.
  destruct (string_dec k0 k) as [->|Hne].
  - now rewrite JsMapFacts.get_delete_eq.
  - now rewrite JsMapFacts.get_delete_ne.
Qed.

Lemma commit_create_tasks w id turn i t' :
  tasks_bounded w -> (id < next_task w)%nat ->
  tasks (commit w id (next_task w) turn) !! i = Some (TCreate t') ->
  (i = id /\ t_next turn = Some (TCreate t')) \/
  (i <> id /\ tasks w !! i = Some (TCreate t')).
Proof.
  intros Hb Hid. unfold commit; simpl.
  assert (Hkept : match t_next turn with
                  | Some k => <[id := k]> (tasks w)
                  | None => base.delete id (tasks w)
                  end !! i = Some (TCreate t') ->
                  (i = id /\ t_next turn = Some (TCreate t')) \/
                  (i <> id /\ tasks w !! i = Some (TCreate t'))).
  { destruct (t_next turn) as [k|]; destruct (decide (i = id)) as [->|Hne].
    - rewrite lookup_insert_eq. intros [= ->]. now left.
    - rewrite lookup_insert_ne by congruence. now right.
    - now rewrite lookup_delete_eq.
    - rewrite lookup_delete_ne by congruence. now right. }
  destruct (t_spawn turn) as [p|]; auto.
  destruct (decide (i = next_task w)) as [->|Hne].
  - now rewrite lookup_insert_eq.
  - rewrite lookup_insert_ne by congruence. exact Hkept.
Qed.

Lemma accept_create_tasks w turn i t' :
  tasks (accept w turn) !! i = Some (TCreate t') ->
  (i = next_task w /\ t_next turn = Some (TCreate t')) \/
  tasks w !! i = Some (TCreate t').
Proof.
  unfold accept; simpl. destruct (t_next turn) as [k|]; auto.
  destruct (decide (i = next_task w)) as [->|Hne].
  - rewrite lookup_insert_eq. intros [= ->]. now left.
  - rewrite lookup_insert_ne by congruence. now right.
Qed.

Lemma Owned_weaken v used used' w :
  (forall k, In k used -> In k used') -> Owned v used w -> Owned v used' w.
Proof.
  intros Hsub (Hok & Hb & Hk & Ht & Hd & Hf & Hs).
  repeat (split; [eauto; fail|]); eauto.
Qed.

(** A turn that adds no session and moves no create handler backwards
    keeps the invariant. *)
Lemma owned_frame v used w w' :
  Owned v used w ->
  Registry_ok (activeSessions w') -> tasks_bounded w' ->
  (forall k s, JsMap.get k (activeSessions w') = Some s ->
               JsMap.get k (activeSessions w) = Some s) ->
  (forall i t', tasks w' !! i = Some (TCreate t') ->
                exists t, tasks w !! i = Some (TCreate t) /\
                          c_sessionId t' = c_sessionId t /\
                          forall s, follows t s -> follows t' s) ->
  Owned v used w'.
Proof.
  intros (Hok & Hb & Hk & Ht & Hd & Hf & Hs) Hok' Hb' Hget Htasks.
  split; [exact Hok'|]. split; [exact Hb'|]. split; [|split; [|split; [|split]]].
  - intros k Hin. apply keys_get in Hin as [s Hin]. apply Hk.
    apply (get_keys _ s). now apply Hget.
  - intros i t' Hi. destruct (Htasks _ _ Hi) as (t & Hi0 & -> & _). eauto.
  - intros i j t1 t2 Hi Hj Heq.
    destruct (Htasks _ _ Hi) as (t1' & Hi0 & E1 & _).
    destruct (Htasks _ _ Hj) as (t2' & Hj0 & E2 & _).
    apply (Hd i j t1' t2' Hi0 Hj0). congruence.
  - intros i t' s Hi Hg.
    destruct (Htasks _ _ Hi) as (t & Hi0 & E & Hfol).
    apply Hfol. apply (Hf i t s Hi0). rewrite <- E. now apply Hget.
  - intros k s Hg. apply (Hs k). now apply Hget.
Qed.

(** A turn in which the create handler [id] assigns its own session. *)
Lemma owned_set v used w w' id t s_new :
  Owned v used w ->
  tasks w !! id = Some (TCreate t) ->
  tasks_bounded w' ->
  activeSessions w' = JsMap.set (c_sessionId t) s_new (activeSessions w) ->
  sessionId s_new = c_sessionId t -> shaped v s_new ->
  (forall i t', tasks w' !! i = Some (TCreate t') ->
                (i = id /\ c_sessionId t' = c_sessionId t /\ follows t' s_new) \/
                (i <> id /\ tasks w !! i = Some (TCreate t'))) ->
  Owned v used w'.
Proof.
  intros (Hok & Hb & Hk & Ht & Hd & Hf & Hs) Hid Hb' Hreg Hsid Hshape Htasks.
  split; [|split; [exact Hb'|split; [|split; [|split; [|split]]]]].
  - rewrite Hreg. now apply Registry_ok_set.
  - intros k Hin. rewrite Hreg in Hin. apply keys_get in Hin as [s Hg].
    destruct (string_dec (c_sessionId t) k) as [<-|Hne]; [eauto|].
    rewrite JsMapFacts.get_set_ne in Hg by exact Hne.
    apply Hk. now apply (get_keys _ s).
  - intros i t' Hi. destruct (Htasks _ _ Hi) as [(_ & -> & _)|(_ & Hi0)]; eauto.
  - intros i j t1 t2 Hi Hj Heq.
    destruct (Htasks _ _ Hi) as [(-> & E1 & _)|(Hni & Hi0)];
      destruct (Htasks _ _ Hj) as [(-> & E2 & _)|(Hnj & Hj0)]; auto.
    + exfalso. apply Hnj. symmetry. apply (Hd id j t t2 Hid Hj0). congruence.
    + exfalso. apply Hni. apply (Hd i id t1 t Hi0 Hid). congruence.
    + eauto.
  - intros i t' s Hi Hg. rewrite Hreg in Hg.
    destruct (Htasks _ _ Hi) as [(-> & E & Hfol)|(Hni & Hi0)].
    + rewrite E, JsMapFacts.get_set_eq in Hg. now injection Hg as <-.
    + assert (Hne : c_sessionId t <> c_sessionId t').
      { intros E. apply Hni. apply (Hd i id t' t Hi0 Hid). congruence. }
      rewrite JsMapFacts.get_set_ne in Hg by exact Hne. eauto.
  - intros k s Hg. rewrite Hreg in Hg.
    destruct (string_dec (c_sessionId t) k) as [<-|Hne].
    + rewrite JsMapFacts.get_set_eq in Hg. now injection Hg as <-.
    + rewrite JsMapFacts.get_set_ne in Hg by exact Hne. eauto.
Qed.

Lemma owned_commit_frame v used w id k0 turn :
  Owned v used w -> tasks w !! id = Some k0 ->
  t_sessions turn = activeSessions w \/
    (exists k, t_sessions turn = JsMap.delete k (activeSessions w)) ->
  (forall t', t_next turn = Some (TCreate t') ->
              exists t, k0 = TCreate t /\ c_sessionId t' = c_sessionId t /\
                        forall s, follows t s -> follows t' s) ->
  Owned v used (commit w id (next_task w) turn).
Proof.
  intros Hown Hid Hreg Hnext.
  pose proof Hown as (Hok & Hb & _).
  pose proof (task_below _ _ _ Hb Hid) as Hlt.
  apply (owned_frame v used w); auto.
  - simpl. destruct Hreg as [->|[k ->]]; auto. now apply Registry_ok_delete.
  - now apply commit_bounded.
  - simpl. destruct Hreg as [->|[k ->]]; auto. intros k' s. apply get_delete_sub.
  - intros i t' Hi.
    apply commit_create_tasks in Hi as [(-> & Hn)|(_ & Hi)]; auto.
    + destruct (Hnext _ Hn) as (t & -> & E & Hfol). eauto.
    + exists t'. auto.
Qed.

Lemma owned_accept_frame v used w turn :
  Owned v used w ->
  t_sessions turn = activeSessions w ->
  (forall t', t_next turn <> Some (TCreate t')) ->
  Owned v used (accept w turn).
Proof.
  intros Hown Hreg Hnext. pose proof Hown as (Hok & Hb & _).
  apply (owned_frame v used w); auto.
  - simpl. now rewrite Hreg.
  - now apply accept_bounded.
  - simpl. now rewrite Hreg.
  - intros i t' Hi. apply accept_create_tasks in Hi as [(_ & Hn)|Hi].
    + now apply Hnext in Hn.
    + exists t'. auto.
Qed.

Lemma new_session_shaped v sid url p : shaped v (new_session v sid url p).
Proof.
  destruct v; (split; [|split]); simpl; try reflexivity;
    try (split; [discriminate | congruence]); intros; discriminate.
Qed.

(** One turn of the event loop keeps the invariant, as long as the id
    given to a new create request has not been used. *)
Lemma step_owned v used w e w' :
  Owned v used w ->
  (forall k, In k (issued [e]) -> ~ In k used) ->
  step v w e = Some w' ->
  Owned v (issued [e] ++ used) w'.
Proof.
  intros Hown Hfresh Hstep.
  pose proof Hown as (Hok & Hb & Hk & Ht & Hd & Hf & Hs).
  destruct e as [body uuid| |sid|id o]; simpl in Hstep.
  - injection Hstep as <-. unfold post_dev_server. simpl in *.
    destruct body as [url|]; [destruct (truthy url)|]; simpl;
      try (apply owned_accept_frame; [exact Hown | reflexivity | discriminate]).
    assert (Hnew : ~ In uuid used) by (apply Hfresh; now left).
    split; [exact Hok|]. split; [now apply accept_bounded|].
    split; [|split; [|split; [|split]]]; simpl.
    + intros k Hin. right. now apply Hk.
    + intros i t'. destruct (decide (i = next_task w)) as [->|Hne].
      * rewrite lookup_insert_eq. intros [= <-]. now left.
      * rewrite lookup_insert_ne by congruence. intros Hi. right. eauto.
    + intros i j t1 t2.
      destruct (decide (i = next_task w)) as [->|Hni];
        destruct (decide (j = next_task w)) as [->|Hnj]; auto;
        rewrite ?lookup_insert_eq, ?lookup_insert_ne by congruence.
      * intros [= <-] Hj E. simpl in E. exfalso. apply Hnew. rewrite E. eauto.
      * intros Hi [= <-] E. simpl in E. exfalso. apply Hnew. rewrite <- E. eauto.
      * eauto.
    + intros i t' s. destruct (decide (i = next_task w)) as [->|Hne].
      * rewrite lookup_insert_eq. intros [= <-]. simpl. intros Hg.
        exfalso. apply Hnew. apply Hk. now apply (get_keys _ s).
      * rewrite lookup_insert_ne by congruence. eauto.
    + exact Hs.
  - injection Hstep as <-. simpl.
    apply owned_accept_frame; [exact Hown | reflexivity | discriminate].
  - injection Hstep as <-. simpl. apply owned_accept_frame; [exact Hown | |].
    + apply (arrival_sessions None EmptyString sid).
    + intros t'. unfold delete_dev_server.
      destruct (JsMap.get sid _) as [s|]; [|discriminate].
      destruct (containerId s) as [c|]; [destruct (truthy c)|]; discriminate.
  - simpl. destruct (tasks w !! id) as [[t|t|t]|] eqn:Hid; try discriminate.
    + destruct (resume_create v t o _) as [turn|] eqn:E; [|discriminate].
      injection Hstep as <-. pose proof (task_below _ _ _ Hb Hid) as Hlt.
      destruct (resume_create_step _ _ _ _ _ E)
        as [h p Hpc Hset Hreg Hnext|p s Hpc Hg Hreg Hnext|p c s Hpc Hg Hreg Hnext
            |p c Hpc Hreg Hnext|message Hreg Hnext].
      * apply (owned_set v used w _ id t (new_session v (c_sessionId t) (c_repoUrl t) p));
          auto.
        -- now apply commit_bounded.
        -- now destruct v.
        -- apply new_session_shaped.
        -- intros i t' Hi.
           apply commit_create_tasks in Hi as [(-> & Hn)|Hi]; auto.
           left. rewrite Hnext in Hn. injection Hn as <-.
           split; [reflexivity|]. split; [reflexivity|].
           unfold follows. destruct v; simpl; auto.
      * pose proof (Hf _ _ _ Hid Hg) as (Hurl & Hc & Hst). rewrite Hpc in Hst.
        pose proof (Hs _ _ Hg) as (Hrun & Hdir & Hcl).
        assert (Hsid : sessionId s = c_sessionId t).
        { apply (proj2 Hok). now apply JsMapFacts.get_Some_In. }
        apply (owned_set v used w _ id t (with_status starting s)); auto.
        -- now apply commit_bounded.
        -- split; [|split]; simpl; auto.
           rewrite Hc. split; [discriminate | congruence].
        -- intros i t' Hi.
           apply commit_create_tasks in Hi as [(-> & Hn)|Hi]; auto.
           left. rewrite Hnext in Hn. injection Hn as <-.
           split; [reflexivity|]. split; [reflexivity|].
           unfold follows; simpl. tauto.
      * pose proof (Hf _ _ _ Hid Hg) as (Hurl & Hc & Hst). rewrite Hpc in Hst.
        pose proof (Hs _ _ Hg) as (Hrun & Hdir & Hcl).
        assert (Hsid : sessionId s = c_sessionId t).
        { apply (proj2 Hok). now apply JsMapFacts.get_Some_In. }
        apply (owned_set v used w _ id t (with_status running (with_container c s)));
          auto.
        -- now apply commit_bounded.
        -- split; [|split]; simpl; auto.
           split; [discriminate | reflexivity].
        -- intros i t' Hi.
           apply commit_create_tasks in Hi as [(-> & Hn)|Hi]; auto.
           rewrite Hnext in Hn. discriminate.
      * apply (owned_commit_frame v used w id (TCreate t)); auto.
        intros t' Hn. rewrite Hnext in Hn. injection Hn as <-.
        exists t. split; [reflexivity|]. split; [reflexivity|].
        intros s. unfold follows; simpl. rewrite Hpc. tauto.
      * apply (owned_commit_frame v used w id (TCreate t)); auto.
        intros t' Hn. destruct Hnext as [Hnext|Hnext]; rewrite Hnext in Hn;
          [discriminate|]. injection Hn as <-.
        exists t. split; [reflexivity|]. split; [reflexivity|].
        intros s. unfold follows; simpl.
        destruct (c_pc t); intuition congruence.
    + destruct (resume_delete t o _) as [turn|] eqn:E; [|discriminate].
      injection Hstep as <-.
      apply (owned_commit_frame v used w id (TDelete t)); auto.
      * destruct (resume_delete_sessions _ _ _ _ E) as [->| ->]; eauto.
      * intros t'. revert E. unfold resume_delete.
        destruct (d_pc t), o; try discriminate; intros [= <-]; discriminate.
    + destruct (probe_turn t o _) as [turn|] eqn:E; [|discriminate].
      injection Hstep as <-.
      apply (owned_commit_frame v used w id (TProbe t)); auto.
      * left. now apply probe_turn_frame in E.
      * intros t'. revert E. unfold probe_turn.
        destruct (resume_probe t o) as [[effs [pc|]]|]; try discriminate;
          intros [= <-]; discriminate.
Qed.

Lemma issued_cons e es : issued (e :: es) = issued [e] ++ issued es.
Proof.
  destruct e as [[url|] uuid| | |]; simpl; auto. now destruct (truthy url).
Qed.

Lemma boot_owned v : Owned v [] boot.
Proof.
  split; [split; [constructor | intros k s []]|].
  split; [intros i _; apply lookup_empty|].
  split; [intros k []|].
  split; [|split; [|split]]; simpl; discriminate.
Qed.

Lemma run_owned v es : forall used w w',
  Owned v used w -> NoDup (issued es) ->
  (forall k, In k (issued es) -> ~ In k used) ->
  run v w es = Some w' -> Owned v (issued es ++ used) w'.
Proof.
  induction es as [|e es IH]; intros used w w' Hown Hnd Hfresh Hrun.
  - simpl in *. now injection Hrun as <-.
  - cbn [run] in Hrun. destruct (step v w e) as [w1|] eqn:E; [|discriminate].
    rewrite issued_cons in Hnd, Hfresh |- *.
    apply NoDup_app in Hnd as (_ & Hdis & Hnd).
    assert (Hown1 : Owned v (issued [e] ++ used) w1).
    { apply (step_owned v used w e); auto.
      intros k Hk. apply Hfresh, in_or_app. now left. }
    apply (Owned_weaken v (issued es ++ issued [e] ++ used)).
    { intros k Hk. rewrite !in_app_iff in *. tauto. }
    apply (IH _ w1); auto.
    intros k Hk Hin. apply in_app_or in Hin as [Hin|Hin].
    + apply (Hdis k); now apply list_elem_of_In.
    + apply (Hfresh k); [apply in_or_app; now right | exact Hin].
Qed.

Lemma reachable_fresh_owned v w :
  reachable_fresh v w -> exists used, Owned v used w.
Proof.
  intros (es & Hnd & Hrun). exists (issued es ++ []).
  apply (run_owned v es [] boot); auto. apply boot_owned.
Qed.

(** X9.  While [uuidv4()] returns no id twice, every session of the
    registry is stored under its own id, has a container id exactly when
    its status is [running], carries the directory [REPOS_DIR/<id>] in the
    first revision and none in the later one, and is never [cloning] in the
    later revision. *)
Theorem session_shape (v : Variant) (w : World) (sid : string) (s : Session) :
  reachable_fresh v w ->
  JsMap.get sid (activeSessions w) = Some s ->
  sessionId s = sid /\
  (status s = running <-> containerId s <> None) /\
  sessionDir s =
    match v with
    | HostClone => Some (path_join REPOS_DIR sid)
    | InContainerClone => None
    end /\
  (v = InContainerClone -> status s <> cloning).
Proof.
  intros Hr Hg. destruct (reachable_fresh_owned _ _ Hr) as (used & Hown).
  destruct Hown as (Hok & _ & _ & _ & _ & _ & Hs).
  assert (Hsid : sessionId s = sid).
  { apply (proj2 Hok). now apply JsMapFacts.get_Some_In. }
  destruct (Hs _ _ Hg) as (Hrun & Hdir & Hcl). rewrite Hsid in Hdir. auto.
Qed.

Lemma session_shape_witness :
  sessionId demo_session = "s1" /\
  (status demo_session = running <-> containerId demo_session <> None) /\
  sessionDir demo_session = Some (path_join REPOS_DIR "s1") /\
  (HostClone = InContainerClone -> status demo_session <> cloning).
Proof.
  apply (session_shape HostClone demo_world "s1" demo_session).
  - exists demo_events. split; [|vm_compute; reflexivity].
    vm_compute. apply NoDup_singleton.
  - vm_compute. reflexivity.
Defined.

(** ** A session only moves forward *)

Lemma advanced_refl s : advanced s s.
Proof. unfold advanced, same_identity. auto 10. Qed.

Lemma advanced_trans s1 s2 s3 : advanced s1 s2 -> advanced s2 s3 -> advanced s1 s3.
Proof.
  unfold advanced, same_identity.
  intros ((A1 & A2 & A3 & A4) & A5 & A6) ((B1 & B2 & B3 & B4) & B5 & B6).
  repeat split; try congruence; [lia | auto].
Qed.

Lemma issued_app es1 es2 : issued (es1 ++ es2) = issued es1 ++ issued es2.
Proof.
  induction es1 as [|e es1 IH]; [reflexivity|].
  rewrite <- app_comm_cons, issued_cons, (issued_cons e es1), IH.
  now rewrite app_assoc.
Qed.

Lemma step_advances v used w e w' sid s s' :
  Owned v used w -> step v w e = Some w' ->
  JsMap.get sid (activeSessions w) = Some s ->
  JsMap.get sid (activeSessions w') = Some s' ->
  advanced s s'.
Proof.
  intros (Hok & Hb & Hk & Ht & Hd & Hf & Hs) Hstep Hg Hg'.
  assert (Hsame : activeSessions w' = activeSessions w \/
                  (exists k, activeSessions w' = JsMap.delete k (activeSessions w)) ->
                  advanced s s').
  { intros [E|[k E]]; rewrite E in Hg'; [|apply get_delete_sub in Hg'];
      rewrite Hg in Hg'; injection Hg' as <-; apply advanced_refl. }
  destruct e as [body uuid| |sid0|id o]; simpl in Hstep.
  - injection Hstep as <-. apply Hsame. left.
    apply (arrival_sessions body uuid EmptyString).
  - injection Hstep as <-. apply Hsame. now left.
  - injection Hstep as <-. apply Hsame. left.
    apply (arrival_sessions None EmptyString sid0).
  - destruct (tasks w !! id) as [[t|t|t]|] eqn:Hid; try discriminate.
    + destruct (resume_create v t o _) as [turn|] eqn:E; [|discriminate].
      injection Hstep as <-. simpl in Hg', Hsame.
      destruct (resume_create_step _ _ _ _ _ E)
        as [h p Hpc Hset Hreg Hnext|p s0 Hpc Hg0 Hreg Hnext|p c s0 Hpc Hg0 Hreg Hnext
            |p c Hpc Hreg Hnext|message Hreg Hnext]; auto.
      * destruct (string_dec (c_sessionId t) sid) as [<-|Hne].
        -- destruct (Hf _ _ _ Hid Hg) as (_ & _ & F). rewrite Hpc in F. contradiction.
        -- rewrite Hreg, JsMapFacts.get_set_ne in Hg' by exact Hne.
           rewrite Hg in Hg'. injection Hg' as <-. apply advanced_refl.
      * destruct (string_dec (c_sessionId t) sid) as [<-|Hne].
        -- rewrite Hreg, JsMapFacts.get_set_eq in Hg'. injection Hg' as <-.
           rewrite Hg in Hg0. injection Hg0 as <-.
           destruct (Hf _ _ _ Hid Hg) as (_ & Hc & F). rewrite Hpc in F.
           destruct F as [Hst _].
           unfold advanced, same_identity; simpl. rewrite Hst, Hc; simpl.
           repeat split; auto; discriminate.
        -- rewrite Hreg, JsMapFacts.get_set_ne in Hg' by exact Hne.
           rewrite Hg in Hg'. injection Hg' as <-. apply advanced_refl.
      * destruct (string_dec (c_sessionId t) sid) as [<-|Hne].
        -- rewrite Hreg, JsMapFacts.get_set_eq in Hg'. injection Hg' as <-.
           rewrite Hg in Hg0. injection Hg0 as <-.
           destruct (Hf _ _ _ Hid Hg) as (_ & Hc & F). rewrite Hpc in F.
           destruct F as [Hst _].
           unfold advanced, same_identity; simpl. rewrite Hst, Hc; simpl.
           repeat split; auto; discriminate.
        -- rewrite Hreg, JsMapFacts.get_set_ne in Hg' by exact Hne.
           rewrite Hg in Hg'. injection Hg' as <-. apply advanced_refl.
    + destruct (resume_delete t o _) as [turn|] eqn:E; [|discriminate].
      injection Hstep as <-. apply Hsame. simpl.
      destruct (resume_delete_sessions _ _ _ _ E) as [->| ->]; eauto.
    + destruct (probe_turn t o _) as [turn|] eqn:E; [|discriminate].
      injection Hstep as <-. apply Hsame. left. simpl.
      now apply probe_turn_frame in E.
Qed.

Lemma step_not_awaiting v used w e w' sid :
  Owned v used w -> In sid used ->
  (forall k, In k (issued [e]) -> ~ In k used) ->
  not_awaiting sid w -> step v w e = Some w' -> not_awaiting sid w'.
Proof.
  intros (_ & Hb & _) Hin Hfresh Hna Hstep i t' Hi Hpc.
  destruct (step_awaiting _ _ _ _ _ _ Hb Hstep Hi Hpc) as [Hold|[body ->]].
  - eapply Hna; eauto.
  - intros Heq. simpl in Hstep, Hfresh. injection Hstep as <-.
    unfold post_dev_server in Hi.
    destruct body as [url|]; [destruct (truthy url)|]; simpl in Hi;
      try (now apply (Hna _ _ Hi Hpc)).
    apply (Hfresh (c_sessionId t')); [now left | now rewrite Heq].
Qed.

Lemma step_stays_absent v w e w' sid :
  tasks_bounded w -> not_awaiting sid w ->
  JsMap.get sid (activeSessions w) = None ->
  step v w e = Some w' -> JsMap.get sid (activeSessions w') = None.
Proof.
  intros Hb Hna Hg Hstep.
  destruct e as [body uuid| |sid0|id o].
  - simpl in Hstep. injection Hstep as <-. simpl.
    now rewrite (proj1 (arrival_sessions body uuid EmptyString _)).
  - apply (step_absent v w GetDevServer w' sid); auto; discriminate.
  - apply (step_absent v w (DeleteDevServer sid0) w' sid); auto; discriminate.
  - apply (step_absent v w (Settle id o) w' sid); auto; discriminate.
Qed.

(** Along a run from an owned world, the session under [sid] only
    advances, and once gone it does not come back. *)
Lemma run_advances v es : forall used w w' sid s,
  Owned v used w -> In sid used -> not_awaiting sid w ->
  (forall s1, JsMap.get sid (activeSessions w) = Some s1 -> advanced s s1) ->
  NoDup (issued es) -> (forall k, In k (issued es) -> ~ In k used) ->
  run v w es = Some w' ->
  forall s', JsMap.get sid (activeSessions w') = Some s' -> advanced s s'.
Proof.
  induction es as [|e es IH]; intros used w w' sid s Hown Hin Hna HP Hnd Hfresh Hrun.
  - simpl in Hrun. now injection Hrun as <-.
  - cbn [run] in Hrun. destruct (step v w e) as [w1|] eqn:E; [|discriminate].
    rewrite issued_cons in Hnd, Hfresh.
    apply NoDup_app in Hnd as (_ & Hdis & Hnd).
    assert (Hfresh1 : forall k, In k (issued [e]) -> ~ In k used).
    { intros k Hk. apply Hfresh, in_or_app. now left. }
    apply (IH (issued [e] ++ used) w1); auto.
    + now apply (step_owned v used w e).
    + apply in_or_app. now right.
    + now apply (step_not_awaiting v used w e).
    + intros s1 Hg1. destruct (JsMap.get sid (activeSessions w)) as [s0|] eqn:Hg0.
      * apply (advanced_trans s s0 s1); auto.
        now apply (step_advances v used w e w1 sid).
      * destruct Hown as (_ & Hb & _).
        pose proof (step_stays_absent v w e w1 sid Hb Hna Hg0 E). congruence.
    + intros k Hk Hin'. apply in_app_or in Hin' as [Hin'|Hin'].
      * apply (Hdis k); now apply list_elem_of_In.
      * apply (Hfresh k); [apply in_or_app; now right | exact Hin'].
Qed.

(** Along a run from an owned world no create handler comes to wait for a
    port under an id of [used], and an id of [used] that is out of the
    registry stays out. *)
Lemma run_tracks v es : forall used w w' sid,
  Owned v used w -> In sid used -> not_awaiting sid w ->
  NoDup (issued es) -> (forall k, In k (issued es) -> ~ In k used) ->
  run v w es = Some w' ->
  not_awaiting sid w' /\
  (JsMap.get sid (activeSessions w) = None -> JsMap.get sid (activeSessions w') = None).
Proof.
  induction es as [|e es IH]; intros used w w' sid Hown Hin Hna Hnd Hfresh Hrun.
  - simpl in Hrun. injection Hrun as <-. auto.
  - cbn [run] in Hrun. destruct (step v w e) as [w1|] eqn:E; [|discriminate].
    rewrite issued_cons in Hnd, Hfresh.
    apply NoDup_app in Hnd as (_ & Hdis & Hnd).
    assert (Hfresh1 : forall k, In k (issued [e]) -> ~ In k used).
    { intros k Hk. apply Hfresh, in_or_app. now left. }
    destruct (IH (issued [e] ++ used) w1 w' sid) as [Hna' Habs]; auto.
    + now apply (step_owned v used w e).
    + apply in_or_app. now right.
    + now apply (step_not_awaiting v used w e).
    + intros k Hk Hin'. apply in_app_or in Hin' as [Hin'|Hin'].
      * apply (Hdis k); now apply list_elem_of_In.
      * apply (Hfresh k); [apply in_or_app; now right | exact Hin'].
    + split; [exact Hna'|]. intros Hg0. apply Habs.
      destruct Hown as (_ & Hb & _).
      apply (step_stays_absent v w e w1 sid Hb Hna Hg0 E).
Qed.

Lemma run_app v es1 : forall es2 w,
  run v w (es1 ++ es2) =
    match run v w es1 with
    | Some w1 => run v w1 es2
    | None => None
    end.
Proof.
  induction es1 as [|e es1 IH]; intros es2 w; simpl; [reflexivity|].
  destruct (step v w e); [apply IH | reflexivity].
Qed.

(** X10.  While [uuidv4()] returns no id twice, a session seen under an id
    at two moments of a run has the same id, repository, port and
    directory at both; its status has not gone back in the order
    [cloning], [starting], [running]; and a container id it had is the one
    it still has.  An id that has left the registry is never inserted
    again. *)
Theorem session_only_advances (v : Variant) (es1 es2 : list Event) (w w' : World)
    (sid : string) (s : Session) :
  NoDup (issued (es1 ++ es2)) ->
  run v boot es1 = Some w -> run v w es2 = Some w' ->
  JsMap.get sid (activeSessions w) = Some s ->
  (forall s',
      JsMap.get sid (activeSessions w') = Some s' ->
      sessionId s' = sessionId s /\ repoUrl s' = repoUrl s /\ port s' = port s /\
      sessionDir s' = sessionDir s /\
      (rank (status s) <= rank (status s'))%nat /\
      (forall c, containerId s = Some c -> containerId s' = Some c)) /\
  (JsMap.get sid (activeSessions w') = None ->
   forall es3 w'',
     NoDup (issued (es1 ++ es2 ++ es3)) -> run v w' es3 = Some w'' ->
     JsMap.get sid (activeSessions w'') = None).
Proof.
  intros Hnd Hrun1 Hrun2 Hg. rewrite issued_app in Hnd.
  apply NoDup_app in Hnd as (Hnd1 & Hdis & Hnd2).
  assert (Hown : Owned v (issued es1 ++ []) w).
  { apply (run_owned v es1 [] boot); auto. apply boot_owned. }
  rewrite app_nil_r in Hown.
  pose proof Hown as (_ & _ & Hk & _ & _ & Hf & _).
  assert (Hin : In sid (issued es1)) by (apply Hk; now apply (get_keys _ s)).
  assert (Hna : not_awaiting sid w).
  { intros i t Hi Hpc Heq. rewrite <- Heq in Hg.
    destruct (Hf _ _ _ Hi Hg) as (_ & _ & F). now rewrite Hpc in F. }
  assert (Hdis' : forall k, In k (issued es2) -> ~ In k (issued es1)).
  { intros k Hk2 Hk1. apply (Hdis k); now apply list_elem_of_In. }
  split.
  - intros s' Hg'.
    assert (Hadv : advanced s s').
    { apply (run_advances v es2 (issued es1) w w' sid s); auto.
      intros s1 Hg1. rewrite Hg in Hg1. injection Hg1 as <-. apply advanced_refl. }
    destruct Hadv as ((A1 & A2 & A3 & A4) & A5 & A6). auto 10.
  - intros Hg' es3 w'' Hnd3 Hrun3.
    rewrite !issued_app in Hnd3.
    apply NoDup_app in Hnd3 as (_ & Hdis1 & Hnd3).
    apply NoDup_app in Hnd3 as (_ & Hdis2 & Hnd3).
    destruct (run_tracks v es2 (issued es1) w w' sid Hown Hin Hna Hnd2 Hdis' Hrun2)
      as [Hna' _].
    pose proof (run_owned v es2 (issued es1) w w' Hown Hnd2 Hdis' Hrun2) as Hown'.
    destruct (run_tracks v es3 (issued es2 ++ issued es1) w' w'' sid) as [_ Habs]; auto.
    + apply in_or_app. now right.
    + intros k Hk3 Hin'. apply in_app_or in Hin' as [Hin'|Hin'].
      * apply (Hdis2 k); now apply list_elem_of_In.
      * apply (Hdis1 k); [now apply list_elem_of_In|].
        apply list_elem_of_In, in_or_app. now right.
Qed.

(** The session of [demo_events], seen while it is cloned and once it
    runs. *)
Lemma session_only_advances_witness :
  exists s s',
    JsMap.get "s1" (activeSessions (default boot (run HostClone boot (take 2 demo_events))))
      = Some s /\
    JsMap.get "s1" (activeSessions demo_world) = Some s' /\
    status s = cloning /\ status s' = running /\
    sessionId s' = sessionId s /\ repoUrl s' = repoUrl s /\ port s' = port s /\
    sessionDir s' = sessionDir s /\
    (rank (status s) <= rank (status s'))%nat /\
    (forall c, containerId s = Some c -> containerId s' = Some c).
Proof.
  exists (mkSession "s1" "https://example.com/demo.git" 8080 cloning None
            (Some "../repos/s1")), demo_session.
  split; [vm_compute; reflexivity|]. split; [vm_compute; reflexivity|].
  split; [reflexivity|]. split; [reflexivity|].
  apply (session_only_advances HostClone (take 2 demo_events) (drop 2 demo_events)
           (default boot (run HostClone boot (take 2 demo_events))) demo_world "s1").
  - vm_compute. apply NoDup_singleton.
  - vm_compute. reflexivity.
  - vm_compute. reflexivity.
  - vm_compute. reflexivity.
  - vm_compute. reflexivity.
Defined.

(** ** What [fs.rmdir] is called on *)

Lemma rmdirs_In d effs : In (Rmdir d) effs <-> In d (rmdirs effs).
Proof.
  unfold rmdirs. rewrite in_flat_map. split.
  - intros H. exists (Rmdir d). split; [exact H | now left].
  - intros (e & He & Hd). destruct e; try contradiction.
    destruct Hd as [->|[]]. exact He.
Qed.

Lemma rmdirs_app effs effs' : rmdirs (effs ++ effs') = rmdirs effs ++ rmdirs effs'.
Proof. apply flat_map_app. Qed.

Lemma target_ok_mono v used used' d :
  (forall k, In k used -> In k used') -> target_ok v used d -> target_ok v used' d.
Proof. destruct d as [p|]; simpl; auto. intros Hsub (sid & Hin & ->). eauto. Qed.

Lemma session_dir_ok v used k : In k used -> target_ok v used (session_dir v k).
Proof. destruct v; simpl; eauto. Qed.

Lemma Dirs_weaken v used used' w :
  (forall k, In k used -> In k used') -> Dirs v used w -> Dirs v used' w.
Proof.
  intros Hsub (Hs & Hc & Hd & He). split; [|split; [|split]].
  - intros k s Hg. destruct (Hs _ _ Hg). auto.
  - eauto.
  - intros i t Hi. eapply target_ok_mono; eauto.
  - intros d Hin. eapply target_ok_mono; eauto.
Qed.

Lemma commit_tasks w id fresh turn i k :
  tasks (commit w id fresh turn) !! i = Some k ->
  t_next turn = Some k \/ (exists p, t_spawn turn = Some p /\ k = TProbe p) \/
  tasks w !! i = Some k.
Proof.
  unfold commit; simpl.
  assert (Hkept : match t_next turn with
                  | Some k0 => <[id := k0]> (tasks w)
                  | None => base.delete id (tasks w)
                  end !! i = Some k ->
                  t_next turn = Some k \/
                  (exists p, t_spawn turn = Some p /\ k = TProbe p) \/
                  tasks w !! i = Some k).
  { destruct (t_next turn) as [k0|]; destruct (decide (i = id)) as [->|Hne].
    - rewrite lookup_insert_eq. intros [= ->]. now left.
    - rewrite lookup_insert_ne by congruence. auto.
    - now rewrite lookup_delete_eq.
    - rewrite lookup_delete_ne by congruence. auto. }
  destruct (t_spawn turn) as [p|]; auto.
  destruct (decide (i = fresh)) as [->|Hne].
  - rewrite lookup_insert_eq. intros [= <-]. eauto.
  - rewrite lookup_insert_ne by congruence. exact Hkept.
Qed.

Lemma accept_tasks w turn i k :
  tasks (accept w turn) !! i = Some k ->
  t_next turn = Some k \/ tasks w !! i = Some k.
Proof.
  unfold accept; simpl. destruct (t_next turn) as [k0|]; auto.
  destruct (decide (i = next_task w)) as [->|Hne].
  - rewrite lookup_insert_eq. intros [= ->]. now left.
  - rewrite lookup_insert_ne by congruence. auto.
Qed.

Lemma dirs_commit v used w id fresh turn :
  Dirs v used w -> TurnDirs v used turn -> Dirs v used (commit w id fresh turn).
Proof.
  intros (Hs & Hc & Hd & He) (Ts & Tc & Td & Te). split; [|split; [|split]].
  - exact Ts.
  - intros i t Hi. apply commit_tasks in Hi as [Hi|[(p & _ & Hi)|Hi]]; eauto. discriminate.
  - intros i t Hi. apply commit_tasks in Hi as [Hi|[(p & _ & Hi)|Hi]]; eauto. discriminate.
  - intros d. simpl. rewrite rmdirs_app, in_app_iff. intros [Hin|Hin]; auto.
Qed.

Lemma dirs_accept v used w turn :
  Dirs v used w -> TurnDirs v used turn -> Dirs v used (accept w turn).
Proof.
  intros (Hs & Hc & Hd & He) (Ts & Tc & Td & Te). split; [|split; [|split]].
  - exact Ts.
  - intros i t Hi. apply accept_tasks in Hi as [Hi|Hi]; eauto.
  - intros i t Hi. apply accept_tasks in Hi as [Hi|Hi]; eauto.
  - intros d. simpl. rewrite rmdirs_app, in_app_iff. intros [Hin|Hin]; auto.
Qed.

Lemma catch_create_rmdir t message m d :
  In d (rmdirs (t_effects (catch_create t message m))) ->
  exists k s, JsMap.get k m = Some s /\ d = Some (path_join REPOS_DIR k).
Proof.
  unfold catch_create. destruct (truthy (c_repoUrl t)); [|intros []].
  destruct (List.find _ _) as [x|] eqn:E; [|intros []].
  destruct (truthy x); [|intros []]. simpl. intros [<-|[]].
  apply find_some in E as [_ E]. unfold unfinished in E.
  destruct (JsMap.get x m) as [s|] eqn:Hg; [|discriminate]. eauto.
Qed.

(** The create handler calls [fs.rmdir] only in its error path, on the
    directory of a key of the registry. *)
Lemma resume_create_rmdir v t o m turn d :
  resume_create v t o m = Some turn -> In d (rmdirs (t_effects turn)) ->
  exists k s, JsMap.get k m = Some s /\ d = Some (path_join REPOS_DIR k).
Proof.
  assert (Hprobe : forall h, rmdirs (List.map ServerListen (List.tl (listens (findAvailablePort h 8080)))) = []).
  { intros h. now rewrite findAvailablePort_listens. }
  destruct t as [sid url pc]. unfold resume_create.
  cbn [c_pc c_sessionId c_repoUrl].
  destruct pc, o; try discriminate; intros H;
    repeat match type of H with
      | context [match ?x with _ => _ end] => destruct x
      end;
    try discriminate;
    injection H as <-;
    cbn [t_effects suspend respond after fst snd];
    rewrite ?rmdirs_app, ?Hprobe; cbn [app rmdirs flat_map];
    try (intros []; fail); try apply catch_create_rmdir.
Qed.

Lemma step_dirs v used w e w' :
  Dirs v used w -> step v w e = Some w' -> Dirs v (issued [e] ++ used) w'.
Proof.
  intros HD Hstep. pose proof HD as (Hs & Hc & Hd & He).
  destruct e as [body uuid| |sid|id o]; simpl in Hstep.
  - injection Hstep as <-. unfold post_dev_server. simpl.
    destruct body as [url|]; [destruct (truthy url)|]; simpl;
      try (apply dirs_accept; [exact HD|];
           split; [exact Hs|]; split; [|split]; simpl; try discriminate;
           intros d []).
    apply dirs_accept.
    + apply (Dirs_weaken v used); [intros k; now right | exact HD].
    + split; [|split; [|split]]; simpl; try discriminate.
      * intros k s Hg. destruct (Hs _ _ Hg). split; [now right | assumption].
      * intros t [= <-]. now left.
      * intros d [].
  - injection Hstep as <-. simpl. apply dirs_accept; [exact HD|].
    split; [exact Hs|]. split; [|split]; simpl; try discriminate. intros d [].
  - injection Hstep as <-. simpl. apply dirs_accept; [exact HD|].
    unfold delete_dev_server.
    destruct (JsMap.get sid (activeSessions w)) as [s|] eqn:Hg.
    + destruct (Hs _ _ Hg) as [Hin Hdir].
      assert (Hok : target_ok v used (sessionDir s)).
      { rewrite Hdir. now apply session_dir_ok. }
      destruct (containerId s) as [c|]; [destruct (truthy c)|];
        (split; [exact Hs|]; split; [|split]; simpl; try discriminate;
         [intros t [= <-]; exact Hok | intros d Hd'; try contradiction]);
        destruct Hd' as [<-|[]]; exact Hok.
    + split; [exact Hs|]. split; [|split]; simpl; try discriminate. intros d [].
  - simpl. destruct (tasks w !! id) as [[t|t|t]|] eqn:Hid; try discriminate.
    + destruct (resume_create v t o _) as [turn|] eqn:E; [|discriminate].
      injection Hstep as <-. apply dirs_commit; [exact HD|].
      pose proof (Hc _ _ Hid) as Hin.
      split; [|split; [|split]].
      * destruct (resume_create_step _ _ _ _ _ E)
          as [h p Hpc Hset Hreg Hnext|p s0 Hpc Hg0 Hreg Hnext|p c s0 Hpc Hg0 Hreg Hnext
              |p c Hpc Hreg Hnext|message Hreg Hnext]; rewrite ?Hreg.
        -- intros k s. destruct (string_dec (c_sessionId t) k) as [<-|Hne].
           ++ rewrite JsMapFacts.get_set_eq. intros [= <-]. split; auto.
              now destruct v.
           ++ rewrite JsMapFacts.get_set_ne by exact Hne. apply Hs.
        -- intros k s. destruct (string_dec (c_sessionId t) k) as [<-|Hne].
           ++ rewrite JsMapFacts.get_set_eq. intros [= <-]. simpl. eauto.
           ++ rewrite JsMapFacts.get_set_ne by exact Hne. apply Hs.
        -- intros k s. destruct (string_dec (c_sessionId t) k) as [<-|Hne].
           ++ rewrite JsMapFacts.get_set_eq. intros [= <-]. simpl. eauto.
           ++ rewrite JsMapFacts.get_set_ne by exact Hne. apply Hs.
        -- exact Hs.
        -- destruct Hreg as [->|[k0 ->]]; auto.
           intros k s Hg. apply get_delete_sub in Hg. eauto.
      * intros t' Hn.
        destruct (resume_create_step _ _ _ _ _ E)
          as [h p Hpc Hset Hreg Hnext|p s0 Hpc Hg0 Hreg Hnext|p c s0 Hpc Hg0 Hreg Hnext
              |p c Hpc Hreg Hnext|message Hreg [Hnext|Hnext]];
          rewrite Hnext in Hn; try discriminate; injection Hn as <-; exact Hin.
      * intros t' Hn.
        destruct (resume_create_step _ _ _ _ _ E)
          as [h p Hpc Hset Hreg Hnext|p s0 Hpc Hg0 Hreg Hnext|p c s0 Hpc Hg0 Hreg Hnext
              |p c Hpc Hreg Hnext|message Hreg [Hnext|Hnext]];
          rewrite Hnext in Hn; discriminate.
      * intros d Hin'.
        destruct (resume_create_rmdir _ _ _ _ _ _ E Hin') as (k & s & Hg & ->).
        simpl. exists k. split; [apply (Hs _ _ Hg) | reflexivity].
    + destruct (resume_delete t o _) as [turn|] eqn:E; [|discriminate].
      injection Hstep as <-. apply dirs_commit; [exact HD|].
      pose proof (Hd _ _ Hid) as Hok.
      unfold resume_delete in E.
      destruct (d_pc t), o; try discriminate; injection E as <-;
        (split; [|split; [|split]]); simpl; try discriminate; auto;
        try (intros k s Hg; apply get_delete_sub in Hg; eauto; fail);
        try (intros t' [= <-]; exact Hok);
        try (intros d [<-|[]]; exact Hok); try (intros d []).
    + destruct (probe_turn t o _) as [turn|] eqn:E; [|discriminate].
      injection Hstep as <-. apply dirs_commit; [exact HD|].
      unfold probe_turn, resume_probe, retry, check in E.
      destruct (p_pc t), o; try discriminate;
        repeat match type of E with
          | context [if ?x then _ else _] => destruct x
          end;
        injection E as <-;
        (split; [exact Hs|]; split; [|split]; simpl; try discriminate; intros d []).
Qed.

Lemma run_dirs v es : forall used w w',
  Dirs v used w -> run v w es = Some w' -> Dirs v (issued es ++ used) w'.
Proof.
  induction es as [|e es IH]; intros used w w' HD Hrun.
  - simpl in *. now injection Hrun as <-.
  - cbn [run] in Hrun. destruct (step v w e) as [w1|] eqn:E; [|discriminate].
    rewrite issued_cons.
    apply (Dirs_weaken v (issued es ++ issued [e] ++ used)).
    { intros k Hk. rewrite !in_app_iff in *. tauto. }
    apply (IH _ w1); auto. now apply (step_dirs v used w e).
Qed.

(** X11.  Every [fs.rmdir] call of the server is made on the directory
    [REPOS_DIR/<id>] of an id that [uuidv4()] returned for an earlier
    create request, or, in the later revision only, on [undefined] (the
    delete handler reads a [sessionDir] its sessions do not have). *)
Theorem rmdir_targets (v : Variant) (es : list Event) (w : World) (d : option string) :
  run v boot es = Some w ->
  In (Rmdir d) (effects w) ->
  match d with
  | Some p => exists sid, In sid (issued es) /\ p = path_join REPOS_DIR sid
  | None => v = InContainerClone
  end.
Proof.
  intros Hrun Hin.
  assert (HD : Dirs v (issued es ++ []) w).
  { apply (run_dirs v es [] boot); auto.
    split; [|split; [|split]]; simpl; try discriminate. intros d' []. }
  rewrite app_nil_r in HD. destruct HD as (_ & _ & _ & He).
  apply (He d). now apply rmdirs_In.
Qed.

Lemma rmdir_targets_witness :
  exists sid,
    In sid (issued (demo_events ++ [DeleteDevServer "s1"; Settle 1 Resolved])) /\
    "../repos/s1" = path_join REPOS_DIR sid.
Proof.
  apply (rmdir_targets HostClone
           (demo_events ++ [DeleteDevServer "s1"; Settle 1 Resolved])
           (default boot
              (run HostClone boot
                 (demo_events ++ [DeleteDevServer "s1"; Settle 1 Resolved])))
           (Some "../repos/s1")).
  - vm_compute. reflexivity.
  - vm_compute. tauto.
Defined.

(** ** Logs of a session's container *)

(** X12.  In the later revision, while [uuidv4()] returns no id twice, the
    logs route asks Docker for logs only of the container of a session that
    is [running], with [tail: 200]; for a session that is not [running] it
    answers 404 without calling Docker. *)
Theorem logs_only_for_running (w : World) (sid : string) (o : LogsOutcome) :
  reachable_fresh InContainerClone w ->
  (forall c tail,
      In (FetchLogs c tail) (snd (logs_route sid (activeSessions w) o)) ->
      tail = 200 /\
      exists s, JsMap.get sid (activeSessions w) = Some s /\
                status s = running /\ containerId s = Some c) /\
  (forall s,
      JsMap.get sid (activeSessions w) = Some s -> status s <> running ->
      logs_route sid (activeSessions w) o =
        (LogsError 404 "Session or container not found", [])).
Proof.
  intros Hr. destruct (reachable_fresh_owned _ _ Hr) as (used & Hown).
  destruct Hown as (_ & _ & _ & _ & _ & _ & Hs).
  unfold logs_route, get_logs. split.
  - intros c tail.
    destruct (JsMap.get sid (activeSessions w)) as [s|] eqn:Hg; [|intros []].
    destruct (containerId s) as [c0|] eqn:Hc; [|intros []].
    destruct (truthy c0); [|intros []].
    destruct (Hs _ _ Hg) as (Hrun & _).
    assert (Hst : status s = running) by (apply Hrun; congruence).
    simpl. intros [H|H].
    + injection H as <- <-. eauto.
    + destruct o; simpl in H; [destruct H | destruct H as [H|[]]; discriminate].
  - intros s Hg Hst. rewrite Hg.
    destruct (Hs _ _ Hg) as (Hrun & _).
    destruct (containerId s) as [c0|] eqn:Hc; [|reflexivity].
    exfalso. apply Hst, Hrun. discriminate.
Qed.

Lemma logs_only_for_running_witness :
  logs_route "s1" (activeSessions starting_world) (LogsResolved "ready") =
    (LogsError 404 "Session or container not found", []).
Proof.
  destruct (logs_only_for_running starting_world "s1" (LogsResolved "ready"))
    as [_ H].
  - exists starting_events. split; [|vm_compute; reflexivity].
    vm_compute. apply NoDup_singleton.
  - apply (H (mkSession "s1" "https://example.com/demo.git" 8080 starting None None)).
    + vm_compute. reflexivity.
    + discriminate.
Defined.

(** ** Which containers the server touches *)

Lemma created_In c es :
  In c (created es) <-> exists id, In (Settle id (ContainerCreated c)) es.
Proof.
  unfold created. rewrite in_flat_map. split.
  - intros (e & He & Hc). destruct e as [| | |id o]; try contradiction.
    destruct o; try contradiction. destruct Hc as [->|[]]. eauto.
  - intros (id & Hin). exists (Settle id (ContainerCreated c)).
    split; [exact Hin | now left].
Qed.

Lemma container_calls_app effs effs' :
  container_calls (effs ++ effs') = container_calls effs ++ container_calls effs'.
Proof. apply flat_map_app. Qed.

Lemma container_calls_In c effs :
  In (ContainerStart c) effs \/ In (ContainerStop c) effs \/
  In (ContainerInspect c) effs \/ (exists tail, In (ContainerLogs c tail) effs) ->
  In c (container_calls effs).
Proof.
  unfold container_calls. rewrite in_flat_map.
  intros [H|[H|[H|[tail H]]]]; eexists; (split; [exact H | now left]).
Qed.

Lemma Handles_weaken known known' w :
  (forall c, In c known -> In c known') -> Handles known w -> Handles known' w.
Proof.
  intros Hsub (Hs & Hc & Hp & He). split; [|split; [|split]]; eauto.
Qed.

Lemma handles_commit known w id fresh turn :
  Handles known w -> TurnHandles known turn -> Handles known (commit w id fresh turn).
Proof.
  intros (Hs & Hc & Hp & He) (Ts & Tc & Tp & Tsp & Te). split; [|split; [|split]].
  - exact Ts.
  - intros i t p c Hi. apply commit_tasks in Hi as [Hi|[(pr & _ & Hi)|Hi]]; eauto.
    discriminate.
  - intros i t Hi. apply commit_tasks in Hi as [Hi|[(pr & Hsp & Hi)|Hi]]; eauto.
    injection Hi as ->. eauto.
  - intros c. simpl. rewrite container_calls_app, in_app_iff. intros [Hin|Hin]; auto.
Qed.

Lemma handles_accept known w turn :
  Handles known w -> TurnHandles known turn -> Handles known (accept w turn).
Proof.
  intros (Hs & Hc & Hp & He) (Ts & Tc & Tp & Tsp & Te). split; [|split; [|split]].
  - exact Ts.
  - intros i t p c Hi. apply accept_tasks in Hi as [Hi|Hi]; eauto.
  - intros i t Hi. apply accept_tasks in Hi as [Hi|Hi]; eauto.
  - intros c. simpl. rewrite container_calls_app, in_app_iff. intros [Hin|Hin]; auto.
Qed.

Lemma catch_create_quiet t message m :
  t_spawn (catch_create t message m) = None /\
  container_calls (t_effects (catch_create t message m)) = [].
Proof.
  unfold catch_create. destruct (truthy (c_repoUrl t)); [|now split].
  destruct (List.find _ _) as [x|]; [|now split].
  destruct (truthy x); now split.
Qed.

(** The create handler waits for [container.start()] only on the
    container [docker.createContainer] has just resolved to. *)
Lemma resume_create_started v t o m turn t' p c :
  resume_create v t o m = Some turn -> t_next turn = Some (TCreate t') ->
  c_pc t' = AwaitStart p c -> o = ContainerCreated c.
Proof.
  destruct t as [sid url pc]. unfold resume_create.
  cbn [c_pc c_sessionId c_repoUrl].
  destruct pc, o; try discriminate; intros H;
    repeat match type of H with
      | context [match ?x with _ => _ end] => destruct x
      end;
    try discriminate;
    injection H as <-; cbn [t_next suspend respond after]; intros Hn;
    try discriminate;
    try (apply catch_create_next in Hn);
    injection Hn as Hn; subst t'; intros Hpc; try discriminate.
  now injection Hpc as _ ->.
Qed.

(** The timer it arms watches the container it has just started. *)
Lemma resume_create_spawn v t o m turn pr :
  resume_create v t o m = Some turn -> t_spawn turn = Some pr ->
  exists p, c_pc t = AwaitStart p (p_container pr).
Proof.
  destruct t as [sid url pc]. unfold resume_create.
  cbn [c_pc c_sessionId c_repoUrl].
  destruct pc, o; try discriminate; intros H;
    repeat match type of H with
      | context [match ?x with _ => _ end] => destruct x
      end;
    try discriminate;
    injection H as <-; cbn [t_spawn suspend respond after fst snd];
    rewrite ?(proj1 (catch_create_quiet _ _ _)); intros Hn;
    try discriminate; injection Hn as <-; eauto.
Qed.

(** Its only call on a container is [container.start()], on the container
    just created. *)
Lemma resume_create_calls v t o m turn c :
  resume_create v t o m = Some turn -> In c (container_calls (t_effects turn)) ->
  o = ContainerCreated c.
Proof.
  assert (Hprobe : forall h, container_calls
                               (List.map ServerListen (List.tl (listens (findAvailablePort h 8080)))) = []).
  { intros h. now rewrite findAvailablePort_listens. }
  destruct t as [sid url pc]. unfold resume_create.
  cbn [c_pc c_sessionId c_repoUrl].
  destruct pc, o; try discriminate; intros H;
    repeat match type of H with
      | context [match ?x with _ => _ end] => destruct x
      end;
    try discriminate;
    injection H as <-;
    cbn [t_effects suspend respond after fst snd];
    rewrite ?container_calls_app, ?Hprobe, ?(proj2 (catch_create_quiet _ _ _));
    cbn [app container_calls flat_map];
    try (intros []; fail).
  now intros [->|[]].
Qed.

Lemma step_handles v known w e w' :
  Handles known w -> step v w e = Some w' -> Handles (created [e] ++ known) w'.
Proof.
  intros HH Hstep. pose proof HH as (Hs & Hc & Hp & He).
  destruct e as [body uuid| |sid|id o]; simpl in Hstep.
  - injection Hstep as <-. apply handles_accept; [exact HH|].
    unfold post_dev_server.
    destruct body as [url|]; [destruct (truthy url)|];
      (split; [exact Hs|]; split; [|split; [|split]]; simpl; try discriminate);
      try solve [intros c []]; intros t p c [= <-]; discriminate.
  - injection Hstep as <-. apply handles_accept; [exact HH|].
    split; [exact Hs|]. split; [|split; [|split]]; simpl; try discriminate.
    intros c [].
  - injection Hstep as <-. apply handles_accept; [exact HH|].
    unfold delete_dev_server.
    destruct (JsMap.get sid (activeSessions w)) as [s|] eqn:Hg.
    + destruct (containerId s) as [c|] eqn:Hcid; [destruct (truthy c)|];
        (split; [exact Hs|]; split; [|split; [|split]]; simpl; try discriminate);
        try solve [intros c' []].
      intros c' [<-|[]]. eauto.
    + split; [exact Hs|]. split; [|split; [|split]]; simpl; try discriminate.
      intros c [].
  - set (known' := created [Settle id o] ++ known).
    assert (Hsub : forall c, In c known -> In c known').
    { intros c Hin. apply in_or_app. now right. }
    destruct (tasks w !! id) as [[t|t|t]|] eqn:Hid; try discriminate.
    + destruct (resume_create v t o _) as [turn|] eqn:E; [|discriminate].
      injection Hstep as <-.
      apply handles_commit; [now apply (Handles_weaken known)|].
      split; [|split; [|split; [|split]]].
      * destruct (resume_create_step _ _ _ _ _ E)
          as [h p Hpc Hset Hreg Hnext|p s0 Hpc Hg0 Hreg Hnext|p c s0 Hpc Hg0 Hreg Hnext
              |p c Hpc Hreg Hnext|message Hreg Hnext]; rewrite ?Hreg.
        -- intros k s c'. destruct (string_dec (c_sessionId t) k) as [<-|Hne].
           ++ rewrite JsMapFacts.get_set_eq. intros [= <-]. now destruct v.
           ++ rewrite JsMapFacts.get_set_ne by exact Hne. eauto.
        -- intros k s c'. destruct (string_dec (c_sessionId t) k) as [<-|Hne].
           ++ rewrite JsMapFacts.get_set_eq. intros [= <-]. simpl. eauto.
           ++ rewrite JsMapFacts.get_set_ne by exact Hne. eauto.
        -- intros k s c'. destruct (string_dec (c_sessionId t) k) as [<-|Hne].
           ++ rewrite JsMapFacts.get_set_eq. intros [= <-]. simpl.
              intros [= <-]. eauto.
           ++ rewrite JsMapFacts.get_set_ne by exact Hne. eauto.
        -- eauto.
        -- destruct Hreg as [->|[k0 ->]]; eauto.
           intros k s c' Hg. apply get_delete_sub in Hg. eauto.
      * intros t' p c Hn Hpc.
        unfold known'. rewrite (resume_create_started _ _ _ _ _ _ _ _ E Hn Hpc).
        simpl. now left.
      * intros t' Hn.
        destruct (resume_create_step _ _ _ _ _ E)
          as [h p Hpc Hset Hreg Hnext|p s0 Hpc Hg0 Hreg Hnext|p c s0 Hpc Hg0 Hreg Hnext
              |p c Hpc Hreg Hnext|message Hreg [Hnext|Hnext]];
          rewrite Hnext in Hn; discriminate.
      * intros pr Hsp. destruct (resume_create_spawn _ _ _ _ _ _ E Hsp) as [p Hpc].
        eauto.
      * intros c Hin. unfold known'.
        rewrite (resume_create_calls _ _ _ _ _ _ E Hin). simpl. now left.
    + destruct (resume_delete t o _) as [turn|] eqn:E; [|discriminate].
      injection Hstep as <-.
      apply handles_commit; [now apply (Handles_weaken known)|].
      unfold resume_delete in E.
      destruct (d_pc t), o; try discriminate; injection E as <-;
        (split; [|split; [|split; [|split]]]); simpl; try discriminate; eauto;
        try (intros k s c Hg; apply get_delete_sub in Hg; eauto; fail);
        try solve [intros c []].
    + destruct (probe_turn t o _) as [turn|] eqn:E; [|discriminate].
      injection Hstep as <-.
      apply handles_commit; [now apply (Handles_weaken known)|].
      pose proof (Hp _ _ Hid) as Hin.
      unfold probe_turn, resume_probe, retry, check in E.
      destruct (p_pc t), o; try discriminate;
        repeat match type of E with
          | context [if ?x then _ else _] => destruct x
          end;
        injection E as <-;
        (split; [|split; [|split; [|split]]]); simpl; try discriminate; eauto;
        try (intros t' [= <-]; simpl; auto; fail);
        try (intros c [<-|[]]; auto; fail);
        try solve [intros c []].
Qed.

Lemma created_cons e es : created (e :: es) = created [e] ++ created es.
Proof. unfold created. simpl. now rewrite app_nil_r. Qed.

Lemma run_handles v es : forall known w w',
  Handles known w -> run v w es = Some w' -> Handles (created es ++ known) w'.
Proof.
  induction es as [|e es IH]; intros known w w' HH Hrun.
  - simpl in *. now injection Hrun as <-.
  - cbn [run] in Hrun. destruct (step v w e) as [w1|] eqn:E; [|discriminate].
    rewrite created_cons.
    apply (Handles_weaken (created es ++ created [e] ++ known)).
    { intros k Hk. rewrite !in_app_iff in *. tauto. }
    apply (IH _ w1); auto. now apply (step_handles v known w e).
Qed.

(** X13.  The server starts, stops, inspects and reads the logs of no
    container but those [docker.createContainer] resolved to earlier in
    the run.  This covers the calls of the create and delete handlers and
    of the probe, and the [container.logs] call the logs route of the
    later revision makes when it is asked at the end of the run. *)
Theorem only_own_containers (v : Variant) (es : list Event) (w : World) (c : string) :
  run v boot es = Some w ->
  In (ContainerStart c) (effects w) \/ In (ContainerStop c) (effects w) \/
  In (ContainerInspect c) (effects w) \/
  (exists tail, In (ContainerLogs c tail) (effects w)) \/
  (exists sid o tail,
      In (FetchLogs c tail) (snd (logs_route sid (activeSessions w) o))) ->
  exists id, In (Settle id (ContainerCreated c)) es.
Proof.
  intros Hrun Hin. apply created_In.
  assert (HH : Handles (created es ++ []) w).
  { apply (run_handles v es [] boot); auto.
    split; [|split; [|split]]; simpl; try discriminate. intros c' []. }
  rewrite app_nil_r in HH. destruct HH as (Hs & _ & _ & He).
  destruct Hin as [H|[H|[H|[H|(sid & o & tail & H)]]]];
    try (apply He, container_calls_In; tauto).
  unfold logs_route, get_logs in H.
  destruct (JsMap.get sid (activeSessions w)) as [s|] eqn:Hg; [|destruct H].
  destruct (containerId s) as [c0|] eqn:Hc; [|destruct H].
  destruct (truthy c0); [|destruct H].
  simpl in H. destruct H as [H|H].
  - injection H as <- _. apply (Hs _ _ _ Hg Hc).
  - destruct o; simpl in H; [destruct H | destruct H as [H|[]]; discriminate].
Qed.

(** The container of [demo_world] is stopped by a delete request, and is
    the one the logs route of [starting_world]'s successor asks for. *)
Lemma only_own_containers_witness :
  (exists id,
      In (Settle id (ContainerCreated "c1"))
         (demo_events ++ [DeleteDevServer "s1"; Settle 1 Resolved])) /\
  (exists id,
      In (Settle id (ContainerCreated "c1")) (starting_events ++ [Settle 0 Resolved])).
Proof.
  split.
  - apply (only_own_containers HostClone
             (demo_events ++ [DeleteDevServer "s1"; Settle 1 Resolved])
             (default boot
                (run HostClone boot
                   (demo_events ++ [DeleteDevServer "s1"; Settle 1 Resolved])))
             "c1").
    + vm_compute. reflexivity.
    + right. left. vm_compute. tauto.
  - apply (only_own_containers InContainerClone
             (starting_events ++ [Settle 0 Resolved])
             (default boot
                (run InContainerClone boot (starting_events ++ [Settle 0 Resolved])))
             "c1").
    + vm_compute. reflexivity.
    + right. right. right. right.
      exists "s1", (LogsResolved "ready"), 200. vm_compute. tauto.
Defined.
